(** * Charity management: CRUD handlers over a relational store

    A shallow embedding of the persistence handlers of the server
    (users, categories, products, orders, order items) together with a
    model of the storage primitives they call, and the properties of the
    validation-and-persistence contract.

    Layout:
    - [JsNumber]: the doubles that travel through numeric-as-text
      columns, with [toString] and [parseFloat];
    - entity, row and input records, one module per TypeScript type;
    - the store: tables, the record of five tables, the handler monad;
    - the handlers, in source order;
    - the state machine of timed handler calls;
    - the vocabulary of the properties, and example stores;
    - the schemas of the inputs, the router, and the five management
      components of the client that call it;
    - lemmas: tables, handlers case by case, writes and invariants;
    - the properties of the validation-and-persistence contract, and
      further properties of the handlers, the router and the client.

    Input validation (the zod schemas of schema.ts) runs in the router
    before a handler is called.  The handlers are modelled on every
    input of their TypeScript type, of which the valid inputs are a
    part, with one restriction: identity keys, integer columns and
    foreign keys are integers, and the store answers every query about
    them.  The schemas check an id with [z.number()] only; what the
    database does when it is asked for a number that its integer key
    column cannot hold is not modelled.
    The handlers/ files that only resolve with placeholder records are
    the earlier stubs of the same handlers and are not modelled. *)

From Stdlib Require Import ZArith String Ascii List Bool Lia.
From stdpp Require Import base tactics decidable option list strings pretty.

Open Scope Z_scope.

(** * Numbers and their textual form *)

Module JsNumber.

(** A JavaScript number is an IEEE 754 double: [NaN], an infinity, or
    [m * 2^e] with a sign, where the significand [m] has at most 53 bits
    and the exponent [e] lies between [emin] and [emax].  A value has one
    representation: below [2^52] the significand goes with [emin] only
    (the subnormal numbers and zero).  The two zeros, which [===], [<]
    and [toString] do not tell apart, are one number here. *)

Inductive raw :=
  | RNaN
  | RInf (neg : bool)
  | RFin (neg : bool) (m e : Z).

Global Instance raw_eq_dec : EqDecision raw.
Proof. solve_decision. Defined.

Definition emin : Z := -1074.
Definition emax : Z := 971.

Definition canonicalb (r : raw) : bool :=
  match r with
  | RNaN | RInf _ => true
  | RFin neg m e =>
      if m =? 0 then negb neg && (e =? emin)
      else (0 <? m) && (m <? 2 ^ 53) && (emin <=? e) && (e <=? emax) &&
           ((2 ^ 52 <=? m) || (e =? emin))
  end.

Definition canonical (r : raw) : Prop := canonicalb r = true.

(** The type of JavaScript numbers. *)
Definition number : Type := dsig canonical.

Definition zero : raw := RFin false 0 emin.

(** ** Rounding to the nearest double *)

(** The significand [m] of a quotient cut off at some bit, with the bits
    [r] that were cut off, of which [half] is the topmost, and whether
    anything nonzero lay below those: round to nearest, ties to the even
    significand. *)
Definition round_even (m r half : Z) (sticky : bool) : Z :=
  if (half <? r) || ((r =? half) && (sticky || Z.odd m)) then m + 1 else m.

(** A significand of at most [2^53] with its exponent: the carry into a
    54th bit moves to the next exponent, and past [emax] the value is an
    infinity. *)
Definition pack (neg : bool) (m e : Z) : raw :=
  if m =? 0 then zero
  else if m =? 2 ^ 53 then
    if emax <? e + 1 then RInf neg else RFin neg (2 ^ 52) (e + 1)
  else if emax <? e then RInf neg else RFin neg m e.

(** The double nearest to [p / q], for [0 <= p] and [0 < q], with the
    sign [neg].  The quotient is taken with [a] extra bits, enough for it
    to have 56 bits or more; [e] is the exponent at which its leading
    bit is bit 52 of the significand, or [emin] when that would be
    lower. *)
Definition nearest (neg : bool) (p q : Z) : raw :=
  if p =? 0 then zero
  else
    let a := Z.max 0 (56 + Z.log2 q - Z.log2 p) in
    let Q := p * 2 ^ a / q in
    let sticky := negb (p * 2 ^ a mod q =? 0) in
    let e := Z.max (Z.log2 Q - 52 - a) emin in
    let sh := e + a in
    pack neg (round_even (Q / 2 ^ sh) (Q mod 2 ^ sh) (2 ^ (sh - 1)) sticky) e.

(** [s * 10^d] as a fraction. *)
Definition fraction (s d : Z) : Z * Z :=
  if 0 <=? d then (s * 10 ^ d, 1) else (s, 10 ^ (- d)).

(** The double nearest to [s * 10^d]. *)
Definition nearest_decimal (neg : bool) (s d : Z) : raw :=
  let '(p, q) := fraction s d in nearest neg p q.

(** ** Decimal digits *)

Inductive digit := D0 | D1 | D2 | D3 | D4 | D5 | D6 | D7 | D8 | D9.

Global Instance digit_eq_dec : EqDecision digit.
Proof. solve_decision. Defined.

Definition digit_char (d : digit) : ascii :=
  match d with
  | D0 => "0" | D1 => "1" | D2 => "2" | D3 => "3" | D4 => "4"
  | D5 => "5" | D6 => "6" | D7 => "7" | D8 => "8" | D9 => "9"
  end%char.

Definition char_digit (c : ascii) : option digit :=
  match c with
  | "0" => Some D0 | "1" => Some D1 | "2" => Some D2 | "3" => Some D3
  | "4" => Some D4 | "5" => Some D5 | "6" => Some D6 | "7" => Some D7
  | "8" => Some D8 | "9" => Some D9 | _ => None
  end%char.

Definition digit_value (d : digit) : Z :=
  match d with
  | D0 => 0 | D1 => 1 | D2 => 2 | D3 => 3 | D4 => 4
  | D5 => 5 | D6 => 6 | D7 => 7 | D8 => 8 | D9 => 9
  end.

(** The digit of a value below ten. *)
Definition value_digit (z : Z) : digit :=
  match z with
  | 1 => D1 | 2 => D2 | 3 => D3 | 4 => D4
  | 5 => D5 | 6 => D6 | 7 => D7 | 8 => D8 | 9 => D9 | _ => D0
  end.

(** The integer a row of digits writes. *)
Definition digits_value (ds : list digit) : Z :=
  foldl (fun acc d => 10 * acc + digit_value d) 0 ds.

Fixpoint digits_go (fuel : nat) (z : Z) (acc : list digit) : list digit :=
  match fuel with
  | O => acc
  | S fuel' =>
      if z <? 10 then value_digit z :: acc
      else digits_go fuel' (z / 10) (value_digit (z mod 10) :: acc)
  end.

(** The digits of a natural number, without leading zeros; [0] is the
    one digit [0]. *)
Definition value_digits (z : Z) : list digit :=
  digits_go (S (Z.to_nat (Z.log2 z))) z [].

Definition digits_to_string (ds : list digit) (k : string) : string :=
  foldr (fun d s => String (digit_char d) s) k ds.

(** ** Number.prototype.toString *)

(** The [n] with [10^(n-1) <= p / q < 10^n], for [0 < p] and [0 < q]:
    the number of digits before the point, or minus the number of zeros
    right after it. *)
Definition decimal_exponent (p q : Z) : Z :=
  if q <=? p then Z.of_nat (length (value_digits (p / q)))
  else 1 - Z.of_nat (length (value_digits ((q + p - 1) / p - 1))).

Fixpoint strip_zeros_go (fuel : nat) (s d : Z) : Z * Z :=
  match fuel with
  | O => (s, d)
  | S fuel' =>
      if (s mod 10 =? 0) && negb (s =? 0)
      then strip_zeros_go fuel' (s / 10) (d + 1)
      else (s, d)
  end.

(** [s * 10^d] with the zeros at the end of [s] moved into [d]. *)
Definition strip_zeros (s d : Z) : Z * Z :=
  strip_zeros_go (Z.to_nat (Z.log2 s)) s d.

(** A decimal [s * 10^d] reads back as the double [m * 2^e]. *)
Definition reads_as (m e : Z) (c : Z * Z) : bool :=
  bool_decide (nearest_decimal false c.1 c.2 = RFin false m e).

(** The decimal of [k] digits that reads back as [m * 2^e] and is
    nearest to it, if there is one.  With [n] the decimal exponent of
    the value, the candidates are the value times [10^(k-n)] cut off to
    an integer, and the next integer; of two that read back, the nearer
    one is taken, and the even one when they are equally near. *)
Definition of_length (m e : Z) (k : Z) : option (Z * Z) :=
  let '(p, q) := if 0 <=? e then (m * 2 ^ e, 1) else (m, 2 ^ (- e)) in
  let n := decimal_exponent p q in
  let '(N, d) := fraction p (k - n) in
  let D := d * q in
  let lo := strip_zeros (N / D) (n - k) in
  let hi := strip_zeros (N / D + 1) (n - k) in
  let r := N mod D in
  match reads_as m e lo, reads_as m e hi with
  | true, true =>
      if (2 * r <? D) || ((2 * r =? D) && Z.even (N / D)) then Some lo
      else Some hi
  | true, false => Some lo
  | false, true => Some hi
  | false, false => None
  end.

(** The double [m * 2^e] written out in full. *)
Definition exact_decimal (m e : Z) : Z * Z :=
  if 0 <=? e then (m * 2 ^ e, 0) else (m * 5 ^ (- e), e).

Fixpoint shortest_go (m e : Z) (tries : nat) (k : Z) : Z * Z :=
  match tries with
  | O => exact_decimal m e
  | S tries' =>
      match of_length m e k with
      | Some c => c
      | None => shortest_go m e tries' (k + 1)
      end
  end.

(** The shortest decimal that reads back as [m * 2^e].  Seventeen
    digits always tell two doubles apart, so the search ends before it
    gives up. *)
Definition shortest (m e : Z) : Z * Z := shortest_go m e 17 1.

Definition zeros (n : Z) : list digit := replicate (Z.to_nat n) D0.

Definition exponent_text (e : Z) : string :=
  String "e"
    (String (if e <? 0 then "-"%char else "+"%char)
       (digits_to_string (value_digits (Z.abs e)) "")).

(** The text of the decimal with the digits [ds] and the point after
    the first [n] of them: plain up to 21 digits before the point and
    up to 6 zeros after it, with an exponent beyond. *)
Definition format (ds : list digit) (n : Z) : string :=
  let k := Z.of_nat (length ds) in
  if (-6 <? n) && (n <=? 21) then
    if k <=? n then digits_to_string (ds ++ zeros (n - k)) ""
    else if 0 <? n then
      digits_to_string (take (Z.to_nat n) ds)
        (String "." (digits_to_string (drop (Z.to_nat n) ds) ""))
    else
      String "0" (String "." (digits_to_string (zeros (- n) ++ ds) ""))
  else
    match ds with
    | [] => ""
    | [d] => String (digit_char d) (exponent_text (n - 1))
    | d :: ds' =>
        String (digit_char d)
          (String "." (digits_to_string ds' (exponent_text (n - 1))))
    end.

Definition sign_text (neg : bool) : string := if neg then "-" else "".

Definition raw_toString (r : raw) : string :=
  match r with
  | RNaN => "NaN"
  | RInf neg => sign_text neg +:+ "Infinity"
  | RFin neg m e =>
      if m =? 0 then "0"
      else
        let '(s, d) := shortest m e in
        let ds := value_digits s in
        sign_text neg +:+ format ds (Z.of_nat (length ds) + d)
  end.

(** ** parseFloat *)

(** White space and line ends, of those that are one byte long. *)
Definition is_white_space (c : ascii) : bool :=
  match c with
  | "009" | "010" | "011" | "012" | "013" | " " => true
  | _ => false
  end%char.

Fixpoint trim_start (s : string) : string :=
  match s with
  | String c s' => if is_white_space c then trim_start s' else s
  | EmptyString => s
  end.

Definition read_sign (s : string) : bool * string :=
  match s with
  | String "-" s' => (true, s')
  | String "+" s' => (false, s')
  | _ => (false, s)
  end.

Fixpoint read_digits (s : string) : list digit * string :=
  match s with
  | EmptyString => ([], EmptyString)
  | String c s' =>
      match char_digit c with
      | Some d => let '(ds, rest) := read_digits s' in (d :: ds, rest)
      | None => ([], s)
      end
  end.

(** A text that does not start with a digit. *)
Definition no_digit_ahead (k : string) : Prop := read_digits k = ([], k).

(** A point and the digits after it, if the text starts with a point. *)
Definition read_fraction (s : string) : list digit * string :=
  match s with
  | String "." s' => read_digits s'
  | _ => ([], s)
  end.

(** The value of an exponent part, if the text starts with one: [e] or
    [E], an optional sign and at least one digit. *)
Definition read_exponent (s : string) : Z :=
  match s with
  | String c s' =>
      if bool_decide (c = "e"%char) || bool_decide (c = "E"%char) then
        let '(neg, s'') := read_sign s' in
        match (read_digits s'').1 with
        | [] => 0
        | ds => if neg then - digits_value ds else digits_value ds
        end
      else 0
  | EmptyString => 0
  end.

(** A decimal literal without its sign: digits with at most one point,
    at least one digit in all, and an exponent part. *)
Definition read_decimal (neg : bool) (s : string) : raw :=
  let '(ip, s2) := read_digits s in
  let '(fp, s3) := read_fraction s2 in
  if bool_decide (ip ++ fp = []) then RNaN
  else
    nearest_decimal neg (digits_value (ip ++ fp))
      (read_exponent s3 - Z.of_nat (length fp)).

(** [parseFloat]: white space is skipped, then the longest decimal
    literal the text starts with is read (a sign, then [Infinity] or a
    decimal) and what follows it is ignored; a text that starts with no
    literal is [NaN].  The value is the double nearest to the literal,
    whatever the number of its digits. *)
Definition raw_parseFloat (s : string) : raw :=
  let '(neg, s1) := read_sign (trim_start s) in
  if String.prefix "Infinity" s1 then RInf neg else read_decimal neg s1.

(** ** The rounded value is a double *)

Ltac pow_consts :=
  change (2 ^ 52) with 4503599627370496 in *;
  change (2 ^ 53) with 9007199254740992 in *;
  change (2 ^ 55) with 36028797018963968 in *.

Lemma canonical_finite neg m e :
  m <> 0 ->
  canonical (RFin neg m e) <->
  0 < m < 2 ^ 53 /\ emin <= e <= emax /\ (2 ^ 52 <= m \/ e = emin).
Proof.
  intros Hm. unfold canonical, canonicalb.
  destruct (Z.eqb_spec m 0) as [|_]; [done|].
  rewrite !andb_true_iff, orb_true_iff, !Z.ltb_lt, !Z.leb_le, Z.eqb_eq.
  tauto.
Qed.

Lemma pack_canonical neg m e :
  0 <= m <= 2 ^ 53 -> emin <= e -> 2 ^ 52 <= m \/ e = emin ->
  canonical (pack neg m e).
Proof.
  intros Hm He Hn. unfold pack.
  destruct (Z.eqb_spec m 0) as [|Hm0]; [done|].
  destruct (Z.eqb_spec m (2 ^ 53)) as [->|Hm53].
  - destruct (Z.ltb_spec emax (e + 1)); [done|].
    apply canonical_finite; [done|]. pow_consts. lia.
  - destruct (Z.ltb_spec emax e); [done|].
    apply canonical_finite; [done|]. lia.
Qed.

Lemma round_even_bounds m r half sticky :
  m <= round_even m r half sticky <= m + 1.
Proof. unfold round_even. case_match; lia. Qed.

(** The quotient with its extra bits has 56 bits or more. *)
Lemma guarded_quotient p q a :
  0 < p -> 0 < q -> 0 <= a -> 56 + Z.log2 q - Z.log2 p <= a ->
  2 ^ 55 <= p * 2 ^ a / q.
Proof.
  intros Hp Hq Ha Hguard.
  destruct (Z.log2_spec p Hp) as [Hp1 _].
  destruct (Z.log2_spec q Hq) as [_ Hq2].
  pose proof (Z.log2_nonneg p). pose proof (Z.log2_nonneg q).
  apply Z.div_le_lower_bound; [done|].
  assert (2 ^ (Z.log2 q + 56) <= 2 ^ (Z.log2 p + a)) as Hpow
    by (apply Z.pow_le_mono_r; lia).
  rewrite !Z.pow_add_r in Hpow by lia.
  replace (Z.succ (Z.log2 q)) with (Z.log2 q + 1) in Hq2 by lia.
  rewrite Z.pow_add_r in Hq2 by lia.
  assert (0 < 2 ^ a) by (apply Z.pow_pos_nonneg; lia).
  nia.
Qed.

Lemma nearest_canonical neg p q :
  0 <= p -> 0 < q -> canonical (nearest neg p q).
Proof.
  intros Hp Hq. unfold nearest.
  destruct (Z.eqb_spec p 0) as [|Hp0]; [done|].
  set (a := Z.max 0 (56 + Z.log2 q - Z.log2 p)).
  pose proof (guarded_quotient p q a ltac:(lia) Hq ltac:(lia) ltac:(lia)) as HQ.
  set (Q := p * 2 ^ a / q) in *.
  assert (0 < Q) as HQ0 by (pow_consts; lia).
  destruct (Z.log2_spec Q HQ0) as [HL1 HL2].
  assert (55 <= Z.log2 Q) as HL by (apply Z.log2_le_pow2; lia).
  set (e := Z.max (Z.log2 Q - 52 - a) emin).
  set (sh := e + a).
  assert (Z.log2 Q - 52 <= sh) as Hsh by (unfold sh, e; lia).
  assert (0 < 2 ^ sh) as Hpos by (apply Z.pow_pos_nonneg; lia).
  assert (Q / 2 ^ sh < 2 ^ 53) as Hlt.
  { apply Z.div_lt_upper_bound; [done|].
    rewrite <- Z.pow_add_r by lia.
    eapply Z.lt_le_trans; [exact HL2|]. apply Z.pow_le_mono_r; lia. }
  assert (0 <= Q / 2 ^ sh) as Hge by (apply Z.div_pos; lia).
  pose proof (round_even_bounds (Q / 2 ^ sh) (Q mod 2 ^ sh) (2 ^ (sh - 1))
                (negb (p * 2 ^ a mod q =? 0))) as Hr.
  apply pack_canonical; [pow_consts; lia | unfold e; lia |].
  destruct (decide (Z.log2 Q - 52 - a < emin)) as [Hsub|Hnorm].
  - right. unfold e. lia.
  - left. assert (sh = Z.log2 Q - 52) as Hsh' by (unfold sh, e; lia).
    assert (2 ^ 52 <= Q / 2 ^ sh); [|pow_consts; lia].
    apply Z.div_le_lower_bound; [done|].
    rewrite <- Z.pow_add_r by lia.
    replace (sh + 52) with (Z.log2 Q) by lia. done.
Qed.

Lemma digits_value_snoc ds d :
  digits_value (ds ++ [d]) = 10 * digits_value ds + digit_value d.
Proof. unfold digits_value. by rewrite foldl_app. Qed.

Lemma digit_value_bounds d : 0 <= digit_value d < 10.
Proof. destruct d; simpl; lia. Qed.

Lemma digits_value_nonneg ds : 0 <= digits_value ds.
Proof.
  induction ds as [|d ds IH] using rev_ind; [done|].
  rewrite digits_value_snoc. pose proof (digit_value_bounds d). lia.
Qed.

Lemma fraction_bounds s d p q :
  0 <= s -> fraction s d = (p, q) -> 0 <= p /\ 0 < q.
Proof.
  unfold fraction. intros Hs.
  destruct (Z.leb_spec 0 d); intros [= <- <-].
  - split; [|lia]. apply Z.mul_nonneg_nonneg; [done|]. by apply Z.pow_nonneg.
  - split; [done|]. apply Z.pow_pos_nonneg; lia.
Qed.

Lemma nearest_decimal_canonical neg s d :
  0 <= s -> canonical (nearest_decimal neg s d).
Proof.
  intros Hs. unfold nearest_decimal.
  destruct (fraction s d) as [p q] eqn:Hf.
  destruct (fraction_bounds s d p q Hs Hf). by apply nearest_canonical.
Qed.

Lemma raw_parseFloat_canonical s : canonical (raw_parseFloat s).
Proof.
  unfold raw_parseFloat.
  destruct (read_sign (trim_start s)) as [neg s1].
  destruct (String.prefix "Infinity" s1); [done|].
  unfold read_decimal.
  destruct (read_digits s1) as [ip s2].
  destruct (read_fraction s2) as [fp s3].
  case_bool_decide; [done|].
  apply nearest_decimal_canonical, digits_value_nonneg.
Qed.

Definition toString (x : number) : string := raw_toString (`x).

(** The proof component of a number evaluates to [I] on closed input. *)
Definition Is_true_eval (b : bool) : Is_true b -> Is_true b :=
  match b with
  | true => fun _ => I
  | false => fun H => H
  end.

Definition parseFloat (s : string) : number :=
  raw_parseFloat s ↾
    Is_true_eval _ (bool_decide_pack _ (raw_parseFloat_canonical s)).

End JsNumber.

Export JsNumber(number, toString, parseFloat).

(** * Data model (schema.ts) *)

(** [z.enum(['admin', 'user', 'guest'])] *)
Inductive UserRole := role_admin | role_user | role_guest.

(** [z.enum(['pending', 'processing', 'shipped', 'delivered', 'cancelled'])] *)
Inductive OrderStatus :=
  | status_pending | status_processing | status_shipped
  | status_delivered | status_cancelled.

(** A [Date] is its time value, in milliseconds since the epoch. *)
Definition Date : Type := Z.

(** An optional property [p?: T] is [option T] ([None] is [undefined]);
    a nullable one, [T | null], is [option T] as well ([None] is [null]);
    [p?: T | null] nests the two. *)

Module User.
Record t := mk {
  id : Z; name : string; email : string; role : UserRole;
  is_active : bool; created_at : Date; updated_at : Date }.
End User.

Module CreateUserInput.
Record t := mk {
  name : string; email : string;
  role : option UserRole; is_active : option bool }.
End CreateUserInput.

Module UpdateUserInput.
Record t := mk {
  id : Z; name : option string; email : option string;
  role : option UserRole; is_active : option bool }.
End UpdateUserInput.

Module Category.
Record t := mk {
  id : Z; name : string; description : option string;
  is_active : bool; created_at : Date; updated_at : Date }.
End Category.

Module CreateCategoryInput.
Record t := mk {
  name : string; description : option (option string);
  is_active : option bool }.
End CreateCategoryInput.

Module UpdateCategoryInput.
Record t := mk {
  id : Z; name : option string; description : option (option string);
  is_active : option bool }.
End UpdateCategoryInput.

Module Product.
Record t := mk {
  id : Z; name : string; description : option string; price : number;
  stock_quantity : Z; category_id : option Z; is_active : bool;
  created_at : Date; updated_at : Date }.
End Product.

Module CreateProductInput.
Record t := mk {
  name : string; description : option (option string); price : number;
  stock_quantity : option Z; category_id : option (option Z);
  is_active : option bool }.
End CreateProductInput.

Module UpdateProductInput.
Record t := mk {
  id : Z; name : option string; description : option (option string);
  price : option number; stock_quantity : option Z;
  category_id : option (option Z); is_active : option bool }.
End UpdateProductInput.

Module Order.
Record t := mk {
  id : Z; user_id : Z; status : OrderStatus; total_amount : number;
  notes : option string; created_at : Date; updated_at : Date }.
End Order.

Module CreateOrderInput.
Record t := mk {
  user_id : Z; status : option OrderStatus; total_amount : number;
  notes : option (option string) }.
End CreateOrderInput.

Module UpdateOrderInput.
Record t := mk {
  id : Z; user_id : option Z; status : option OrderStatus;
  total_amount : option number; notes : option (option string) }.
End UpdateOrderInput.

Module OrderItem.
Record t := mk {
  id : Z; order_id : Z; product_id : Z; quantity : Z;
  unit_price : number; subtotal : number; created_at : Date }.
End OrderItem.

Module CreateOrderItemInput.
Record t := mk {
  order_id : Z; product_id : Z; quantity : Z;
  unit_price : number; subtotal : number }.
End CreateOrderItemInput.

Module UpdateOrderItemInput.
Record t := mk {
  id : Z; order_id : option Z; product_id : option Z;
  quantity : option Z; unit_price : option number;
  subtotal : option number }.
End UpdateOrderItemInput.

(** The inputs that carry a key only.  The schemas declare [id] as
    [z.number()]; here it is an integer, as the keys and foreign keys
    of the records above are. *)
Module DeleteInput.
Record t := mk { id : Z }.
End DeleteInput.

Module GetByIdInput.
Record t := mk { id : Z }.
End GetByIdInput.

(** [{ success: boolean }] *)
Module DeleteResult.
Record t := mk { success : bool }.
End DeleteResult.

(** ** JavaScript operators on optional values *)

(** Truthiness, for the left operand of [||]. *)
Class Truthy (A : Type) := truthy : A -> bool.

Global Instance string_truthy : Truthy string :=
  fun s => match s with EmptyString => false | _ => true end.
Global Instance Z_truthy : Truthy Z := fun n => negb (n =? 0).
Global Instance UserRole_truthy : Truthy UserRole := fun _ => true.
Global Instance OrderStatus_truthy : Truthy OrderStatus := fun _ => true.
(** [null] is falsy. *)
Global Instance nullable_truthy `{Truthy A} : Truthy (option A) :=
  fun x => match x with Some a => truthy a | None => false end.

(** [x || d], where [x] may be [undefined] *)
Definition js_or `{Truthy A} (x : option A) (d : A) : A :=
  match x with
  | Some a => if truthy a then a else d
  | None => d
  end.

(** [x ?? d], for an [x] that is a value or [undefined] *)
Definition js_nullish {A} (x : option A) (d : A) : A :=
  match x with
  | Some a => a
  | None => d
  end.

(** * Storage rows (db/schema.ts) *)

(** Modelled from the spec: db/schema.ts, which declares the five tables,
    is not among the sources.  The spec gives every table an
    auto-incrementing integer identity key, gives [created_at] and
    [updated_at] (where the entity has them) the insertion time, and
    keeps the currency columns ([price], [total_amount], [unit_price],
    [subtotal]) as text.  The users and categories rows have the shape
    of the entity; the other three differ from it in the text columns. *)

Module ProductRow.
Record t := mk {
  id : Z; name : string; description : option string; price : string;
  stock_quantity : Z; category_id : option Z; is_active : bool;
  created_at : Date; updated_at : Date }.
End ProductRow.

Module OrderRow.
Record t := mk {
  id : Z; user_id : Z; status : OrderStatus; total_amount : string;
  notes : option string; created_at : Date; updated_at : Date }.
End OrderRow.

Module OrderItemRow.
Record t := mk {
  id : Z; order_id : Z; product_id : Z; quantity : Z;
  unit_price : string; subtotal : string; created_at : Date }.
End OrderItemRow.

(** The objects handed to [.values(...)]: the columns the handler
    supplies on insert. *)

Module UserValues.
Record t := mk {
  name : string; email : string; role : UserRole; is_active : bool }.
End UserValues.

Module CategoryValues.
Record t := mk {
  name : string; description : option string; is_active : bool }.
End CategoryValues.

Module ProductValues.
Record t := mk {
  name : string; description : option string; price : string;
  stock_quantity : Z; category_id : option Z; is_active : bool }.
End ProductValues.

Module OrderValues.
Record t := mk {
  user_id : Z; status : OrderStatus; total_amount : string;
  notes : option string }.
End OrderValues.

Module OrderItemValues.
Record t := mk {
  order_id : Z; product_id : Z; quantity : Z;
  unit_price : string; subtotal : string }.
End OrderItemValues.

(** The objects handed to [.set(...)]: a column is present ([Some]) when
    the handler assigned it on [updateValues]. *)

Module UserSet.
Record t := mk {
  name : option string; email : option string; role : option UserRole;
  is_active : option bool; updated_at : option Date }.
End UserSet.

Module CategorySet.
Record t := mk {
  name : option string; description : option (option string);
  is_active : option bool; updated_at : option Date }.
End CategorySet.

Module ProductSet.
Record t := mk {
  name : option string; description : option (option string);
  price : option string; stock_quantity : option Z;
  category_id : option (option Z); is_active : option bool;
  updated_at : option Date }.
End ProductSet.

Module OrderSet.
Record t := mk {
  user_id : option Z; status : option OrderStatus;
  total_amount : option string; notes : option (option string);
  updated_at : option Date }.
End OrderSet.

Module OrderItemSet.
Record t := mk {
  order_id : option Z; product_id : option Z; quantity : option Z;
  unit_price : option string; subtotal : option string }.
End OrderItemSet.

(** * The store *)

(** Modelled from the spec: the relational storage engine behind [db].
    A table holds its rows in insertion order and the next value of its
    identity sequence; the sequence starts at 1 and is never rewound, so
    a deleted row's key is not handed out again.  No foreign-key
    constraint is enforced by the store (deletes do not cascade and
    leave dangling references). *)
Record Table (R : Type) := mkTable { rows : list R; next_id : Z }.
Arguments mkTable {R} _ _.
Arguments rows {R} _.
Arguments next_id {R} _.

Definition empty_table {R} : Table R := mkTable [] 1.

Record DB := mkDB {
  users : Table User.t;
  categories : Table Category.t;
  products : Table ProductRow.t;
  orders : Table OrderRow.t;
  order_items : Table OrderItemRow.t }.

Definition empty_db : DB :=
  mkDB empty_table empty_table empty_table empty_table empty_table.

(** A table object of db/schema.ts: where its rows live in the store,
    its identity column, how an insert completes the supplied values
    with the generated key and the default timestamps, and how [.set]
    overwrites columns.  [R] is the row type, [V] the insert values and
    [P] the update values. *)
Record PgTable (R V P : Type) := mkPgTable {
  from : DB -> Table R;
  into : Table R -> DB -> DB;
  id_of : R -> Z;
  new_row : Z -> Date -> V -> R;
  set_values : P -> R -> R;
  no_values : P -> bool }.
Arguments from {R V P} _ _.
Arguments into {R V P} _ _ _.
Arguments id_of {R V P} _ _.
Arguments new_row {R V P} _ _ _ _.
Arguments set_values {R V P} _ _ _.
Arguments no_values {R V P} _ _.

Definition is_undefined {A} (x : option A) : bool :=
  match x with None => true | Some _ => false end.

(** Modelled from the spec: the [users] table of db/schema.ts.  The key
    is the next value of the sequence and both timestamps default to the
    insertion time; [.set] overwrites the columns it is given. *)
Definition usersTable : PgTable User.t UserValues.t UserSet.t := {|
  from := users;
  into t db :=
    mkDB t (categories db) (products db) (orders db) (order_items db);
  id_of := User.id;
  new_row id now v :=
    User.mk id (UserValues.name v) (UserValues.email v) (UserValues.role v)
      (UserValues.is_active v) now now;
  set_values p r :=
    User.mk (User.id r)
      (default (User.name r) (UserSet.name p))
      (default (User.email r) (UserSet.email p))
      (default (User.role r) (UserSet.role p))
      (default (User.is_active r) (UserSet.is_active p))
      (User.created_at r)
      (default (User.updated_at r) (UserSet.updated_at p));
  no_values p :=
    is_undefined (UserSet.name p) && is_undefined (UserSet.email p) &&
    is_undefined (UserSet.role p) && is_undefined (UserSet.is_active p) &&
    is_undefined (UserSet.updated_at p) |}.

(** Modelled from the spec: the [categories] table of db/schema.ts, with
    the same defaults. *)
Definition categoriesTable
  : PgTable Category.t CategoryValues.t CategorySet.t := {|
  from := categories;
  into t db := mkDB (users db) t (products db) (orders db) (order_items db);
  id_of := Category.id;
  new_row id now v :=
    Category.mk id (CategoryValues.name v) (CategoryValues.description v)
      (CategoryValues.is_active v) now now;
  set_values p r :=
    Category.mk (Category.id r)
      (default (Category.name r) (CategorySet.name p))
      (default (Category.description r) (CategorySet.description p))
      (default (Category.is_active r) (CategorySet.is_active p))
      (Category.created_at r)
      (default (Category.updated_at r) (CategorySet.updated_at p));
  no_values p :=
    is_undefined (CategorySet.name p) &&
    is_undefined (CategorySet.description p) &&
    is_undefined (CategorySet.is_active p) &&
    is_undefined (CategorySet.updated_at p) |}.

(** Modelled from the spec: the [products] table of db/schema.ts, with
    the same defaults; [price] is a text column. *)
Definition productsTable
  : PgTable ProductRow.t ProductValues.t ProductSet.t := {|
  from := products;
  into t db := mkDB (users db) (categories db) t (orders db) (order_items db);
  id_of := ProductRow.id;
  new_row id now v :=
    ProductRow.mk id (ProductValues.name v) (ProductValues.description v)
      (ProductValues.price v) (ProductValues.stock_quantity v)
      (ProductValues.category_id v) (ProductValues.is_active v) now now;
  set_values p r :=
    ProductRow.mk (ProductRow.id r)
      (default (ProductRow.name r) (ProductSet.name p))
      (default (ProductRow.description r) (ProductSet.description p))
      (default (ProductRow.price r) (ProductSet.price p))
      (default (ProductRow.stock_quantity r) (ProductSet.stock_quantity p))
      (default (ProductRow.category_id r) (ProductSet.category_id p))
      (default (ProductRow.is_active r) (ProductSet.is_active p))
      (ProductRow.created_at r)
      (default (ProductRow.updated_at r) (ProductSet.updated_at p));
  no_values p :=
    is_undefined (ProductSet.name p) &&
    is_undefined (ProductSet.description p) &&
    is_undefined (ProductSet.price p) &&
    is_undefined (ProductSet.stock_quantity p) &&
    is_undefined (ProductSet.category_id p) &&
    is_undefined (ProductSet.is_active p) &&
    is_undefined (ProductSet.updated_at p) |}.

(** Modelled from the spec: the [orders] table of db/schema.ts, with the
    same defaults; [total_amount] is a text column. *)
Definition ordersTable : PgTable OrderRow.t OrderValues.t OrderSet.t := {|
  from := orders;
  into t db := mkDB (users db) (categories db) (products db) t (order_items db);
  id_of := OrderRow.id;
  new_row id now v :=
    OrderRow.mk id (OrderValues.user_id v) (OrderValues.status v)
      (OrderValues.total_amount v) (OrderValues.notes v) now now;
  set_values p r :=
    OrderRow.mk (OrderRow.id r)
      (default (OrderRow.user_id r) (OrderSet.user_id p))
      (default (OrderRow.status r) (OrderSet.status p))
      (default (OrderRow.total_amount r) (OrderSet.total_amount p))
      (default (OrderRow.notes r) (OrderSet.notes p))
      (OrderRow.created_at r)
      (default (OrderRow.updated_at r) (OrderSet.updated_at p));
  no_values p :=
    is_undefined (OrderSet.user_id p) && is_undefined (OrderSet.status p) &&
    is_undefined (OrderSet.total_amount p) && is_undefined (OrderSet.notes p) &&
    is_undefined (OrderSet.updated_at p) |}.

(** Modelled from the spec: the [order_items] table of db/schema.ts; it
    has [created_at] only, and [unit_price] and [subtotal] are text
    columns. *)
Definition orderItemsTable
  : PgTable OrderItemRow.t OrderItemValues.t OrderItemSet.t := {|
  from := order_items;
  into t db := mkDB (users db) (categories db) (products db) (orders db) t;
  id_of := OrderItemRow.id;
  new_row id now v :=
    OrderItemRow.mk id (OrderItemValues.order_id v)
      (OrderItemValues.product_id v) (OrderItemValues.quantity v)
      (OrderItemValues.unit_price v) (OrderItemValues.subtotal v) now;
  set_values p r :=
    OrderItemRow.mk (OrderItemRow.id r)
      (default (OrderItemRow.order_id r) (OrderItemSet.order_id p))
      (default (OrderItemRow.product_id r) (OrderItemSet.product_id p))
      (default (OrderItemRow.quantity r) (OrderItemSet.quantity p))
      (default (OrderItemRow.unit_price r) (OrderItemSet.unit_price p))
      (default (OrderItemRow.subtotal r) (OrderItemSet.subtotal p))
      (OrderItemRow.created_at r);
  no_values p :=
    is_undefined (OrderItemSet.order_id p) &&
    is_undefined (OrderItemSet.product_id p) &&
    is_undefined (OrderItemSet.quantity p) &&
    is_undefined (OrderItemSet.unit_price p) &&
    is_undefined (OrderItemSet.subtotal p) |}.

(** * The handler monad *)

(** An [async] handler either resolves with a value or rejects with an
    [Error]; the error is kept as its message. *)
Inductive Result (A : Type) :=
  | Ok (a : A)
  | Throw (message : string).
Arguments Ok {A} _.
Arguments Throw {A} _.

(** A handler runs at a clock reading against a store and leaves a
    store behind, also when it throws. *)
Definition Handler (A : Type) : Type := Date -> DB -> Result A * DB.

Global Instance Handler_ret : MRet Handler :=
  fun A a _ db => (Ok a, db).

Global Instance Handler_bind : MBind Handler :=
  fun A B f m now db =>
    match m now db with
    | (Ok a, db') => f a now db'
    | (Throw e, db') => (Throw e, db')
    end.

Definition throw {A} (message : string) : Handler A :=
  fun _ db => (Throw message, db).

(** [new Date()] *)
Definition new_Date : Handler Date :=
  fun now db => (Ok now, db).

(** [try { body } catch (error) { console.error(label, error); throw error; }]:
    the error is written to the console, which is no part of the store,
    and thrown again. *)
Definition try_catch {A} (label : string) (body : Handler A) : Handler A :=
  body.

(** [eq(table.id, x)] *)
Definition eq_id {R V P} (tbl : PgTable R V P) (x : Z) (r : R) : Prop :=
  id_of tbl r = x.

Global Instance eq_id_dec {R V P} (tbl : PgTable R V P) x r :
  Decision (eq_id tbl x r).
Proof. unfold eq_id. apply _. Defined.

(** The three writes, on one table.  An insert appends the row made of
    the supplied values, the next key of the sequence and the insertion
    time; an update overwrites the rows with the given key in place; a
    delete drops them.  Only an insert moves the sequence. *)
Definition table_insert {R V P} (tbl : PgTable R V P) (now : Date) (v : V)
    (t : Table R) : Table R :=
  mkTable (rows t ++ [new_row tbl (next_id t) now v]) (next_id t + 1).

Definition table_update {R V P} (tbl : PgTable R V P) (p : P) (x : Z)
    (t : Table R) : Table R :=
  mkTable
    ((fun r => if decide (eq_id tbl x r) then set_values tbl p r else r)
       <$> rows t)
    (next_id t).

Definition table_delete {R V P} (tbl : PgTable R V P) (x : Z)
    (t : Table R) : Table R :=
  mkTable (filter (fun r => ~ eq_id tbl x r) (rows t)) (next_id t).

(** The store after a write to one of its tables. *)
Definition inserted {R V P} (tbl : PgTable R V P) (v : V) (now : Date)
    (db : DB) : DB :=
  into tbl (table_insert tbl now v (from tbl db)) db.

Definition updated {R V P} (tbl : PgTable R V P) (p : P) (x : Z)
    (db : DB) : DB :=
  into tbl (table_update tbl p x (from tbl db)) db.

Definition removed {R V P} (tbl : PgTable R V P) (x : Z) (db : DB) : DB :=
  into tbl (table_delete tbl x (from tbl db)) db.

(** The rows of a table with a given identity key. *)
Definition stored {R V P} (tbl : PgTable R V P) (x : Z) (db : DB) : list R :=
  filter (eq_id tbl x) (rows (from tbl db)).

(** [db.select().from(tbl).execute()] *)
Definition db_select_all {R V P} (tbl : PgTable R V P) : Handler (list R) :=
  fun _ db => (Ok (rows (from tbl db)), db).

(** [db.select().from(tbl).where(cond).execute()] *)
Definition db_select {R V P} (tbl : PgTable R V P)
    (cond : R -> Prop) `{!forall r, Decision (cond r)} : Handler (list R) :=
  fun _ db => (Ok (filter cond (rows (from tbl db))), db).

(** [db.select().from(tbl).where(eq(tbl.id, x)).execute()], for an
    integer [x]: the store answers with the rows that have the key. *)
Definition db_select_id {R V P} (tbl : PgTable R V P) (x : Z)
  : Handler (list R) :=
  fun _ db => (Ok (stored tbl x db), db).

(** [db.select().from(tbl).where(eq(tbl.id, x)).limit(n).execute()] *)
Definition db_select_id_limit {R V P} (tbl : PgTable R V P) (x : Z) (n : nat)
  : Handler (list R) :=
  fun _ db => (Ok (take n (stored tbl x db)), db).

(** [db.insert(tbl).values(v).returning().execute()]: one row is
    appended and returned. *)
Definition db_insert {R V P} (tbl : PgTable R V P) (v : V)
  : Handler (list R) :=
  fun now db =>
    (Ok [new_row tbl (next_id (from tbl db)) now v], inserted tbl v now db).

(** [db.update(tbl).set(p).where(eq(tbl.id, x)).returning().execute()]:
    the query builder refuses an object without any column
    ("No values to set"); otherwise the matching rows are overwritten
    and returned. *)
Definition db_update {R V P} (tbl : PgTable R V P) (p : P) (x : Z)
  : Handler (list R) :=
  fun _ db =>
    if no_values tbl p then (Throw "No values to set", db)
    else (Ok (set_values tbl p <$> stored tbl x db), updated tbl p x db).

(** [db.delete(tbl).where(eq(tbl.id, x)).returning().execute()]; without
    [.returning()] the handler does not look at the result. *)
Definition db_delete {R V P} (tbl : PgTable R V P) (x : Z)
  : Handler (list R) :=
  fun _ db => (Ok (stored tbl x db), removed tbl x db).

(** [result[0]] of a query result whose properties are read next, or
    which is the value the handler resolves with.  On an empty result a
    property read throws a [TypeError]; every use below is behind a
    check, or after an insert, that makes the result non-empty. *)
Definition first_row {R} (result : list R) : Handler R :=
  match result with
  | r :: _ => mret r
  | [] => throw "TypeError: undefined is not an object"
  end.

(** * Handlers *)

(** Each handler keeps the shape of its source: the queries in order,
    the checks between them, the object built for [.values] or [.set]
    (as a function of the input, named after the handler), and the
    conversion of the returned row. *)

(** ** handlers/users.ts *)

Definition createUser_values (input : CreateUserInput.t) : UserValues.t := {|
  UserValues.name := CreateUserInput.name input;
  UserValues.email := CreateUserInput.email input;
  UserValues.role := js_or (CreateUserInput.role input) role_user;
  UserValues.is_active := js_nullish (CreateUserInput.is_active input) true |}.

Definition createUser (input : CreateUserInput.t) : Handler User.t :=
  try_catch "User creation failed:" (
    result ← db_insert usersTable (createUser_values input);
    first_row result).

Definition getUsers : Handler (list User.t) :=
  try_catch "Failed to fetch users:" (
    result ← db_select_all usersTable;
    mret result).

(** [result[0] || null] *)
Definition getUserById (input : GetByIdInput.t) : Handler (option User.t) :=
  try_catch "Failed to fetch user by ID:" (
    result ← db_select_id usersTable (GetByIdInput.id input);
    mret (head result)).

Definition updateUser_values (input : UpdateUserInput.t) (now : Date)
  : UserSet.t := {|
  UserSet.updated_at := Some now;
  UserSet.name := UpdateUserInput.name input;
  UserSet.email := UpdateUserInput.email input;
  UserSet.role := UpdateUserInput.role input;
  UserSet.is_active := UpdateUserInput.is_active input |}.

Definition updateUser (input : UpdateUserInput.t) : Handler User.t :=
  try_catch "User update failed:" (
    existingUser ← getUserById (GetByIdInput.mk (UpdateUserInput.id input));
    match existingUser with
    | None =>
        throw ("User with ID " +:+ pretty (UpdateUserInput.id input)
               +:+ " not found")
    | Some _ =>
        now ← new_Date;
        let updateValues := updateUser_values input now in
        result ← db_update usersTable updateValues (UpdateUserInput.id input);
        first_row result
    end).

Definition deleteUser (input : DeleteInput.t) : Handler DeleteResult.t :=
  try_catch "User deletion failed:" (
    existingUser ← getUserById (GetByIdInput.mk (DeleteInput.id input));
    match existingUser with
    | None =>
        throw ("User with ID " +:+ pretty (DeleteInput.id input)
               +:+ " not found")
    | Some _ =>
        _ ← db_delete usersTable (DeleteInput.id input);
        mret (DeleteResult.mk true)
    end).

(** ** handlers/categories.ts *)

Definition createCategory_values (input : CreateCategoryInput.t)
  : CategoryValues.t := {|
  CategoryValues.name := CreateCategoryInput.name input;
  CategoryValues.description :=
    js_or (CreateCategoryInput.description input) None;
  CategoryValues.is_active :=
    js_nullish (CreateCategoryInput.is_active input) true |}.

Definition createCategory (input : CreateCategoryInput.t)
  : Handler Category.t :=
  try_catch "Category creation failed:" (
    result ← db_insert categoriesTable (createCategory_values input);
    first_row result).

Definition getCategories : Handler (list Category.t) :=
  try_catch "Category fetch failed:" (
    result ← db_select_all categoriesTable;
    mret result).

(** [result.length > 0 ? result[0] : null] *)
Definition getCategoryById (input : GetByIdInput.t)
  : Handler (option Category.t) :=
  try_catch "Category fetch by ID failed:" (
    result ← db_select_id categoriesTable (GetByIdInput.id input);
    mret (head result)).

Definition updateCategory_values (input : UpdateCategoryInput.t) (now : Date)
  : CategorySet.t := {|
  CategorySet.name := UpdateCategoryInput.name input;
  CategorySet.description := UpdateCategoryInput.description input;
  CategorySet.is_active := UpdateCategoryInput.is_active input;
  CategorySet.updated_at := Some now |}.

Definition updateCategory (input : UpdateCategoryInput.t)
  : Handler Category.t :=
  try_catch "Category update failed:" (
    now ← new_Date;
    let updateData := updateCategory_values input now in
    result ← db_update categoriesTable updateData
               (UpdateCategoryInput.id input);
    match result with
    | [] =>
        throw ("Category with ID " +:+ pretty (UpdateCategoryInput.id input)
               +:+ " not found")
    | category :: _ => mret category
    end).

Definition deleteCategory (input : DeleteInput.t) : Handler DeleteResult.t :=
  try_catch "Category deletion failed:" (
    result ← db_delete categoriesTable (DeleteInput.id input);
    mret (DeleteResult.mk (bool_decide (0 < length result)%nat))).

(** ** handlers/products.ts *)

(** [{ ...product, price: parseFloat(product.price) }] *)
Definition product_of_row (product : ProductRow.t) : Product.t := {|
  Product.id := ProductRow.id product;
  Product.name := ProductRow.name product;
  Product.description := ProductRow.description product;
  Product.price := parseFloat (ProductRow.price product);
  Product.stock_quantity := ProductRow.stock_quantity product;
  Product.category_id := ProductRow.category_id product;
  Product.is_active := ProductRow.is_active product;
  Product.created_at := ProductRow.created_at product;
  Product.updated_at := ProductRow.updated_at product |}.

Definition createProduct_values (input : CreateProductInput.t)
  : ProductValues.t := {|
  ProductValues.name := CreateProductInput.name input;
  ProductValues.description :=
    js_or (CreateProductInput.description input) None;
  ProductValues.price := toString (CreateProductInput.price input);
  ProductValues.stock_quantity :=
    js_nullish (CreateProductInput.stock_quantity input) 0;
  ProductValues.category_id :=
    js_or (CreateProductInput.category_id input) None;
  ProductValues.is_active :=
    js_nullish (CreateProductInput.is_active input) true |}.

Definition createProduct (input : CreateProductInput.t) : Handler Product.t :=
  try_catch "Product creation failed:" (
    result ← db_insert productsTable (createProduct_values input);
    product ← first_row result;
    mret (product_of_row product)).

Definition getProducts : Handler (list Product.t) :=
  try_catch "Failed to fetch products:" (
    results ← db_select_all productsTable;
    mret (product_of_row <$> results)).

Definition getProductById (input : GetByIdInput.t)
  : Handler (option Product.t) :=
  try_catch "Failed to fetch product by ID:" (
    results ← db_select_id productsTable (GetByIdInput.id input);
    match results with
    | [] => mret None
    | product :: _ => mret (Some (product_of_row product))
    end).

Definition updateProduct_values (input : UpdateProductInput.t) (now : Date)
  : ProductSet.t := {|
  ProductSet.name := UpdateProductInput.name input;
  ProductSet.description := UpdateProductInput.description input;
  ProductSet.price := toString <$> UpdateProductInput.price input;
  ProductSet.stock_quantity := UpdateProductInput.stock_quantity input;
  ProductSet.category_id := UpdateProductInput.category_id input;
  ProductSet.is_active := UpdateProductInput.is_active input;
  ProductSet.updated_at := Some now |}.

Definition updateProduct (input : UpdateProductInput.t) : Handler Product.t :=
  try_catch "Product update failed:" (
    now ← new_Date;
    let updateValues := updateProduct_values input now in
    results ← db_update productsTable updateValues
                (UpdateProductInput.id input);
    match results with
    | [] =>
        throw ("Product with ID " +:+ pretty (UpdateProductInput.id input)
               +:+ " not found")
    | product :: _ => mret (product_of_row product)
    end).

Definition deleteProduct (input : DeleteInput.t) : Handler DeleteResult.t :=
  try_catch "Product deletion failed:" (
    results ← db_delete productsTable (DeleteInput.id input);
    mret (DeleteResult.mk (bool_decide (0 < length results)%nat))).

(** ** handlers/orders.ts *)

(** [{ ...order, total_amount: parseFloat(order.total_amount) }] *)
Definition order_of_row (order : OrderRow.t) : Order.t := {|
  Order.id := OrderRow.id order;
  Order.user_id := OrderRow.user_id order;
  Order.status := OrderRow.status order;
  Order.total_amount := parseFloat (OrderRow.total_amount order);
  Order.notes := OrderRow.notes order;
  Order.created_at := OrderRow.created_at order;
  Order.updated_at := OrderRow.updated_at order |}.

Definition createOrder_values (input : CreateOrderInput.t) : OrderValues.t := {|
  OrderValues.user_id := CreateOrderInput.user_id input;
  OrderValues.status := js_or (CreateOrderInput.status input) status_pending;
  OrderValues.total_amount := toString (CreateOrderInput.total_amount input);
  OrderValues.notes := js_or (CreateOrderInput.notes input) None |}.

Definition createOrder (input : CreateOrderInput.t) : Handler Order.t :=
  try_catch "Order creation failed:" (
    existingUser ← db_select_id usersTable (CreateOrderInput.user_id input);
    match existingUser with
    | [] =>
        throw ("User with id " +:+ pretty (CreateOrderInput.user_id input)
               +:+ " not found")
    | _ :: _ =>
        result ← db_insert ordersTable (createOrder_values input);
        order ← first_row result;
        mret (order_of_row order)
    end).

Definition getOrders : Handler (list Order.t) :=
  try_catch "Failed to fetch orders:" (
    results ← db_select_all ordersTable;
    mret (order_of_row <$> results)).

Definition getOrderById (input : GetByIdInput.t) : Handler (option Order.t) :=
  try_catch "Failed to fetch order by ID:" (
    results ← db_select_id ordersTable (GetByIdInput.id input);
    match results with
    | [] => mret None
    | order :: _ => mret (Some (order_of_row order))
    end).

(** [if (input.fk !== undefined) { const rows = await query;
    if (rows.length === 0) throw new Error(message) }], the guard in
    front of an update that may change a foreign key. *)
Definition verify_reference {R} (fk : option Z)
    (query : Z -> Handler (list R)) (message : Z -> string) : Handler () :=
  match fk with
  | Some x =>
      found ← query x;
      match found with
      | [] => throw (message x)
      | _ :: _ => mret ()
      end
  | None => mret ()
  end.

Definition updateOrder_values (input : UpdateOrderInput.t) (now : Date)
  : OrderSet.t := {|
  OrderSet.updated_at := Some now;
  OrderSet.user_id := UpdateOrderInput.user_id input;
  OrderSet.status := UpdateOrderInput.status input;
  OrderSet.total_amount := toString <$> UpdateOrderInput.total_amount input;
  OrderSet.notes := UpdateOrderInput.notes input |}.

Definition updateOrder (input : UpdateOrderInput.t) : Handler Order.t :=
  try_catch "Order update failed:" (
    _ ← verify_reference (UpdateOrderInput.user_id input)
          (fun user_id => db_select_id usersTable user_id)
          (fun user_id => "User with id " +:+ pretty user_id +:+ " not found");
    now ← new_Date;
    let updateData := updateOrder_values input now in
    result ← db_update ordersTable updateData (UpdateOrderInput.id input);
    match result with
    | [] =>
        throw ("Order with id " +:+ pretty (UpdateOrderInput.id input)
               +:+ " not found")
    | order :: _ => mret (order_of_row order)
    end).

Definition deleteOrder (input : DeleteInput.t) : Handler DeleteResult.t :=
  try_catch "Order deletion failed:" (
    result ← db_delete ordersTable (DeleteInput.id input);
    mret (DeleteResult.mk (bool_decide (0 < length result)%nat))).

(** ** handlers/order-items.ts *)

(** [{ ...item, unit_price: parseFloat(item.unit_price),
       subtotal: parseFloat(item.subtotal) }] *)
Definition order_item_of_row (item : OrderItemRow.t) : OrderItem.t := {|
  OrderItem.id := OrderItemRow.id item;
  OrderItem.order_id := OrderItemRow.order_id item;
  OrderItem.product_id := OrderItemRow.product_id item;
  OrderItem.quantity := OrderItemRow.quantity item;
  OrderItem.unit_price := parseFloat (OrderItemRow.unit_price item);
  OrderItem.subtotal := parseFloat (OrderItemRow.subtotal item);
  OrderItem.created_at := OrderItemRow.created_at item |}.

Definition createOrderItem_values (input : CreateOrderItemInput.t)
  : OrderItemValues.t := {|
  OrderItemValues.order_id := CreateOrderItemInput.order_id input;
  OrderItemValues.product_id := CreateOrderItemInput.product_id input;
  OrderItemValues.quantity := CreateOrderItemInput.quantity input;
  OrderItemValues.unit_price :=
    toString (CreateOrderItemInput.unit_price input);
  OrderItemValues.subtotal := toString (CreateOrderItemInput.subtotal input) |}.

Definition createOrderItem (input : CreateOrderItemInput.t)
  : Handler OrderItem.t :=
  try_catch "Order item creation failed:" (
    order ← db_select_id_limit ordersTable
              (CreateOrderItemInput.order_id input) 1;
    match order with
    | [] =>
        throw ("Order with ID " +:+ pretty (CreateOrderItemInput.order_id input)
               +:+ " does not exist")
    | _ :: _ =>
        product ← db_select_id_limit productsTable
                    (CreateOrderItemInput.product_id input) 1;
        match product with
        | [] =>
            throw ("Product with ID "
                   +:+ pretty (CreateOrderItemInput.product_id input)
                   +:+ " does not exist")
        | _ :: _ =>
            result ← db_insert orderItemsTable (createOrderItem_values input);
            orderItem ← first_row result;
            mret (order_item_of_row orderItem)
        end
    end).

Definition getOrderItems : Handler (list OrderItem.t) :=
  try_catch "Failed to fetch order items:" (
    results ← db_select_all orderItemsTable;
    mret (order_item_of_row <$> results)).

Definition getOrderItemById (input : GetByIdInput.t)
  : Handler (option OrderItem.t) :=
  try_catch "Failed to fetch order item by ID:" (
    results ← db_select_id_limit orderItemsTable (GetByIdInput.id input) 1;
    match results with
    | [] => mret None
    | item :: _ => mret (Some (order_item_of_row item))
    end).

Definition getOrderItemsByOrderId (input : GetByIdInput.t)
  : Handler (list OrderItem.t) :=
  try_catch "Failed to fetch order items by order ID:" (
    results ← db_select orderItemsTable
                (fun item =>
                   OrderItemRow.order_id item = GetByIdInput.id input);
    mret (order_item_of_row <$> results)).

Definition updateOrderItem_values (input : UpdateOrderItemInput.t)
  : OrderItemSet.t := {|
  OrderItemSet.order_id := UpdateOrderItemInput.order_id input;
  OrderItemSet.product_id := UpdateOrderItemInput.product_id input;
  OrderItemSet.quantity := UpdateOrderItemInput.quantity input;
  OrderItemSet.unit_price :=
    toString <$> UpdateOrderItemInput.unit_price input;
  OrderItemSet.subtotal := toString <$> UpdateOrderItemInput.subtotal input |}.

Definition updateOrderItem (input : UpdateOrderItemInput.t)
  : Handler OrderItem.t :=
  try_catch "Order item update failed:" (
    existing ← db_select_id_limit orderItemsTable
                 (UpdateOrderItemInput.id input) 1;
    match existing with
    | [] =>
        throw ("Order item with ID " +:+ pretty (UpdateOrderItemInput.id input)
               +:+ " does not exist")
    | _ :: _ =>
        _ ← verify_reference (UpdateOrderItemInput.order_id input)
              (fun order_id => db_select_id_limit ordersTable order_id 1)
              (fun order_id =>
                 "Order with ID " +:+ pretty order_id +:+ " does not exist");
        _ ← verify_reference (UpdateOrderItemInput.product_id input)
              (fun product_id => db_select_id_limit productsTable product_id 1)
              (fun product_id =>
                 "Product with ID " +:+ pretty product_id
                 +:+ " does not exist");
        let updateValues := updateOrderItem_values input in
        results ← db_update orderItemsTable updateValues
                    (UpdateOrderItemInput.id input);
        orderItem ← first_row results;
        mret (order_item_of_row orderItem)
    end).

Definition deleteOrderItem (input : DeleteInput.t) : Handler DeleteResult.t :=
  try_catch "Order item deletion failed:" (
    _ ← db_delete orderItemsTable (DeleteInput.id input);
    mret (DeleteResult.mk true)).

(** * Timed handler calls *)

(** The remote operations of the router (index.ts), one constructor per
    procedure that reaches a handler. *)
Inductive Call :=
  | users_create (input : CreateUserInput.t)
  | users_getAll
  | users_getById (input : GetByIdInput.t)
  | users_update (input : UpdateUserInput.t)
  | users_delete (input : DeleteInput.t)
  | categories_create (input : CreateCategoryInput.t)
  | categories_getAll
  | categories_getById (input : GetByIdInput.t)
  | categories_update (input : UpdateCategoryInput.t)
  | categories_delete (input : DeleteInput.t)
  | products_create (input : CreateProductInput.t)
  | products_getAll
  | products_getById (input : GetByIdInput.t)
  | products_update (input : UpdateProductInput.t)
  | products_delete (input : DeleteInput.t)
  | orders_create (input : CreateOrderInput.t)
  | orders_getAll
  | orders_getById (input : GetByIdInput.t)
  | orders_update (input : UpdateOrderInput.t)
  | orders_delete (input : DeleteInput.t)
  | orderItems_create (input : CreateOrderItemInput.t)
  | orderItems_getAll
  | orderItems_getById (input : GetByIdInput.t)
  | orderItems_getByOrderId (input : GetByIdInput.t)
  | orderItems_update (input : UpdateOrderItemInput.t)
  | orderItems_delete (input : DeleteInput.t).

(** The store a handler leaves behind. *)
Definition after {A} (h : Handler A) (now : Date) (db : DB) : DB :=
  (h now db).2.

Definition exec (c : Call) : Date -> DB -> DB :=
  match c with
  | users_create i => after (createUser i)
  | users_getAll => after getUsers
  | users_getById i => after (getUserById i)
  | users_update i => after (updateUser i)
  | users_delete i => after (deleteUser i)
  | categories_create i => after (createCategory i)
  | categories_getAll => after getCategories
  | categories_getById i => after (getCategoryById i)
  | categories_update i => after (updateCategory i)
  | categories_delete i => after (deleteCategory i)
  | products_create i => after (createProduct i)
  | products_getAll => after getProducts
  | products_getById i => after (getProductById i)
  | products_update i => after (updateProduct i)
  | products_delete i => after (deleteProduct i)
  | orders_create i => after (createOrder i)
  | orders_getAll => after getOrders
  | orders_getById i => after (getOrderById i)
  | orders_update i => after (updateOrder i)
  | orders_delete i => after (deleteOrder i)
  | orderItems_create i => after (createOrderItem i)
  | orderItems_getAll => after getOrderItems
  | orderItems_getById i => after (getOrderItemById i)
  | orderItems_getByOrderId i => after (getOrderItemsByOrderId i)
  | orderItems_update i => after (updateOrderItem i)
  | orderItems_delete i => after (deleteOrderItem i)
  end.

(** The stores the server can be in, each with the clock reading of the
    latest call.  The server starts on empty tables; every call reads the
    clock once, and the clock never goes back: a call reads the value
    the call before it read, or a later one.  Two calls within one
    millisecond read the same value. *)
Inductive reachable : Date -> DB -> Prop :=
  | reachable_init t : reachable t empty_db
  | reachable_call t now db c :
      reachable t db -> t <= now -> reachable now (exec c now db).

(** ** Reading the store *)

(** The row with a given identity key that a [getById] sees. *)
Definition lookup_id {R V P} (tbl : PgTable R V P) (x : Z) (db : DB)
  : option R :=
  head (stored tbl x db).

Definition exists_row {R V P} (tbl : PgTable R V P) (x : Z) (db : DB) : Prop :=
  exists r, r ∈ rows (from tbl db) /\ id_of tbl r = x.

(** Every key in the table was handed out by the sequence. *)
Definition ids_below {R V P} (tbl : PgTable R V P) (db : DB) : Prop :=
  forall r, r ∈ rows (from tbl db) -> id_of tbl r < next_id (from tbl db).

(** Keys are unique within the table. *)
Definition ids_unique {R V P} (tbl : PgTable R V P) (db : DB) : Prop :=
  NoDup (id_of tbl <$> rows (from tbl db)).

Arguments stored : simpl never.
Arguments inserted : simpl never.
Arguments updated : simpl never.
Arguments removed : simpl never.
Arguments lookup_id : simpl never.

(** * Specification vocabulary *)

(** What the proofs use of a table object: it is a lens into the store,
    an insert gives the row the key it was handed, and [.set] never
    touches the key. *)
Class LawfulTable {R V P} (tbl : PgTable R V P) : Prop := {
  from_into t db : from tbl (into tbl t db) = t;
  into_from db : into tbl (from tbl db) db = db;
  id_of_new_row x now v : id_of tbl (new_row tbl x now v) = x;
  id_of_set_values p r : id_of tbl (set_values tbl p r) = id_of tbl r }.

(** A supplied foreign key points at a stored row; an omitted one asks
    for nothing. *)
Definition reference_ok {R V P} (tbl : PgTable R V P) (x : option Z)
    (db : DB) : Prop :=
  match x with
  | Some y => exists_row tbl y db
  | None => True
  end.

(** The two queries the guards run: by key, with or without
    [.limit(1)]. *)
Definition selects_by_id {R V P} (tbl : PgTable R V P)
    (query : Z -> Handler (list R)) : Prop :=
  forall x now db,
    query x now db = (Ok (stored tbl x db), db) \/
    query x now db = (Ok (take 1 (stored tbl x db)), db).

(** ** Reads and deletes *)

(** What a [getById] handler does, for a table [tbl] and the conversion
    [conv] from stored rows to the entity: it always resolves, with a
    stored row carrying the key when there is one and with [null]
    otherwise, and leaves the store as it was. *)
Definition getById_contract {R V P E} (tbl : PgTable R V P) (conv : R -> E)
    (getById : GetByIdInput.t -> Handler (option E)) : Prop :=
  forall (x : Z) (now : Date) (db : DB),
    (exists_row tbl x db ->
       exists r, r ∈ rows (from tbl db) /\ id_of tbl r = x /\
         getById (GetByIdInput.mk x) now db = (Ok (Some (conv r)), db)) /\
    (~ exists_row tbl x db ->
       getById (GetByIdInput.mk x) now db = (Ok None, db)).

(** What a delete handler that reports removal does: when the table has
    a row with the key, the row is removed (a later [getById] sees none)
    and the handler resolves with [success: true]; when it has none, the
    handler resolves with [success: false] and the store is as before. *)
Definition delete_contract {R V P} (tbl : PgTable R V P)
    (delete : DeleteInput.t -> Handler DeleteResult.t) : Prop :=
  forall (x : Z) (now : Date) (db : DB),
    (exists_row tbl x db ->
       delete (DeleteInput.mk x) now db
       = (Ok (DeleteResult.mk true), removed tbl x db) /\
       lookup_id tbl x (removed tbl x db) = None) /\
    (~ exists_row tbl x db ->
       delete (DeleteInput.mk x) now db = (Ok (DeleteResult.mk false), db)).

(** ** Partial updates *)

(** The merged record of a partial update, written from the spec's
    words: an update "applies only the fields present in the input,
    unconditionally refreshes updated_at (for entities that carry it),
    and returns the merged, coerced record".  [default prior supplied]
    is the supplied value when there is one and the prior value
    otherwise. *)

Definition merged_user (input : UpdateUserInput.t) (now : Date)
    (prior : User.t) : User.t := {|
  User.id := User.id prior;
  User.name := default (User.name prior) (UpdateUserInput.name input);
  User.email := default (User.email prior) (UpdateUserInput.email input);
  User.role := default (User.role prior) (UpdateUserInput.role input);
  User.is_active :=
    default (User.is_active prior) (UpdateUserInput.is_active input);
  User.created_at := User.created_at prior;
  User.updated_at := now |}.

Definition merged_category (input : UpdateCategoryInput.t) (now : Date)
    (prior : Category.t) : Category.t := {|
  Category.id := Category.id prior;
  Category.name :=
    default (Category.name prior) (UpdateCategoryInput.name input);
  Category.description :=
    default (Category.description prior)
      (UpdateCategoryInput.description input);
  Category.is_active :=
    default (Category.is_active prior) (UpdateCategoryInput.is_active input);
  Category.created_at := Category.created_at prior;
  Category.updated_at := now |}.

Definition merged_product (input : UpdateProductInput.t) (now : Date)
    (prior : Product.t) : Product.t := {|
  Product.id := Product.id prior;
  Product.name := default (Product.name prior) (UpdateProductInput.name input);
  Product.description :=
    default (Product.description prior) (UpdateProductInput.description input);
  Product.price :=
    default (Product.price prior) (UpdateProductInput.price input);
  Product.stock_quantity :=
    default (Product.stock_quantity prior)
      (UpdateProductInput.stock_quantity input);
  Product.category_id :=
    default (Product.category_id prior) (UpdateProductInput.category_id input);
  Product.is_active :=
    default (Product.is_active prior) (UpdateProductInput.is_active input);
  Product.created_at := Product.created_at prior;
  Product.updated_at := now |}.

Definition merged_order (input : UpdateOrderInput.t) (now : Date)
    (prior : Order.t) : Order.t := {|
  Order.id := Order.id prior;
  Order.user_id :=
    default (Order.user_id prior) (UpdateOrderInput.user_id input);
  Order.status := default (Order.status prior) (UpdateOrderInput.status input);
  Order.total_amount :=
    default (Order.total_amount prior) (UpdateOrderInput.total_amount input);
  Order.notes := default (Order.notes prior) (UpdateOrderInput.notes input);
  Order.created_at := Order.created_at prior;
  Order.updated_at := now |}.

Definition merged_order_item (input : UpdateOrderItemInput.t)
    (prior : OrderItem.t) : OrderItem.t := {|
  OrderItem.id := OrderItem.id prior;
  OrderItem.order_id :=
    default (OrderItem.order_id prior) (UpdateOrderItemInput.order_id input);
  OrderItem.product_id :=
    default (OrderItem.product_id prior)
      (UpdateOrderItemInput.product_id input);
  OrderItem.quantity :=
    default (OrderItem.quantity prior) (UpdateOrderItemInput.quantity input);
  OrderItem.unit_price :=
    default (OrderItem.unit_price prior)
      (UpdateOrderItemInput.unit_price input);
  OrderItem.subtotal :=
    default (OrderItem.subtotal prior) (UpdateOrderItemInput.subtotal input);
  OrderItem.created_at := OrderItem.created_at prior |}.

(** An order-item update that names at least one field to change. *)
Definition supplies_a_field (input : UpdateOrderItemInput.t) : Prop :=
  ~ (UpdateOrderItemInput.order_id input = None /\
     UpdateOrderItemInput.product_id input = None /\
     UpdateOrderItemInput.quantity input = None /\
     UpdateOrderItemInput.unit_price input = None /\
     UpdateOrderItemInput.subtotal input = None).

(** ** Repeated creates *)

(** What calling a create handler twice with the same input does, for a
    table [tbl], the conversion [conv] from rows to the entity with key
    [key], and the condition [ready] under which the create goes through
    (its foreign keys point at stored rows): both calls succeed, the
    two records carry the next two keys of the sequence, which differ,
    both are appended to the table, and no row that was in the table
    had either key. *)
Definition creates_fresh_rows {R V P I E} (tbl : PgTable R V P)
    (conv : R -> E) (key : E -> Z) (create : I -> Handler E)
    (ready : I -> DB -> Prop) : Prop :=
  forall (input : I) (now1 now2 : Date) (db : DB),
    ready input db ->
    let db1 := after (create input) now1 db in
    let db2 := after (create input) now2 db1 in
    exists a b : E,
      (create input now1 db).1 = Ok a /\
      (create input now2 db1).1 = Ok b /\
      key a = next_id (from tbl db) /\
      key b = next_id (from tbl db) + 1 /\
      key a <> key b /\
      conv <$> rows (from tbl db2) = (conv <$> rows (from tbl db)) ++ [a; b] /\
      (ids_below tbl db ->
       ~ exists_row tbl (key a) db /\ ~ exists_row tbl (key b) db).

(** ** What a call writes *)

(** A handler call leaves the store as it was, or does one insert, one
    update or one delete on one table; an update of a table that has
    [updated_at] sets that column to the clock reading of the call. *)
Inductive write (now : Date) (db : DB) : DB -> Prop :=
  | write_nothing : write now db db
  | write_users_insert v : write now db (inserted usersTable v now db)
  | write_users_update p x :
      UserSet.updated_at p = Some now ->
      write now db (updated usersTable p x db)
  | write_users_remove x : write now db (removed usersTable x db)
  | write_categories_insert v : write now db (inserted categoriesTable v now db)
  | write_categories_update p x :
      CategorySet.updated_at p = Some now ->
      write now db (updated categoriesTable p x db)
  | write_categories_remove x : write now db (removed categoriesTable x db)
  | write_products_insert v : write now db (inserted productsTable v now db)
  | write_products_update p x :
      ProductSet.updated_at p = Some now ->
      write now db (updated productsTable p x db)
  | write_products_remove x : write now db (removed productsTable x db)
  | write_orders_insert v : write now db (inserted ordersTable v now db)
  | write_orders_update p x :
      OrderSet.updated_at p = Some now ->
      write now db (updated ordersTable p x db)
  | write_orders_remove x : write now db (removed ordersTable x db)
  | write_orderItems_insert v : write now db (inserted orderItemsTable v now db)
  | write_orderItems_update p x : write now db (updated orderItemsTable p x db)
  | write_orderItems_remove x : write now db (removed orderItemsTable x db).

(** ** Invariants *)

Section table_invariant.
Context {R V P : Type} (tbl : PgTable R V P).
(** The two timestamps of a row; a table without [updated_at] takes
    [created_at] for both. *)
Variables (created touched : R -> Date).
Implicit Types (T : Table R) (t now : Date).

(** Keys come from the sequence and are unique, and no row was touched
    before it was created or after the clock reading [t]. *)
Definition table_ok t T : Prop :=
  (forall r, r ∈ rows T -> id_of tbl r < next_id T) /\
  NoDup (id_of tbl <$> rows T) /\
  (forall r, r ∈ rows T -> created r <= touched r /\ touched r <= t).

(** Every row of [T'] has the key and [created_at] of a row of [T], or
    is the row an insert at [now] added. *)
Definition keys_kept now T T' : Prop :=
  forall r', r' ∈ rows T' ->
    (exists r, r ∈ rows T /\ id_of tbl r = id_of tbl r' /\
               created r = created r') \/
    (id_of tbl r' = next_id T /\ created r' = now).

End table_invariant.

(** In every table, keys come from the sequence and are unique, and no
    row was updated before it was created or after the clock reading
    [t]. *)
Definition store_ok (t : Date) (db : DB) : Prop :=
  table_ok usersTable User.created_at User.updated_at t (users db) /\
  table_ok categoriesTable Category.created_at Category.updated_at t
    (categories db) /\
  table_ok productsTable ProductRow.created_at ProductRow.updated_at t
    (products db) /\
  table_ok ordersTable OrderRow.created_at OrderRow.updated_at t (orders db) /\
  table_ok orderItemsTable OrderItemRow.created_at OrderItemRow.created_at t
    (order_items db).

(** [updated_at >= created_at], for every stored row that has both. *)
Definition timestamps_ordered (db : DB) : Prop :=
  (forall r, r ∈ rows (users db) -> User.created_at r <= User.updated_at r) /\
  (forall r, r ∈ rows (categories db) ->
     Category.created_at r <= Category.updated_at r) /\
  (forall r, r ∈ rows (products db) ->
     ProductRow.created_at r <= ProductRow.updated_at r) /\
  (forall r, r ∈ rows (orders db) ->
     OrderRow.created_at r <= OrderRow.updated_at r).

(** Across a step from [db] to [db'] at [now], every row has the key
    and [created_at] of a row that was there before, or is the row the
    step inserted. *)
Definition store_keys_kept (now : Date) (db db' : DB) : Prop :=
  keys_kept usersTable User.created_at now (users db) (users db') /\
  keys_kept categoriesTable Category.created_at now
    (categories db) (categories db') /\
  keys_kept productsTable ProductRow.created_at now
    (products db) (products db') /\
  keys_kept ordersTable OrderRow.created_at now (orders db) (orders db') /\
  keys_kept orderItemsTable OrderItemRow.created_at now
    (order_items db) (order_items db').

(** No identity sequence is rewound from [db] to [db']. *)
Definition sequences_advance (db db' : DB) : Prop :=
  next_id (users db) <= next_id (users db') /\
  next_id (categories db) <= next_id (categories db') /\
  next_id (products db) <= next_id (products db') /\
  next_id (orders db) <= next_id (orders db') /\
  next_id (order_items db) <= next_id (order_items db').

(** ** Example stores and inputs *)

Definition alice : CreateUserInput.t :=
  CreateUserInput.mk "Alice" "alice@example.com" None None.

Definition books : CreateCategoryInput.t :=
  CreateCategoryInput.mk "Books" (Some (Some "")) None.

Definition novel : CreateProductInput.t :=
  CreateProductInput.mk "Novel" (Some (Some "")) (parseFloat "19.99")
    None None None.

Definition first_order : CreateOrderInput.t :=
  CreateOrderInput.mk 1 None (parseFloat "39.98") (Some (Some "")).

Definition two_novels : CreateOrderItemInput.t :=
  CreateOrderItemInput.mk 1 1 2 (parseFloat "19.99") (parseFloat "39.98").

(** A product and nothing else. *)
Definition one_product_store : DB := after (createProduct novel) 100 empty_db.

(** One row in every table, each created by its handler, ten
    milliseconds apart. *)
Definition shop : DB :=
  after (createOrderItem two_novels) 50
    (after (createOrder first_order) 40
       (after (createProduct novel) 30
          (after (createCategory books) 20
             (after (createUser alice) 10 empty_db)))).


Definition order_to_user_999 : UpdateOrderInput.t :=
  UpdateOrderInput.mk 1 (Some 999) None None None.


Definition order_for_nobody : CreateOrderInput.t :=
  CreateOrderInput.mk 999 None (parseFloat "20") None.

Definition item_of_no_order : CreateOrderItemInput.t :=
  CreateOrderItemInput.mk 99999 1 2 (parseFloat "10") (parseFloat "20").

Definition reprice_novel : UpdateProductInput.t :=
  UpdateProductInput.mk 1 None None (Some (parseFloat "39.99")) None None None.

(** The store of the shop example before its order is placed. *)
Definition shop_without_order : DB :=
  after (createProduct novel) 30
    (after (createCategory books) 20
       (after (createUser alice) 10 empty_db)).

Definition blank_description : UpdateCategoryInput.t :=
  UpdateCategoryInput.mk 1 None (Some (Some "")) None.

(** A category and nothing else, and a new name for it. *)
Definition books_only : DB := after (createCategory books) 20 empty_db.

Definition rename_books : UpdateCategoryInput.t :=
  UpdateCategoryInput.mk 1 (Some "Updated Electronics") None None.

(** A user and nothing else, and a new name for her. *)
Definition alice_only : DB := after (createUser alice) 10 empty_db.

Definition rename_alice : UpdateUserInput.t :=
  UpdateUserInput.mk 1 (Some "Alicia") None None None.

(** ** Outcomes *)

(** Whether a handler rejects. *)
Definition rejects {A} (h : Handler A) (now : Date) (db : DB) : bool :=
  match (h now db).1 with
  | Throw _ => true
  | Ok _ => false
  end.

(** Whether a call of the router rejects in its handler. *)
Definition fails (c : Call) : Date -> DB -> bool :=
  match c with
  | users_create i => rejects (createUser i)
  | users_getAll => rejects getUsers
  | users_getById i => rejects (getUserById i)
  | users_update i => rejects (updateUser i)
  | users_delete i => rejects (deleteUser i)
  | categories_create i => rejects (createCategory i)
  | categories_getAll => rejects getCategories
  | categories_getById i => rejects (getCategoryById i)
  | categories_update i => rejects (updateCategory i)
  | categories_delete i => rejects (deleteCategory i)
  | products_create i => rejects (createProduct i)
  | products_getAll => rejects getProducts
  | products_getById i => rejects (getProductById i)
  | products_update i => rejects (updateProduct i)
  | products_delete i => rejects (deleteProduct i)
  | orders_create i => rejects (createOrder i)
  | orders_getAll => rejects getOrders
  | orders_getById i => rejects (getOrderById i)
  | orders_update i => rejects (updateOrder i)
  | orders_delete i => rejects (deleteOrder i)
  | orderItems_create i => rejects (createOrderItem i)
  | orderItems_getAll => rejects getOrderItems
  | orderItems_getById i => rejects (getOrderItemById i)
  | orderItems_getByOrderId i => rejects (getOrderItemsByOrderId i)
  | orderItems_update i => rejects (updateOrderItem i)
  | orderItems_delete i => rejects (deleteOrderItem i)
  end.

(** ** Frames *)

(** What a delete does to the listing [getAll] returns: the records with
    the deleted key are gone, and every other record is still listed
    ([≡ₚ] compares two lists up to the order of their elements). *)
Definition delete_drops_key {E} (key : E -> Z) (getAll : Handler (list E))
    (delete : DeleteInput.t -> Handler DeleteResult.t) : Prop :=
  forall (x : Z) (now later : Date) (db : DB),
    exists before after_ : list E,
      (getAll now db).1 = Ok before /\
      (getAll later (after (delete (DeleteInput.mk x)) now db)).1 = Ok after_ /\
      after_ ≡ₚ filter (fun e => key e <> x) before.

(** An operation on the row with key [target input] leaves what
    [getById] returns for every other key as it was, whether the
    operation resolves or rejects. *)
Definition keeps_other_keys {I A E} (target : I -> Z) (op : I -> Handler A)
    (getById : GetByIdInput.t -> Handler (option E)) : Prop :=
  forall (input : I) (y : Z) (now later : Date) (db : DB),
    y <> target input ->
    (getById (GetByIdInput.mk y) later (after (op input) now db)).1
    = (getById (GetByIdInput.mk y) later db).1.

(** An operation leaves the keys of the listing as they were: no
    record is added and none is dropped. *)
Definition keeps_listed_keys {I A E} (key : E -> Z) (getAll : Handler (list E))
    (op : I -> Handler A) : Prop :=
  forall (input : I) (now later : Date) (db : DB),
    exists before after_ : list E,
      (getAll now db).1 = Ok before /\
      (getAll later (after (op input) now db)).1 = Ok after_ /\
      key <$> after_ ≡ₚ key <$> before.

(** ** Reading back *)

(** On a store the server can reach, the record a create resolves with
    is the record a later [getById] of its key resolves with. *)
Definition reads_back {I E} (key : E -> Z) (create : I -> Handler E)
    (getById : GetByIdInput.t -> Handler (option E)) : Prop :=
  forall (t now later : Date) (db : DB) (input : I) (e : E),
    reachable t db ->
    (create input now db).1 = Ok e ->
    (getById (GetByIdInput.mk (key e)) later (after (create input) now db)).1
    = Ok (Some e).

(** * Validation (schema.ts) *)

(** The zod schemas of the inputs, as the checks they run on a value of
    the input's TypeScript type.  What the type already says (a field is
    a string, a boolean, an integer, a member of an enum) needs no
    check; what is left are the refinements: [min(1)], [email()],
    [positive()] and [nonnegative()].  [z.number()] does not accept
    [NaN], so neither refinement does; it has no objection to an
    infinity, and [Infinity] is positive. *)

(** [z.number().positive()] *)
Definition is_positive (x : number) : bool :=
  match `x with
  | JsNumber.RFin false m _ => 0 <? m
  | JsNumber.RInf false => true
  | _ => false
  end.

(** [z.number().nonnegative()] *)
Definition is_nonnegative (x : number) : bool :=
  match `x with
  | JsNumber.RFin false _ _ | JsNumber.RInf false => true
  | _ => false
  end.

(** [z.string().min(1)] *)
Definition min_1 (s : string) : bool :=
  match s with
  | EmptyString => false
  | String _ _ => true
  end.

(** [.optional()]: an absent field passes. *)
Definition optional {A} (check : A -> bool) (x : option A) : bool :=
  match x with
  | Some a => check a
  | None => true
  end.

Section schemas.
(** [z.string().email()]: the pattern is zod's and is left open. *)
Variable is_email : string -> bool.

Definition createUserInputSchema (input : CreateUserInput.t) : bool :=
  min_1 (CreateUserInput.name input) &&
  is_email (CreateUserInput.email input).

Definition updateUserInputSchema (input : UpdateUserInput.t) : bool :=
  optional min_1 (UpdateUserInput.name input) &&
  optional is_email (UpdateUserInput.email input).

End schemas.

Definition createCategoryInputSchema (input : CreateCategoryInput.t) : bool :=
  min_1 (CreateCategoryInput.name input).

Definition updateCategoryInputSchema (input : UpdateCategoryInput.t) : bool :=
  optional min_1 (UpdateCategoryInput.name input).

Definition createProductInputSchema (input : CreateProductInput.t) : bool :=
  min_1 (CreateProductInput.name input) &&
  is_positive (CreateProductInput.price input) &&
  optional (fun n => 0 <=? n) (CreateProductInput.stock_quantity input).

Definition updateProductInputSchema (input : UpdateProductInput.t) : bool :=
  optional min_1 (UpdateProductInput.name input) &&
  optional is_positive (UpdateProductInput.price input) &&
  optional (fun n => 0 <=? n) (UpdateProductInput.stock_quantity input).

Definition createOrderInputSchema (input : CreateOrderInput.t) : bool :=
  is_nonnegative (CreateOrderInput.total_amount input).

Definition updateOrderInputSchema (input : UpdateOrderInput.t) : bool :=
  optional is_nonnegative (UpdateOrderInput.total_amount input).

Definition createOrderItemInputSchema (input : CreateOrderItemInput.t)
  : bool :=
  (0 <? CreateOrderItemInput.quantity input) &&
  is_positive (CreateOrderItemInput.unit_price input) &&
  is_nonnegative (CreateOrderItemInput.subtotal input).

Definition updateOrderItemInputSchema (input : UpdateOrderItemInput.t)
  : bool :=
  optional (fun n => 0 <? n) (UpdateOrderItemInput.quantity input) &&
  optional is_positive (UpdateOrderItemInput.unit_price input) &&
  optional is_nonnegative (UpdateOrderItemInput.subtotal input).

(** [z.object({ id: z.number() })] *)
Definition deleteInputSchema (input : DeleteInput.t) : bool := true.

Definition getByIdInputSchema (input : GetByIdInput.t) : bool := true.

(** * The router (index.ts) *)

(** [publicProcedure.input(schema).mutation(({ input }) => handler(input))],
    and the same with [.query]: the input is parsed against the schema
    first, and an input the schema refuses is answered with a
    [BAD_REQUEST] error without the handler being called.  The error is
    kept as its code; its message is the list of zod issues. *)
Definition procedure {I A} (schema : I -> bool) (handler : I -> Handler A)
    (input : I) : Handler A :=
  if schema input then handler input else throw "BAD_REQUEST".

Module appRouter.

Module users.
Definition create (is_email : string -> bool) :=
  procedure (createUserInputSchema is_email) createUser.
Definition getAll := getUsers.
Definition getById := procedure getByIdInputSchema getUserById.
Definition update (is_email : string -> bool) :=
  procedure (updateUserInputSchema is_email) updateUser.
Definition delete := procedure deleteInputSchema deleteUser.
End users.

Module categories.
Definition create := procedure createCategoryInputSchema createCategory.
Definition getAll := getCategories.
Definition getById := procedure getByIdInputSchema getCategoryById.
Definition update := procedure updateCategoryInputSchema updateCategory.
Definition delete := procedure deleteInputSchema deleteCategory.
End categories.

Module products.
Definition create := procedure createProductInputSchema createProduct.
Definition getAll := getProducts.
Definition getById := procedure getByIdInputSchema getProductById.
Definition update := procedure updateProductInputSchema updateProduct.
Definition delete := procedure deleteInputSchema deleteProduct.
End products.

Module orders.
Definition create := procedure createOrderInputSchema createOrder.
Definition getAll := getOrders.
Definition getById := procedure getByIdInputSchema getOrderById.
Definition update := procedure updateOrderInputSchema updateOrder.
Definition delete := procedure deleteInputSchema deleteOrder.
End orders.

Module orderItems.
Definition create := procedure createOrderItemInputSchema createOrderItem.
Definition getAll := getOrderItems.
Definition getById := procedure getByIdInputSchema getOrderItemById.
Definition getByOrderId :=
  procedure getByIdInputSchema getOrderItemsByOrderId.
Definition update := procedure updateOrderItemInputSchema updateOrderItem.
Definition delete := procedure deleteInputSchema deleteOrderItem.
End orderItems.

End appRouter.

(** The store a call leaves behind when it comes in through the
    router. *)
Definition serve (is_email : string -> bool) (c : Call) : Date -> DB -> DB :=
  match c with
  | users_create i => after (appRouter.users.create is_email i)
  | users_getAll => after appRouter.users.getAll
  | users_getById i => after (appRouter.users.getById i)
  | users_update i => after (appRouter.users.update is_email i)
  | users_delete i => after (appRouter.users.delete i)
  | categories_create i => after (appRouter.categories.create i)
  | categories_getAll => after appRouter.categories.getAll
  | categories_getById i => after (appRouter.categories.getById i)
  | categories_update i => after (appRouter.categories.update i)
  | categories_delete i => after (appRouter.categories.delete i)
  | products_create i => after (appRouter.products.create i)
  | products_getAll => after appRouter.products.getAll
  | products_getById i => after (appRouter.products.getById i)
  | products_update i => after (appRouter.products.update i)
  | products_delete i => after (appRouter.products.delete i)
  | orders_create i => after (appRouter.orders.create i)
  | orders_getAll => after appRouter.orders.getAll
  | orders_getById i => after (appRouter.orders.getById i)
  | orders_update i => after (appRouter.orders.update i)
  | orders_delete i => after (appRouter.orders.delete i)
  | orderItems_create i => after (appRouter.orderItems.create i)
  | orderItems_getAll => after appRouter.orderItems.getAll
  | orderItems_getById i => after (appRouter.orderItems.getById i)
  | orderItems_getByOrderId i => after (appRouter.orderItems.getByOrderId i)
  | orderItems_update i => after (appRouter.orderItems.update i)
  | orderItems_delete i => after (appRouter.orderItems.delete i)
  end.

(** The stores the server can be in when every call comes in through
    the router, with the clock reading of the latest call. *)
Inductive served (is_email : string -> bool) : Date -> DB -> Prop :=
  | served_init t : served is_email t empty_db
  | served_call t now db c :
      served is_email t db -> t <= now ->
      served is_email now (serve is_email c now db).

(** ** Stored records and the schemas *)

(** The refinements the create schemas put on the fields of a record. *)
Definition valid_user (is_email : string -> bool) (user : User.t) : Prop :=
  User.name user <> "" /\ is_email (User.email user) = true.

Definition valid_category (category : Category.t) : Prop :=
  Category.name category <> "".

Definition valid_product (product : Product.t) : Prop :=
  Product.name product <> "" /\
  is_positive (Product.price product) = true /\
  0 <= Product.stock_quantity product.

Definition valid_order (order : Order.t) : Prop :=
  is_nonnegative (Order.total_amount order) = true.

Definition valid_order_item (item : OrderItem.t) : Prop :=
  0 < OrderItem.quantity item /\
  is_positive (OrderItem.unit_price item) = true /\
  is_nonnegative (OrderItem.subtotal item) = true.

(** Every stored record, as the handlers return it, meets them. *)
Definition listings_valid (is_email : string -> bool) (db : DB) : Prop :=
  (forall r, r ∈ rows (users db) -> valid_user is_email r) /\
  (forall r, r ∈ rows (categories db) -> valid_category r) /\
  (forall r, r ∈ rows (products db) -> valid_product (product_of_row r)) /\
  (forall r, r ∈ rows (orders db) -> valid_order (order_of_row r)) /\
  (forall r, r ∈ rows (order_items db) ->
     valid_order_item (order_item_of_row r)).

(** An address check for the examples: the text has an at sign. *)
Fixpoint has_at_sign (s : string) : bool :=
  match s with
  | EmptyString => false
  | String c s' => if Ascii.eqb c "@" then true else has_at_sign s'
  end.

(** * The management components (client) *)

(** A component is the record of the values of its [useState] cells.
    An event handler of the component is a function from that record to
    a handler that runs against the server and resolves with the record
    after the state updates the event handler made; the [trpc] calls go
    through the procedures of the router, and the transport hands
    inputs and results over as they are.  Events are handled one at a
    time, each on the state the one before it left.  What touches no
    state cell ([e.preventDefault()], the rendering) is left out. *)

(** [try { body } catch (error) { console.error(...) }] around the
    calls of an event handler: when a call rejects, the state updates
    that come after it are skipped, the error goes to the console, and
    the component is left in the state [st] that it had before the
    call. *)
Definition catch_log {S} (st : S) (body : Handler S) : Handler S :=
  fun now db =>
    match body now db with
    | (Ok st', db') => (Ok st', db')
    | (Throw _, db') => (Ok st, db')
    end.

(** [prev.map(e => e.id === updated.id ? updated : e)] *)
Definition replace_by_id {E} (key : E -> Z) (updated : E) (prev : list E)
  : list E :=
  (fun e => if decide (key e = key updated) then updated else e) <$> prev.

(** [prev.filter(e => e.id !== id)] *)
Definition remove_by_id {E} (key : E -> Z) (id : Z) (prev : list E) : list E :=
  filter (fun e => key e <> id) prev.

(** [list.find(e => e.id === id)] *)
Definition find_by_id {E} (key : E -> Z) (id : Z) (records : list E)
  : option E :=
  List.find (fun e => key e =? id) records.

(** The text of a status, as the enum of schema.ts has it. *)
Definition status_text (status : OrderStatus) : string :=
  match status with
  | status_pending => "pending"
  | status_processing => "processing"
  | status_shipped => "shipped"
  | status_delivered => "delivered"
  | status_cancelled => "cancelled"
  end.

(** ** UserManagement.tsx *)

Module UserManagement.

Record State := mk {
  users : list User.t;
  isLoading : bool;
  editingUser : option User.t;
  formData : CreateUserInput.t }.

(** The form as it is first shown and after a reset. *)
Definition blank_form : CreateUserInput.t :=
  CreateUserInput.mk "" "" (Some role_user) (Some true).

Definition loadUsers (st : State) : Handler State :=
  catch_log st (
    result ← appRouter.users.getAll;
    mret (mk result (isLoading st) (editingUser st) (formData st))).

(** [{ id: editingUser.id, ...formData }] *)
Definition updateData (editingUser : User.t) (formData : CreateUserInput.t)
  : UpdateUserInput.t := {|
  UpdateUserInput.id := User.id editingUser;
  UpdateUserInput.name := Some (CreateUserInput.name formData);
  UpdateUserInput.email := Some (CreateUserInput.email formData);
  UpdateUserInput.role := CreateUserInput.role formData;
  UpdateUserInput.is_active := CreateUserInput.is_active formData |}.

Definition handleSubmit (is_email : string -> bool) (st : State)
  : Handler State :=
  let st := mk (users st) true (editingUser st) (formData st) in
  st ← catch_log st (
    match editingUser st with
    | Some editingUser =>
        updatedUser ← appRouter.users.update is_email
                        (updateData editingUser (formData st));
        mret (mk (replace_by_id User.id updatedUser (users st))
                (isLoading st) None blank_form)
    | None =>
        newUser ← appRouter.users.create is_email (formData st);
        mret (mk (users st ++ [newUser])
                (isLoading st) (editingUser st) blank_form)
    end);
  mret (mk (users st) false (editingUser st) (formData st)).

Definition handleEdit (user : User.t) (st : State) : State :=
  mk (users st) (isLoading st) (Some user)
    (CreateUserInput.mk (User.name user) (User.email user)
       (Some (User.role user)) (Some (User.is_active user))).

Definition handleDelete (userId : Z) (st : State) : Handler State :=
  catch_log st (
    _ ← appRouter.users.delete (DeleteInput.mk userId);
    mret (mk (remove_by_id User.id userId (users st))
            (isLoading st) (editingUser st) (formData st))).

End UserManagement.

(** ** CategoryManagement.tsx *)

Module CategoryManagement.

Record State := mk {
  categories : list Category.t;
  isLoading : bool;
  editingCategory : option Category.t;
  formData : CreateCategoryInput.t }.

Definition blank_form : CreateCategoryInput.t :=
  CreateCategoryInput.mk "" (Some None) (Some true).

Definition loadCategories (st : State) : Handler State :=
  catch_log st (
    result ← appRouter.categories.getAll;
    mret (mk result (isLoading st) (editingCategory st) (formData st))).

Definition updateData (editingCategory : Category.t)
    (formData : CreateCategoryInput.t) : UpdateCategoryInput.t := {|
  UpdateCategoryInput.id := Category.id editingCategory;
  UpdateCategoryInput.name := Some (CreateCategoryInput.name formData);
  UpdateCategoryInput.description := CreateCategoryInput.description formData;
  UpdateCategoryInput.is_active := CreateCategoryInput.is_active formData |}.

Definition handleSubmit (st : State) : Handler State :=
  let st := mk (categories st) true (editingCategory st) (formData st) in
  st ← catch_log st (
    match editingCategory st with
    | Some editingCategory =>
        updatedCategory ← appRouter.categories.update
                            (updateData editingCategory (formData st));
        mret (mk (replace_by_id Category.id updatedCategory (categories st))
                (isLoading st) None blank_form)
    | None =>
        newCategory ← appRouter.categories.create (formData st);
        mret (mk (categories st ++ [newCategory])
                (isLoading st) (editingCategory st) blank_form)
    end);
  mret (mk (categories st) false (editingCategory st) (formData st)).

Definition handleEdit (category : Category.t) (st : State) : State :=
  mk (categories st) (isLoading st) (Some category)
    (CreateCategoryInput.mk (Category.name category)
       (Some (Category.description category))
       (Some (Category.is_active category))).

Definition handleDelete (categoryId : Z) (st : State) : Handler State :=
  catch_log st (
    _ ← appRouter.categories.delete (DeleteInput.mk categoryId);
    mret (mk (remove_by_id Category.id categoryId (categories st))
            (isLoading st) (editingCategory st) (formData st))).

End CategoryManagement.

(** ** ProductManagement.tsx *)

Module ProductManagement.

Record State := mk {
  products : list Product.t;
  categories : list Category.t;
  isLoading : bool;
  editingProduct : option Product.t;
  formData : CreateProductInput.t }.

Definition blank_form : CreateProductInput.t :=
  CreateProductInput.mk "" (Some None) (parseFloat "0") (Some 0) (Some None)
    (Some true).

Definition loadProducts (st : State) : Handler State :=
  catch_log st (
    result ← appRouter.products.getAll;
    mret (mk result (categories st) (isLoading st) (editingProduct st)
            (formData st))).

(** [setCategories(result.filter(cat => cat.is_active))] *)
Definition loadCategories (st : State) : Handler State :=
  catch_log st (
    result ← appRouter.categories.getAll;
    mret (mk (products st)
            (filter (fun cat => Category.is_active cat = true) result)
            (isLoading st) (editingProduct st) (formData st))).

Definition updateData (editingProduct : Product.t)
    (formData : CreateProductInput.t) : UpdateProductInput.t := {|
  UpdateProductInput.id := Product.id editingProduct;
  UpdateProductInput.name := Some (CreateProductInput.name formData);
  UpdateProductInput.description := CreateProductInput.description formData;
  UpdateProductInput.price := Some (CreateProductInput.price formData);
  UpdateProductInput.stock_quantity :=
    CreateProductInput.stock_quantity formData;
  UpdateProductInput.category_id := CreateProductInput.category_id formData;
  UpdateProductInput.is_active := CreateProductInput.is_active formData |}.

Definition handleSubmit (st : State) : Handler State :=
  let st :=
    mk (products st) (categories st) true (editingProduct st) (formData st) in
  st ← catch_log st (
    match editingProduct st with
    | Some editingProduct =>
        updatedProduct ← appRouter.products.update
                           (updateData editingProduct (formData st));
        mret (mk (replace_by_id Product.id updatedProduct (products st))
                (categories st) (isLoading st) None blank_form)
    | None =>
        newProduct ← appRouter.products.create (formData st);
        mret (mk (products st ++ [newProduct])
                (categories st) (isLoading st) (editingProduct st) blank_form)
    end);
  mret (mk (products st) (categories st) false (editingProduct st)
          (formData st)).

Definition handleEdit (product : Product.t) (st : State) : State :=
  mk (products st) (categories st) (isLoading st) (Some product)
    (CreateProductInput.mk (Product.name product)
       (Some (Product.description product))
       (Product.price product)
       (Some (Product.stock_quantity product))
       (Some (Product.category_id product))
       (Some (Product.is_active product))).

Definition handleDelete (productId : Z) (st : State) : Handler State :=
  catch_log st (
    _ ← appRouter.products.delete (DeleteInput.mk productId);
    mret (mk (remove_by_id Product.id productId (products st))
            (categories st) (isLoading st) (editingProduct st) (formData st))).

(** [if (!categoryId) return 'Uncategorized'], where [null] and [0] are
    falsy. *)
Definition getCategoryName (st : State) (categoryId : option Z) : string :=
  if negb (truthy categoryId) then "Uncategorized"
  else
    match categoryId with
    | Some categoryId =>
        match find_by_id Category.id categoryId (categories st) with
        | Some category => Category.name category
        | None => "Unknown Category"
        end
    | None => "Uncategorized"
    end.

End ProductManagement.

(** ** OrderManagement.tsx *)

Module OrderManagement.

Record State := mk {
  orders : list Order.t;
  users : list User.t;
  isLoading : bool;
  editingOrder : option Order.t;
  formData : CreateOrderInput.t }.

Definition blank_form : CreateOrderInput.t :=
  CreateOrderInput.mk 0 (Some status_pending) (parseFloat "0") (Some None).

Definition loadOrders (st : State) : Handler State :=
  catch_log st (
    result ← appRouter.orders.getAll;
    mret (mk result (users st) (isLoading st) (editingOrder st) (formData st))).

(** [setUsers(result.filter(user => user.is_active))] *)
Definition loadUsers (st : State) : Handler State :=
  catch_log st (
    result ← appRouter.users.getAll;
    mret (mk (orders st)
            (filter (fun user => User.is_active user = true) result)
            (isLoading st) (editingOrder st) (formData st))).

Definition updateData (editingOrder : Order.t) (formData : CreateOrderInput.t)
  : UpdateOrderInput.t := {|
  UpdateOrderInput.id := Order.id editingOrder;
  UpdateOrderInput.user_id := Some (CreateOrderInput.user_id formData);
  UpdateOrderInput.status := CreateOrderInput.status formData;
  UpdateOrderInput.total_amount :=
    Some (CreateOrderInput.total_amount formData);
  UpdateOrderInput.notes := CreateOrderInput.notes formData |}.

Definition handleSubmit (st : State) : Handler State :=
  let st := mk (orders st) (users st) true (editingOrder st) (formData st) in
  st ← catch_log st (
    match editingOrder st with
    | Some editingOrder =>
        updatedOrder ← appRouter.orders.update
                         (updateData editingOrder (formData st));
        mret (mk (replace_by_id Order.id updatedOrder (orders st))
                (users st) (isLoading st) None blank_form)
    | None =>
        newOrder ← appRouter.orders.create (formData st);
        mret (mk (orders st ++ [newOrder])
                (users st) (isLoading st) (editingOrder st) blank_form)
    end);
  mret (mk (orders st) (users st) false (editingOrder st) (formData st)).

Definition handleEdit (order : Order.t) (st : State) : State :=
  mk (orders st) (users st) (isLoading st) (Some order)
    (CreateOrderInput.mk (Order.user_id order) (Some (Order.status order))
       (Order.total_amount order) (Some (Order.notes order))).

Definition handleDelete (orderId : Z) (st : State) : Handler State :=
  catch_log st (
    _ ← appRouter.orders.delete (DeleteInput.mk orderId);
    mret (mk (remove_by_id Order.id orderId (orders st))
            (users st) (isLoading st) (editingOrder st) (formData st))).

Definition getUserName (st : State) (userId : Z) : string :=
  match find_by_id User.id userId (users st) with
  | Some user => User.name user
  | None => "Unknown User"
  end.

End OrderManagement.

(** ** OrderItemManagement.tsx *)

(** The effect that recomputes [subtotal] from [quantity] and
    [unit_price] whenever the form changes, and [handleProductChange],
    only write to [formData]; below, [formData] is whatever the form
    holds when an event arrives. *)

Module OrderItemManagement.

Record State := mk {
  orderItems : list OrderItem.t;
  orders : list Order.t;
  products : list Product.t;
  isLoading : bool;
  editingOrderItem : option OrderItem.t;
  formData : CreateOrderItemInput.t }.

Definition blank_form : CreateOrderItemInput.t :=
  CreateOrderItemInput.mk 0 0 1 (parseFloat "0") (parseFloat "0").

Definition loadOrderItems (st : State) : Handler State :=
  catch_log st (
    result ← appRouter.orderItems.getAll;
    mret (mk result (orders st) (products st) (isLoading st)
            (editingOrderItem st) (formData st))).

Definition loadOrders (st : State) : Handler State :=
  catch_log st (
    result ← appRouter.orders.getAll;
    mret (mk (orderItems st) result (products st) (isLoading st)
            (editingOrderItem st) (formData st))).

(** [setProducts(result.filter(product => product.is_active))] *)
Definition loadProducts (st : State) : Handler State :=
  catch_log st (
    result ← appRouter.products.getAll;
    mret (mk (orderItems st) (orders st)
            (filter (fun product => Product.is_active product = true) result)
            (isLoading st) (editingOrderItem st) (formData st))).

Definition updateData (editingOrderItem : OrderItem.t)
    (formData : CreateOrderItemInput.t) : UpdateOrderItemInput.t := {|
  UpdateOrderItemInput.id := OrderItem.id editingOrderItem;
  UpdateOrderItemInput.order_id :=
    Some (CreateOrderItemInput.order_id formData);
  UpdateOrderItemInput.product_id :=
    Some (CreateOrderItemInput.product_id formData);
  UpdateOrderItemInput.quantity :=
    Some (CreateOrderItemInput.quantity formData);
  UpdateOrderItemInput.unit_price :=
    Some (CreateOrderItemInput.unit_price formData);
  UpdateOrderItemInput.subtotal :=
    Some (CreateOrderItemInput.subtotal formData) |}.

Definition handleSubmit (st : State) : Handler State :=
  let st :=
    mk (orderItems st) (orders st) (products st) true (editingOrderItem st)
      (formData st) in
  st ← catch_log st (
    match editingOrderItem st with
    | Some editingOrderItem =>
        updatedOrderItem ← appRouter.orderItems.update
                             (updateData editingOrderItem (formData st));
        mret (mk (replace_by_id OrderItem.id updatedOrderItem (orderItems st))
                (orders st) (products st) (isLoading st) None blank_form)
    | None =>
        newOrderItem ← appRouter.orderItems.create (formData st);
        mret (mk (orderItems st ++ [newOrderItem])
                (orders st) (products st) (isLoading st)
                (editingOrderItem st) blank_form)
    end);
  mret (mk (orderItems st) (orders st) (products st) false
          (editingOrderItem st) (formData st)).

Definition handleDelete (orderItemId : Z) (st : State) : Handler State :=
  catch_log st (
    _ ← appRouter.orderItems.delete (DeleteInput.mk orderItemId);
    mret (mk (remove_by_id OrderItem.id orderItemId (orderItems st))
            (orders st) (products st) (isLoading st) (editingOrderItem st)
            (formData st))).

(** [`Order #${order.id} (${order.status})`] *)
Definition getOrderInfo (st : State) (orderId : Z) : string :=
  match find_by_id Order.id orderId (orders st) with
  | Some order =>
      "Order #" +:+ pretty (Order.id order) +:+ " ("
      +:+ status_text (Order.status order) +:+ ")"
  | None => "Unknown Order"
  end.

Definition getProductName (st : State) (productId : Z) : string :=
  match find_by_id Product.id productId (products st) with
  | Some product => Product.name product
  | None => "Unknown Product"
  end.

End OrderItemManagement.

(** ** The list a component shows and the store *)

(** An event handler keeps the list [list_of] of its component in step
    with what [getAll] returns: on every store the server can reach, if
    the list has the records [getAll] returns now, then the event
    handler resolves, and the list it leaves has the records [getAll]
    returns from the store it leaves ([≡ₚ] compares two lists up to the
    order of their elements). *)
Definition stays_in_sync {S E} (list_of : S -> list E)
    (getAll : Handler (list E)) (event : S -> Handler S) : Prop :=
  forall (t now : Date) (db : DB) (st : S) (all : list E),
    reachable t db ->
    (getAll now db).1 = Ok all ->
    list_of st ≡ₚ all ->
    exists (st' : S) (all' : list E),
      (event st now db).1 = Ok st' /\
      (getAll now (after (event st) now db)).1 = Ok all' /\
      list_of st' ≡ₚ all'.

(** ** Saving a form that was not changed *)

(** A record whose [updated_at] is [now] and whose other fields are
    those of the given record. *)
Definition touched_user (now : Date) (user : User.t) : User.t :=
  User.mk (User.id user) (User.name user) (User.email user) (User.role user)
    (User.is_active user) (User.created_at user) now.

Definition touched_category (now : Date) (category : Category.t)
  : Category.t :=
  Category.mk (Category.id category) (Category.name category)
    (Category.description category) (Category.is_active category)
    (Category.created_at category) now.

Definition touched_product (now : Date) (product : Product.t) : Product.t :=
  Product.mk (Product.id product) (Product.name product)
    (Product.description product) (Product.price product)
    (Product.stock_quantity product) (Product.category_id product)
    (Product.is_active product) (Product.created_at product) now.

Definition touched_order (now : Date) (order : Order.t) : Order.t :=
  Order.mk (Order.id order) (Order.user_id order) (Order.status order)
    (Order.total_amount order) (Order.notes order) (Order.created_at order)
    now.

(** ** Example states *)

(** The lists of the components after loading from the shop store; the
    user form holds a new user and the order-item form a new item. *)
Definition user_list_of_shop : UserManagement.State :=
  UserManagement.mk
    [User.mk 1 "Alice" "alice@example.com" role_user true 10 10] false None
    (CreateUserInput.mk "Bob" "bob@example.com" (Some role_guest) (Some true)).

Definition order_list_of_shop : OrderManagement.State :=
  OrderManagement.mk
    [Order.mk 1 1 status_pending (parseFloat "39.98") None 40 40]
    [User.mk 1 "Alice" "alice@example.com" role_user true 10 10] false None
    OrderManagement.blank_form.

(** The order list with a form filled in for a user nobody has. *)
Definition order_form_for_nobody : OrderManagement.State :=
  OrderManagement.mk
    [Order.mk 1 1 status_pending (parseFloat "39.98") None 40 40]
    [User.mk 1 "Alice" "alice@example.com" role_user true 10 10] false None
    order_for_nobody.

Definition order_item_list_of_shop : OrderItemManagement.State :=
  OrderItemManagement.mk
    [OrderItem.mk 1 1 1 2 (parseFloat "19.99") (parseFloat "39.98") 50]
    [Order.mk 1 1 status_pending (parseFloat "39.98") None 40 40]
    [Product.mk 1 "Novel" None (parseFloat "19.99") 0 None true 30 30]
    false None
    (CreateOrderItemInput.mk 1 1 1 (parseFloat "19.99") (parseFloat "19.99")).

Definition category_list_of_shop : CategoryManagement.State :=
  CategoryManagement.mk [Category.mk 1 "Books" None true 20 20] false None
    CategoryManagement.blank_form.

Definition product_list_of_shop : ProductManagement.State :=
  ProductManagement.mk
    [Product.mk 1 "Novel" None (parseFloat "19.99") 0 None true 30 30]
    [Category.mk 1 "Books" None true 20 20] false None
    ProductManagement.blank_form.

(** The shop after its category was deactivated, and the product
    list after loading the categories from it. *)
Definition close_books : UpdateCategoryInput.t :=
  UpdateCategoryInput.mk 1 None None (Some false).

Definition shop_with_books_closed : DB :=
  after (updateCategory close_books) 60 shop.

Definition product_list_with_books_closed : ProductManagement.State :=
  ProductManagement.mk
    [Product.mk 1 "Novel" None (parseFloat "19.99") 0 None true 30 30]
    [] false None ProductManagement.blank_form.

(** * Lemmas *)

(** ** Numbers: parsing what was printed *)

Module JsNumberFacts.
Import JsNumber.

(** *** Digits *)

Lemma char_digit_char d : char_digit (digit_char d) = Some d.
Proof. by destruct d. Qed.

Lemma value_digit_value z : 0 <= z < 10 -> digit_value (value_digit z) = z.
Proof.
  intros Hz.
  assert (z = 0 \/ z = 1 \/ z = 2 \/ z = 3 \/ z = 4 \/ z = 5 \/ z = 6 \/
          z = 7 \/ z = 8 \/ z = 9) as Hcases by lia.
  destruct_or!; by subst.
Qed.

Lemma digits_value_app ds ds' :
  digits_value (ds ++ ds')
  = digits_value ds * 10 ^ Z.of_nat (length ds') + digits_value ds'.
Proof.
  induction ds' as [|d ds' IH] using rev_ind.
  - rewrite app_nil_r. change (digits_value []) with 0.
    change (Z.of_nat (length (@nil digit))) with 0. rewrite Z.pow_0_r. lia.
  - rewrite app_assoc, !digits_value_snoc, IH, length_app. simpl.
    replace (Z.of_nat (length ds' + 1)) with (Z.of_nat (length ds') + 1)
      by lia.
    rewrite Z.pow_add_r by lia. lia.
Qed.

Lemma digits_value_cons d ds :
  digits_value (d :: ds)
  = digit_value d * 10 ^ Z.of_nat (length ds) + digits_value ds.
Proof.
  change (d :: ds) with ([d] ++ ds). rewrite digits_value_app.
  unfold digits_value at 1. simpl. lia.
Qed.

Lemma digits_value_zeros n : digits_value (zeros n) = 0.
Proof.
  unfold zeros. induction (Z.to_nat n) as [|k IH]; [done|].
  simpl replicate. rewrite digits_value_cons, IH. simpl. lia.
Qed.

Lemma length_zeros n : 0 <= n -> Z.of_nat (length (zeros n)) = n.
Proof. intros Hn. unfold zeros. rewrite length_replicate. lia. Qed.

Lemma digits_go_value fuel z acc :
  0 <= z < 2 ^ Z.of_nat fuel ->
  digits_value (digits_go fuel z acc)
  = z * 10 ^ Z.of_nat (length acc) + digits_value acc.
Proof.
  revert z acc. induction fuel as [|fuel IH]; intros z acc Hz.
  - simpl in *. assert (z = 0) as -> by lia. lia.
  - simpl digits_go. destruct (Z.ltb_spec z 10) as [Hlt|Hge].
    + by rewrite digits_value_cons, value_digit_value by lia.
    + rewrite IH.
      * rewrite digits_value_cons, value_digit_value
          by (apply Z.mod_pos_bound; lia).
        simpl length.
        replace (Z.of_nat (S (length acc))) with (Z.of_nat (length acc) + 1)
          by lia.
        rewrite Z.pow_add_r by lia.
        pose proof (Z.div_mod z 10 ltac:(lia)). nia.
      * replace (Z.of_nat (S fuel)) with (Z.of_nat fuel + 1) in Hz by lia.
        rewrite Z.pow_add_r in Hz by lia.
        split; [apply Z.div_pos; lia|].
        apply Z.div_lt_upper_bound; lia.
Qed.

Lemma value_digits_value z : 0 <= z -> digits_value (value_digits z) = z.
Proof.
  intros Hz. unfold value_digits. rewrite digits_go_value.
  { change (digits_value []) with 0.
    change (Z.of_nat (length (@nil digit))) with 0. rewrite Z.pow_0_r. lia. }
  split; [done|].
  rewrite Nat2Z.inj_succ, Z2Nat.id by apply Z.log2_nonneg.
  destruct (decide (z = 0)) as [->|Hz0]; [done|].
  apply Z.log2_spec. lia.
Qed.

Lemma digits_go_nonempty fuel z acc : acc <> [] -> digits_go fuel z acc <> [].
Proof.
  revert z acc. induction fuel as [|fuel IH]; intros z acc Hacc; [done|].
  simpl. case_match; [done|]. by apply IH.
Qed.

Lemma value_digits_nonempty z : value_digits z <> [].
Proof.
  unfold value_digits. simpl. case_match; [done|]. by apply digits_go_nonempty.
Qed.

(** *** Reading what was written *)

Lemma read_digits_print ds k :
  no_digit_ahead k -> read_digits (digits_to_string ds k) = (ds, k).
Proof.
  intros Hk. induction ds as [|d ds IH]; simpl; [done|].
  by rewrite char_digit_char, IH.
Qed.

Lemma no_digit_ahead_exponent e : no_digit_ahead (exponent_text e).
Proof. done. Qed.

Lemma read_exponent_print e : read_exponent (exponent_text e) = e.
Proof.
  unfold exponent_text, read_exponent. simpl.
  pose proof (value_digits_nonempty (Z.abs e)) as Hne.
  pose proof (value_digits_value (Z.abs e) (Z.abs_nonneg e)) as Hval.
  destruct (Z.ltb_spec e 0); simpl;
    rewrite read_digits_print by done; simpl;
    destruct (value_digits (Z.abs e)); try done; lia.
Qed.

Lemma read_fraction_exponent e :
  read_fraction (exponent_text e) = ([], exponent_text e).
Proof. done. Qed.

Lemma nearest_decimal_fraction neg s d s' d' :
  fraction s d = fraction s' d' ->
  nearest_decimal neg s d = nearest_decimal neg s' d'.
Proof. unfold nearest_decimal. by intros ->. Qed.

Lemma take_nonempty {A} (n : nat) (l : list A) :
  (0 < n)%nat -> l <> [] -> take n l <> [].
Proof. destruct n, l; simpl; (done || lia). Qed.

(** Reading the text of a decimal gives the double nearest to it. *)
Lemma read_decimal_format neg ds n :
  ds <> [] ->
  read_decimal neg (format ds n)
  = nearest_decimal neg (digits_value ds) (n - Z.of_nat (length ds)).
Proof.
  intros Hds. unfold format, read_decimal.
  destruct ((-6 <? n) && (n <=? 21)) eqn:Hplain.
  - destruct (Z.leb_spec (Z.of_nat (length ds)) n) as [Hkn|Hkn].
    + rewrite read_digits_print by done. simpl read_fraction. cbv iota beta.
      rewrite bool_decide_eq_false_2 by (by destruct ds).
      rewrite app_nil_r, digits_value_app, digits_value_zeros, length_zeros
        by lia.
      apply nearest_decimal_fraction. unfold fraction. simpl.
      destruct (Z.leb_spec 0 (n - Z.of_nat (length ds))); [|lia].
      f_equal. lia.
    + destruct (Z.ltb_spec 0 n) as [Hn|Hn].
      * rewrite read_digits_print by done. simpl read_fraction.
        rewrite read_digits_print by done. cbv iota beta.
        rewrite take_drop, bool_decide_eq_false_2, length_drop by done.
        change (read_exponent "") with 0. f_equal. lia.
      * simpl. rewrite read_digits_print by done. cbv iota beta.
        change (D0 :: zeros (- n) ++ ds) with ([D0] ++ (zeros (- n) ++ ds)).
        rewrite !digits_value_app, digits_value_zeros, length_app,
          Nat2Z.inj_add, length_zeros by lia.
        change (digits_value [D0]) with 0. change (read_exponent "") with 0.
        f_equal; lia.
  - destruct ds as [|d ds]; [done|]. destruct ds as [|d' ds].
    + change (String (digit_char d) ?k) with (digits_to_string [d] k).
      rewrite read_digits_print by apply no_digit_ahead_exponent.
      rewrite read_fraction_exponent, read_exponent_print.
      cbv iota beta. rewrite bool_decide_eq_false_2 by done.
      rewrite app_nil_r. f_equal. simpl length. lia.
    + change (String (digit_char d) ?k) with (digits_to_string [d] k).
      rewrite read_digits_print by done.
      change (read_fraction (String "." ?k)) with (read_digits k).
      rewrite read_digits_print by apply no_digit_ahead_exponent.
      rewrite read_exponent_print.
      cbv iota beta. rewrite bool_decide_eq_false_2 by done.
      f_equal. simpl length. lia.
Qed.

(** *** Rounding a double gives the double *)

Lemma log2_52 m : 2 ^ 52 <= m < 2 ^ 53 -> Z.log2 m = 52.
Proof. intros Hm. apply Z.log2_unique; [done|]. exact Hm. Qed.

(** The logarithm of a quotient that is [m * 2^e], from those of its
    parts. *)
Lemma log2_quotient p q m e :
  0 < p -> 0 < q -> 0 < m ->
  (if 0 <=? e then p = m * 2 ^ e * q else p * 2 ^ (- e) = m * q) ->
  Z.log2 p <= Z.log2 m + e + Z.log2 q + 1.
Proof.
  intros Hp Hq Hm Heq.
  destruct (Z.log2_spec p Hp) as [Hp1 _].
  destruct (Z.log2_spec q Hq) as [_ Hq2].
  destruct (Z.log2_spec m Hm) as [_ Hm2].
  pose proof (Z.log2_nonneg p). pose proof (Z.log2_nonneg q).
  pose proof (Z.log2_nonneg m).
  assert (0 < 2 ^ Z.succ (Z.log2 q)) by (apply Z.pow_pos_nonneg; lia).
  assert (0 < 2 ^ Z.succ (Z.log2 m)) by (apply Z.pow_pos_nonneg; lia).
  assert (m * q < 2 ^ Z.succ (Z.log2 m) * 2 ^ Z.succ (Z.log2 q)) as Hmq
    by nia.
  rewrite <- Z.pow_add_r in Hmq by lia.
  destruct (Z.leb_spec 0 e) as [He|He].
  - assert (0 < 2 ^ e) by (apply Z.pow_pos_nonneg; lia).
    assert (2 ^ Z.log2 p < 2 ^ (Z.succ (Z.log2 m) + Z.succ (Z.log2 q)) * 2 ^ e)
      as Hlt by nia.
    rewrite <- Z.pow_add_r in Hlt by lia.
    apply Z.pow_lt_mono_r_iff in Hlt; lia.
  - assert (0 < 2 ^ (- e)) by (apply Z.pow_pos_nonneg; lia).
    assert (2 ^ Z.log2 p * 2 ^ (- e)
            < 2 ^ (Z.succ (Z.log2 m) + Z.succ (Z.log2 q))) as Hlt by nia.
    rewrite <- Z.pow_add_r in Hlt by lia.
    apply Z.pow_lt_mono_r_iff in Hlt; lia.
Qed.

(** A quotient that is a double is rounded to that double. *)
Lemma nearest_exact neg p q m e :
  0 < q -> 0 < m -> canonical (RFin neg m e) ->
  (if 0 <=? e then p = m * 2 ^ e * q else p * 2 ^ (- e) = m * q) ->
  nearest neg p q = RFin neg m e.
Proof.
  intros Hq Hm Hcan Heq.
  apply canonical_finite in Hcan as (Hm53 & He & Hnorm); [|lia].
  assert (0 < p) as Hp.
  { destruct (Z.leb_spec 0 e).
    - assert (0 < 2 ^ e) by (apply Z.pow_pos_nonneg; lia). nia.
    - assert (0 < 2 ^ (- e)) by (apply Z.pow_pos_nonneg; lia). nia. }
  pose proof (log2_quotient p q m e Hp Hq Hm Heq) as Hlog.
  assert (Z.log2 m <= 52) as Hlm.
  { apply Z.lt_succ_r, Z.log2_lt_pow2; [done|]. exact (proj2 Hm53). }
  assert (Z.log2 m = 52 \/ e = emin) as Hlm'.
  { destruct Hnorm; [left|by right]. apply log2_52. lia. }
  unfold nearest. destruct (Z.eqb_spec p 0) as [|_]; [lia|].
  set (a := Z.max 0 (56 + Z.log2 q - Z.log2 p)).
  assert (3 <= e + a) as Hsh by lia.
  assert (0 <= a) as Ha by lia.
  assert (p * 2 ^ a = m * 2 ^ (e + a) * q) as Hscaled.
  { destruct (Z.leb_spec 0 e).
    - rewrite Heq, Z.pow_add_r by lia. lia.
    - replace a with (- e + (e + a)) at 1 by lia.
      rewrite Z.pow_add_r by lia. rewrite Z.mul_assoc, Heq. lia. }
  assert (0 < 2 ^ (e + a)) as Hpow by (apply Z.pow_pos_nonneg; lia).
  rewrite Hscaled, Z.div_mul, Z.mod_mul by lia.
  rewrite Z.log2_mul_pow2 by lia.
  replace (Z.max (e + a + Z.log2 m - 52 - a) emin) with e by lia.
  rewrite Z.div_mul, Z.mod_mul by lia.
  assert (0 < 2 ^ (e + a - 1)) by (apply Z.pow_pos_nonneg; lia).
  unfold round_even.
  destruct (Z.ltb_spec (2 ^ (e + a - 1)) 0); [lia|].
  destruct (Z.eqb_spec 0 (2 ^ (e + a - 1))); [lia|]. simpl.
  unfold pack.
  destruct (Z.eqb_spec m 0); [lia|].
  destruct (Z.eqb_spec m (2 ^ 53)); [lia|].
  destruct (Z.ltb_spec emax e); [lia|]. done.
Qed.

Lemma nearest_exact_decimal neg m e :
  0 < m -> canonical (RFin neg m e) ->
  nearest_decimal neg (exact_decimal m e).1 (exact_decimal m e).2
  = RFin neg m e.
Proof.
  intros Hm Hcan. unfold nearest_decimal, exact_decimal, fraction.
  destruct (Z.leb_spec 0 e) as [He|He]; simpl.
  - apply nearest_exact; [lia|done..|].
    destruct (Z.leb_spec 0 e); lia.
  - destruct (Z.leb_spec 0 e); [lia|].
    apply nearest_exact; [apply Z.pow_pos_nonneg; lia|done..|].
    destruct (Z.leb_spec 0 e); [lia|].
    change 10 with (5 * 2). rewrite Z.pow_mul_l. lia.
Qed.

(** The sign goes with whatever the magnitude rounds to. *)
Lemma nearest_sign neg p q m e :
  0 < m -> nearest false p q = RFin false m e ->
  nearest neg p q = RFin neg m e.
Proof.
  intros Hm. unfold nearest, pack, zero.
  repeat case_match; intros [= <- <-]; (done || lia).
Qed.

(** *** The shortest decimal reads back *)

Lemma strip_zeros_nonneg s d : 0 <= s -> 0 <= (strip_zeros s d).1.
Proof.
  unfold strip_zeros. generalize (Z.to_nat (Z.log2 s)) as fuel.
  intros fuel. revert s d. induction fuel as [|fuel IH]; intros s d Hs; [done|].
  simpl. case_match; [|done]. apply IH, Z.div_pos; lia.
Qed.

Lemma of_length_reads_back m e k c :
  0 < m -> of_length m e k = Some c ->
  0 <= c.1 /\ nearest_decimal false c.1 c.2 = RFin false m e.
Proof.
  intros Hm. unfold of_length.
  set (v := if 0 <=? e then (m * 2 ^ e, 1) else (m, 2 ^ (- e))).
  assert (0 < v.1 /\ 0 < v.2) as [Hp Hq].
  { unfold v. destruct (Z.leb_spec 0 e); simpl.
    - assert (0 < 2 ^ e) by (apply Z.pow_pos_nonneg; lia). nia.
    - split; [done|]. apply Z.pow_pos_nonneg; lia. }
  destruct v as [p q]. simpl in Hp, Hq.
  destruct (fraction p (k - decimal_exponent p q)) as [N d] eqn:Hf.
  destruct (fraction_bounds p _ N d ltac:(lia) Hf) as [HN Hd].
  assert (0 <= N / (d * q)) as Hlo by (apply Z.div_pos; nia).
  set (lo := strip_zeros (N / (d * q)) _).
  set (hi := strip_zeros (N / (d * q) + 1) _).
  assert (0 <= lo.1) by (by apply strip_zeros_nonneg).
  assert (0 <= hi.1) by (apply strip_zeros_nonneg; lia).
  destruct (reads_as m e lo) eqn:Hrlo, (reads_as m e hi) eqn:Hrhi;
    try apply bool_decide_eq_true in Hrlo;
    try apply bool_decide_eq_true in Hrhi;
    repeat case_match; intros [= <-]; done.
Qed.

Lemma shortest_reads_back m e :
  0 < m -> canonical (RFin false m e) ->
  0 <= (shortest m e).1 /\
  nearest_decimal false (shortest m e).1 (shortest m e).2 = RFin false m e.
Proof.
  intros Hm Hcan. unfold shortest.
  generalize 1 as k. generalize 17%nat as tries.
  induction tries as [|tries IH]; intros k; simpl.
  - split; [|by apply nearest_exact_decimal].
    unfold exact_decimal. destruct (Z.leb_spec 0 e); simpl.
    + assert (0 < 2 ^ e) by (apply Z.pow_pos_nonneg; lia). nia.
    + assert (0 < 5 ^ (- e)) by (apply Z.pow_pos_nonneg; lia). nia.
  - destruct (of_length m e k) as [c|] eqn:Hc; [|apply IH].
    by apply of_length_reads_back in Hc.
Qed.

(** *** Parsing what was printed *)

Lemma format_head ds n :
  ds <> [] -> exists d k, format ds n = String (digit_char d) k.
Proof.
  intros Hds. unfold format.
  destruct ((-6 <? n) && (n <=? 21)).
  - destruct (Z.leb_spec (Z.of_nat (length ds)) n).
    + destruct ds as [|d ds]; [done|]. simpl. eauto.
    + destruct (Z.ltb_spec 0 n).
      * destruct ds as [|d ds]; [done|].
        destruct (Z.to_nat n) eqn:Hn; [lia|]. simpl. eauto.
      * by exists D0, (String "." (digits_to_string (zeros (- n) ++ ds) "")).
  - destruct ds as [|d [|d' ds]]; [done|..]; eauto.
Qed.

Lemma raw_parseFloat_signed neg d k :
  raw_parseFloat (sign_text neg +:+ String (digit_char d) k)
  = read_decimal neg (String (digit_char d) k).
Proof. by destruct neg, d. Qed.

Lemma raw_parse_print r : canonical r -> raw_parseFloat (raw_toString r) = r.
Proof.
  destruct r as [|neg|neg m e]; [done|by destruct neg|].
  intros Hcan. unfold raw_toString.
  destruct (Z.eqb_spec m 0) as [->|Hm0].
  - unfold canonical, canonicalb in Hcan. simpl in Hcan.
    apply andb_true_iff in Hcan as [Hneg ->%Z.eqb_eq].
    by destruct neg.
  - pose proof Hcan as (Hm & _)%canonical_finite; [|done].
    assert (canonical (RFin false m e)) as Hcan'.
    { apply canonical_finite; [done|]. by apply canonical_finite in Hcan. } 
    destruct (shortest_reads_back m e ltac:(lia) Hcan') as [Hs Hread].
    destruct (shortest m e) as [s d]. simpl in Hs, Hread.
    pose proof (value_digits_nonempty s) as Hne.
    destruct (format_head (value_digits s)
                (Z.of_nat (length (value_digits s)) + d) Hne) as (c & k & Hk).
    rewrite Hk, raw_parseFloat_signed, <- Hk.
    rewrite read_decimal_format, value_digits_value by done.
    replace (Z.of_nat (length (value_digits s)) + d
             - Z.of_nat (length (value_digits s))) with d by lia.
    unfold nearest_decimal in *. destruct (fraction s d) as [p q].
    apply nearest_sign; [lia|done].
Qed.

(** Printing a number and parsing the text gives the number back. *)
Lemma parseFloat_toString (x : number) : parseFloat (toString x) = x.
Proof.
  apply dsig_eq. unfold parseFloat, toString. simpl.
  apply raw_parse_print. apply (proj2_dsig x).
Qed.

End JsNumberFacts.

(** ** Laws of the tables *)

Global Instance usersTable_lawful : LawfulTable usersTable.
Proof. split; intros; try destruct db; reflexivity. Qed.
Global Instance categoriesTable_lawful : LawfulTable categoriesTable.
Proof. split; intros; try destruct db; reflexivity. Qed.
Global Instance productsTable_lawful : LawfulTable productsTable.
Proof. split; intros; try destruct db; reflexivity. Qed.
Global Instance ordersTable_lawful : LawfulTable ordersTable.
Proof. split; intros; try destruct db; reflexivity. Qed.
Global Instance orderItemsTable_lawful : LawfulTable orderItemsTable.
Proof. split; intros; try destruct db; reflexivity. Qed.

(** ** Lists *)

Section list_lemmas.
Context {A : Type}.

Lemma filter_all (Q : A -> Prop) `{!forall a, Decision (Q a)} (l : list A) :
  (forall a, a ∈ l -> Q a) -> filter Q l = l.
Proof.
  induction l as [|a l IH]; intros Hall; [done|].
  rewrite filter_cons_True.
  - f_equal. apply IH. intros a' Ha'. apply Hall. apply elem_of_cons; auto.
  - apply Hall. apply elem_of_cons; auto.
Qed.

Lemma fmap_fixed (f : A -> A) (l : list A) :
  (forall a, a ∈ l -> f a = a) -> f <$> l = l.
Proof.
  induction l as [|a l IH]; intros Hall; [done|].
  rewrite fmap_cons, Hall by (apply elem_of_cons; auto).
  f_equal. apply IH. intros a' Ha'. apply Hall. apply elem_of_cons; auto.
Qed.

Lemma head_take_1 (l : list A) : head (take 1 l) = head l.
Proof. by destruct l. Qed.

End list_lemmas.

(** ** Rows with a key, across the writes *)

Section table_lemmas.
Context {R V P : Type} (tbl : PgTable R V P) `{!LawfulTable tbl}.
Implicit Types (t : Table R) (x y : Z) (r : R) (db : DB).

Lemma elem_of_stored r x db :
  r ∈ stored tbl x db <-> id_of tbl r = x /\ r ∈ rows (from tbl db).
Proof. unfold stored. by rewrite list_elem_of_filter. Qed.

Lemma stored_nil_iff x db : stored tbl x db = [] <-> ~ exists_row tbl x db.
Proof.
  split.
  - intros Hnil (r & Hin & Hid).
    assert (r ∈ stored tbl x db) as Hf by (by apply elem_of_stored).
    rewrite Hnil in Hf. by apply not_elem_of_nil in Hf.
  - intros Hno. destruct (stored tbl x db) as [|r l] eqn:Hst; [done|].
    exfalso. apply Hno. exists r.
    assert (r ∈ stored tbl x db) as Hf by (rewrite Hst; left).
    apply elem_of_stored in Hf. by destruct Hf.
Qed.

Lemma stored_exists x db : exists_row tbl x db -> stored tbl x db <> [].
Proof. intros Hex Hnil. by apply stored_nil_iff in Hnil. Qed.

Lemma stored_cons_exists x db r l :
  stored tbl x db = r :: l -> exists_row tbl x db.
Proof.
  intros Hst. exists r.
  assert (r ∈ stored tbl x db) as Hf by (rewrite Hst; left).
  apply elem_of_stored in Hf. by destruct Hf.
Qed.

Lemma lookup_id_Some x db r :
  lookup_id tbl x db = Some r <-> exists l, stored tbl x db = r :: l.
Proof. unfold lookup_id. apply head_Some. Qed.

Lemma lookup_id_elem_of x db r :
  lookup_id tbl x db = Some r -> r ∈ rows (from tbl db) /\ id_of tbl r = x.
Proof.
  intros [l Hst]%lookup_id_Some.
  assert (r ∈ stored tbl x db) as Hf by (rewrite Hst; left).
  apply elem_of_stored in Hf. by destruct Hf.
Qed.

Lemma lookup_id_None x db : lookup_id tbl x db = None <-> ~ exists_row tbl x db.
Proof. unfold lookup_id. by rewrite head_None, stored_nil_iff. Qed.

(** *** After a delete *)

Lemma stored_removed x db : stored tbl x (removed tbl x db) = [].
Proof.
  unfold stored, removed. rewrite from_into. simpl.
  induction (rows (from tbl db)) as [|r l IH]; [done|].
  rewrite filter_cons. destruct (decide (~ eq_id tbl x r)) as [Hn|Hy]; [|done].
  by rewrite filter_cons_False.
Qed.

Lemma stored_removed_ne x y db :
  y <> x -> stored tbl y (removed tbl x db) = stored tbl y db.
Proof.
  intros Hne. unfold stored, removed. rewrite from_into. simpl.
  induction (rows (from tbl db)) as [|r l IH]; [done|].
  rewrite (filter_cons (fun r => ~ eq_id tbl x r)).
  destruct (decide (~ eq_id tbl x r)) as [Hn|Hy].
  - rewrite !filter_cons. destruct (decide (eq_id tbl y r)); by rewrite IH.
  - rewrite filter_cons_False; [done|].
    apply dec_stable in Hy. unfold eq_id in *. congruence.
Qed.

Lemma removed_absent x db : ~ exists_row tbl x db -> removed tbl x db = db.
Proof.
  intros Hno. unfold removed, table_delete.
  rewrite filter_all.
  - transitivity (into tbl (from tbl db) db); [|apply into_from].
    f_equal. by destruct (from tbl db).
  - intros r Hin Hid. apply Hno. by exists r.
Qed.

Lemma lookup_removed x db : lookup_id tbl x (removed tbl x db) = None.
Proof. unfold lookup_id. by rewrite stored_removed. Qed.

(** *** After an update *)

Lemma stored_updated p x db :
  stored tbl x (updated tbl p x db) = set_values tbl p <$> stored tbl x db.
Proof.
  unfold stored, updated. rewrite from_into. simpl.
  induction (rows (from tbl db)) as [|r l IH]; [done|].
  rewrite fmap_cons, !filter_cons.
  destruct (decide (eq_id tbl x r)) as [Hy|Hn].
  - rewrite decide_True by (unfold eq_id in *; by rewrite id_of_set_values).
    by rewrite fmap_cons, IH.
  - by rewrite decide_False.
Qed.

Lemma stored_updated_ne p x y db :
  y <> x -> stored tbl y (updated tbl p x db) = stored tbl y db.
Proof.
  intros Hne. unfold stored, updated. rewrite from_into. simpl.
  induction (rows (from tbl db)) as [|r l IH]; [done|].
  rewrite fmap_cons, !filter_cons.
  destruct (decide (eq_id tbl x r)) as [Hy|Hn].
  - rewrite !decide_False; [done| |].
    + unfold eq_id in *. congruence.
    + unfold eq_id in *. rewrite id_of_set_values. congruence.
  - destruct (decide (eq_id tbl y r)); by rewrite IH.
Qed.

Lemma updated_absent p x db : ~ exists_row tbl x db -> updated tbl p x db = db.
Proof.
  intros Hno. unfold updated, table_update.
  rewrite fmap_fixed.
  - transitivity (into tbl (from tbl db) db); [|apply into_from].
    f_equal. by destruct (from tbl db).
  - intros r Hin. rewrite decide_False; [done|].
    intros Hid. apply Hno. by exists r.
Qed.

Lemma lookup_updated p x db :
  lookup_id tbl x (updated tbl p x db)
  = set_values tbl p <$> lookup_id tbl x db.
Proof.
  unfold lookup_id. rewrite stored_updated. by destruct (stored tbl x db).
Qed.

(** *** After an insert *)

Lemma stored_inserted v now x db :
  stored tbl x (inserted tbl v now db) =
  stored tbl x db ++
  (if decide (next_id (from tbl db) = x)
   then [new_row tbl (next_id (from tbl db)) now v] else []).
Proof.
  unfold stored, inserted. rewrite from_into. simpl.
  rewrite filter_app. f_equal.
  rewrite filter_cons, filter_nil.
  destruct (decide (next_id (from tbl db) = x)) as [E|E].
  - rewrite decide_True; [done|]. unfold eq_id. by rewrite id_of_new_row.
  - rewrite decide_False; [done|]. unfold eq_id. by rewrite id_of_new_row.
Qed.

Lemma stored_below x db :
  ids_below tbl db -> next_id (from tbl db) <= x -> stored tbl x db = [].
Proof.
  intros Hb Hx. apply stored_nil_iff.
  intros (r & Hin & Hid). apply Hb in Hin. lia.
Qed.

Lemma lookup_inserted v now db :
  ids_below tbl db ->
  lookup_id tbl (next_id (from tbl db)) (inserted tbl v now db)
  = Some (new_row tbl (next_id (from tbl db)) now v).
Proof.
  intros Hb. unfold lookup_id.
  rewrite stored_inserted, stored_below by (done || lia).
  by rewrite decide_True.
Qed.

Lemma rows_inserted v now db :
  rows (from tbl (inserted tbl v now db))
  = rows (from tbl db) ++ [new_row tbl (next_id (from tbl db)) now v].
Proof. unfold inserted. by rewrite from_into. Qed.

Lemma next_id_inserted v now db :
  next_id (from tbl (inserted tbl v now db)) = next_id (from tbl db) + 1.
Proof. unfold inserted. by rewrite from_into. Qed.

End table_lemmas.

Ltac unfold_handler :=
  unfold try_catch, verify_reference, db_select_all, db_select, db_select_id,
    db_select_id_limit, db_insert, db_update, db_delete, first_row, throw,
    new_Date, mbind, Handler_bind, mret, Handler_ret.

Ltac run := unfold_handler; simpl; rewrite ?andb_false_r; simpl.

(** Turn a hypothesis about the rows with a key into a fact about the
    query result the handler matches on. *)
Ltac absent H := apply stored_nil_iff in H.
Ltac present H :=
  let r := fresh "r" in
  let l := fresh "l" in
  let E := fresh "Hst" in
  apply stored_exists in H;
  match type of H with
  | stored ?tbl ?x ?db <> [] =>
      destruct (stored tbl x db) as [|r l] eqn:E; [done|]; clear H;
      rename E into H
  end.

Lemma getById_contract_intro {R V P E} (tbl : PgTable R V P)
    `{!LawfulTable tbl} (conv : R -> E) getById :
  (forall x now db,
     getById (GetByIdInput.mk x) now db
     = (Ok (conv <$> lookup_id tbl x db), db)) ->
  getById_contract tbl conv getById.
Proof.
  intros Hget x now db. rewrite Hget. split.
  - intros Hex. destruct (lookup_id tbl x db) as [r|] eqn:Hrow.
    + exists r. apply lookup_id_elem_of in Hrow as [Hin Hid]; done.
    + by apply lookup_id_None in Hrow.
  - intros Hno. apply (lookup_id_None tbl) in Hno. by rewrite Hno.
Qed.

Lemma delete_contract_intro {R V P} (tbl : PgTable R V P)
    `{!LawfulTable tbl} delete :
  (forall x now db,
     delete (DeleteInput.mk x) now db
     = (Ok (DeleteResult.mk (bool_decide (0 < length (stored tbl x db))%nat)),
        removed tbl x db)) ->
  delete_contract tbl delete.
Proof.
  intros Hdel x now db. rewrite Hdel. split.
  - intros Hex. split; [|by apply lookup_removed].
    present Hex. rewrite bool_decide_eq_true_2; [done|simpl; lia].
  - intros Hno. rewrite removed_absent by done.
    absent Hno. by rewrite Hno.
Qed.

(** ** The handlers, case by case *)

Lemma selects_id {R V P} (tbl : PgTable R V P) :
  selects_by_id tbl (fun x => db_select_id tbl x).
Proof. intros x now db. by left. Qed.

Lemma selects_id_limit_1 {R V P} (tbl : PgTable R V P) :
  selects_by_id tbl (fun x => db_select_id_limit tbl x 1).
Proof. intros x now db. by right. Qed.

Lemma verify_reference_ok {R V P} (tbl : PgTable R V P) `{!LawfulTable tbl}
    fk query message now db :
  selects_by_id tbl query -> reference_ok tbl fk db ->
  verify_reference fk query message now db = (Ok (), db).
Proof.
  intros Hquery Href. destruct fk as [x|]; [|done]. simpl in Href.
  present Href. unfold_handler.
  destruct (Hquery x now db) as [-> | ->]; by rewrite Href.
Qed.

Lemma verify_reference_missing {R V P} (tbl : PgTable R V P)
    `{!LawfulTable tbl} x query message now db :
  selects_by_id tbl query -> ~ exists_row tbl x db ->
  verify_reference (Some x) query message now db = (Throw (message x), db).
Proof.
  intros Hquery Hno. absent Hno. unfold_handler.
  destruct (Hquery x now db) as [-> | ->]; by rewrite Hno.
Qed.

Ltac reference_query := first [apply selects_id | apply selects_id_limit_1].

Lemma parse_default_text (text : string) (x : option number) :
  parseFloat (default text (toString <$> x)) = default (parseFloat text) x.
Proof. destruct x; [apply JsNumberFacts.parseFloat_toString | done]. Qed.

(** The update handlers on a store that has the target row and the rows
    the supplied foreign keys point at. *)

Lemma updateUser_found input now db prior :
  lookup_id usersTable (UpdateUserInput.id input) db = Some prior ->
  updateUser input now db
  = (Ok (merged_user input now prior),
     updated usersTable (updateUser_values input now)
       (UpdateUserInput.id input) db).
Proof.
  intros [l Hst]%lookup_id_Some. unfold updateUser, getUserById. run.
  rewrite Hst. simpl. by rewrite Hst.
Qed.

Lemma updateCategory_found input now db prior :
  lookup_id categoriesTable (UpdateCategoryInput.id input) db = Some prior ->
  updateCategory input now db
  = (Ok (merged_category input now prior),
     updated categoriesTable (updateCategory_values input now)
       (UpdateCategoryInput.id input) db).
Proof.
  intros [l Hst]%lookup_id_Some. unfold updateCategory. run.
  by rewrite Hst.
Qed.

Lemma updateProduct_found input now db prior :
  lookup_id productsTable (UpdateProductInput.id input) db = Some prior ->
  updateProduct input now db
  = (Ok (merged_product input now (product_of_row prior)),
     updated productsTable (updateProduct_values input now)
       (UpdateProductInput.id input) db).
Proof.
  intros [l Hst]%lookup_id_Some. unfold updateProduct. run.
  rewrite Hst. simpl. unfold product_of_row, merged_product. simpl.
  by rewrite parse_default_text.
Qed.

Lemma updateOrder_found input now db prior :
  lookup_id ordersTable (UpdateOrderInput.id input) db = Some prior ->
  reference_ok usersTable (UpdateOrderInput.user_id input) db ->
  updateOrder input now db
  = (Ok (merged_order input now (order_of_row prior)),
     updated ordersTable (updateOrder_values input now)
       (UpdateOrderInput.id input) db).
Proof.
  intros [l Hst]%lookup_id_Some Href. unfold updateOrder, try_catch.
  unfold mbind at 1. unfold Handler_bind at 1.
  rewrite (verify_reference_ok usersTable) by (done || reference_query). run.
  rewrite Hst. simpl. unfold order_of_row, merged_order. simpl.
  by rewrite parse_default_text.
Qed.

Lemma updateOrderItem_found input now db prior :
  lookup_id orderItemsTable (UpdateOrderItemInput.id input) db = Some prior ->
  reference_ok ordersTable (UpdateOrderItemInput.order_id input) db ->
  reference_ok productsTable (UpdateOrderItemInput.product_id input) db ->
  supplies_a_field input ->
  updateOrderItem input now db
  = (Ok (merged_order_item input (order_item_of_row prior)),
     updated orderItemsTable (updateOrderItem_values input)
       (UpdateOrderItemInput.id input) db).
Proof.
  intros [l Hst]%lookup_id_Some Horder Hproduct Hfield.
  assert (Hvalues :
    no_values orderItemsTable (updateOrderItem_values input) = false).
  { apply not_true_is_false. intros Hall. apply Hfield.
    destruct input as [? [] [] [] [] []]; simpl in *; done. }
  unfold updateOrderItem, try_catch.
  unfold mbind at 1. unfold Handler_bind at 1.
  unfold db_select_id_limit at 1. rewrite Hst. simpl.
  unfold mbind at 1. unfold Handler_bind at 1.
  rewrite (verify_reference_ok ordersTable) by (done || reference_query).
  unfold mbind at 1. unfold Handler_bind at 1.
  rewrite (verify_reference_ok productsTable) by (done || reference_query).
  unfold mbind at 1. unfold Handler_bind at 1.
  unfold db_update. rewrite Hvalues, Hst.
  unfold_handler. simpl. unfold order_item_of_row, merged_order_item. simpl.
  by rewrite !parse_default_text.
Qed.

(** The create handlers, on a store that has the rows the foreign keys
    point at: one insert, and the inserted row is returned. *)

Lemma createUser_inserts input now db :
  createUser input now db
  = (Ok (new_row usersTable (next_id (users db)) now (createUser_values input)),
     inserted usersTable (createUser_values input) now db).
Proof. reflexivity. Qed.

Lemma createCategory_inserts input now db :
  createCategory input now db
  = (Ok (new_row categoriesTable (next_id (categories db)) now
           (createCategory_values input)),
     inserted categoriesTable (createCategory_values input) now db).
Proof. reflexivity. Qed.

Lemma createProduct_inserts input now db :
  createProduct input now db
  = (Ok (product_of_row
           (new_row productsTable (next_id (products db)) now
              (createProduct_values input))),
     inserted productsTable (createProduct_values input) now db).
Proof. reflexivity. Qed.

Lemma createOrder_inserts input now db :
  exists_row usersTable (CreateOrderInput.user_id input) db ->
  createOrder input now db
  = (Ok (order_of_row
           (new_row ordersTable (next_id (orders db)) now
              (createOrder_values input))),
     inserted ordersTable (createOrder_values input) now db).
Proof.
  intros Huser. present Huser. unfold createOrder. unfold_handler.
  by rewrite Huser.
Qed.

Lemma createOrderItem_inserts input now db :
  exists_row ordersTable (CreateOrderItemInput.order_id input) db ->
  exists_row productsTable (CreateOrderItemInput.product_id input) db ->
  createOrderItem input now db
  = (Ok (order_item_of_row
           (new_row orderItemsTable (next_id (order_items db)) now
              (createOrderItem_values input))),
     inserted orderItemsTable (createOrderItem_values input) now db).
Proof.
  intros Horder Hproduct. present Horder. present Hproduct.
  unfold createOrderItem. unfold_handler.
  rewrite Horder. simpl. by rewrite Hproduct.
Qed.

(** The update handlers on a store without the target row. *)

Lemma updateUser_missing input now db :
  ~ exists_row usersTable (UpdateUserInput.id input) db ->
  updateUser input now db
  = (Throw ("User with ID " +:+ pretty (UpdateUserInput.id input)
            +:+ " not found"), db).
Proof.
  intros Hno. absent Hno. unfold updateUser, getUserById.
  unfold_handler. simpl. by rewrite Hno.
Qed.

Lemma updateCategory_missing input now db :
  ~ exists_row categoriesTable (UpdateCategoryInput.id input) db ->
  updateCategory input now db
  = (Throw ("Category with ID " +:+ pretty (UpdateCategoryInput.id input)
            +:+ " not found"), db).
Proof.
  intros Hno. unfold updateCategory. run.
  rewrite updated_absent by (done || apply _).
  absent Hno. by rewrite Hno.
Qed.

Lemma updateProduct_missing input now db :
  ~ exists_row productsTable (UpdateProductInput.id input) db ->
  updateProduct input now db
  = (Throw ("Product with ID " +:+ pretty (UpdateProductInput.id input)
            +:+ " not found"), db).
Proof.
  intros Hno. unfold updateProduct. run.
  rewrite updated_absent by (done || apply _).
  absent Hno. by rewrite Hno.
Qed.

Lemma updateOrder_missing input now db :
  ~ exists_row ordersTable (UpdateOrderInput.id input) db ->
  reference_ok usersTable (UpdateOrderInput.user_id input) db ->
  updateOrder input now db
  = (Throw ("Order with id " +:+ pretty (UpdateOrderInput.id input)
            +:+ " not found"), db).
Proof.
  intros Hno Href. unfold updateOrder, try_catch.
  unfold mbind at 1. unfold Handler_bind at 1.
  rewrite (verify_reference_ok usersTable) by (done || reference_query).
  run. rewrite updated_absent by (done || apply _).
  absent Hno. by rewrite Hno.
Qed.

Lemma createOrder_missing_user input now db :
  ~ exists_row usersTable (CreateOrderInput.user_id input) db ->
  createOrder input now db
  = (Throw ("User with id " +:+ pretty (CreateOrderInput.user_id input)
            +:+ " not found"), db).
Proof.
  intros Hu. absent Hu. unfold createOrder. unfold_handler. by rewrite Hu.
Qed.

Lemma updateOrder_missing_user input now db user_id :
  UpdateOrderInput.user_id input = Some user_id ->
  ~ exists_row usersTable user_id db ->
  updateOrder input now db
  = (Throw ("User with id " +:+ pretty user_id +:+ " not found"), db).
Proof.
  intros Hu Hno. unfold updateOrder, try_catch.
  unfold mbind at 1. unfold Handler_bind at 1.
  rewrite Hu, (verify_reference_missing usersTable)
    by (done || reference_query).
  done.
Qed.


Lemma lookup_or_absent {R V P} (tbl : PgTable R V P) `{!LawfulTable tbl}
    x db :
  (exists r, lookup_id tbl x db = Some r) \/ ~ exists_row tbl x db.
Proof.
  destruct (lookup_id tbl x db) as [r|] eqn:Hrow; [left; eauto|].
  right. by apply lookup_id_None.
Qed.

Lemma reference_ok_or_missing {R V P} (tbl : PgTable R V P)
    `{!LawfulTable tbl} fk db :
  reference_ok tbl fk db \/ exists x, fk = Some x /\ ~ exists_row tbl x db.
Proof.
  destruct fk as [x|]; [|by left]. simpl.
  destruct (lookup_or_absent tbl x db) as [[r Hr]|Hno]; [left|right; eauto].
  apply lookup_id_elem_of in Hr as [? ?]. by exists r.
Qed.

Lemma creates_fresh_rows_intro {R V P I E} (tbl : PgTable R V P)
    `{!LawfulTable tbl} (conv : R -> E) (key : E -> Z)
    (create : I -> Handler E) (ready : I -> DB -> Prop) (values : I -> V) :
  (forall r, key (conv r) = id_of tbl r) ->
  (forall input v now db,
     ready input db -> ready input (inserted tbl v now db)) ->
  (forall input now db,
     ready input db ->
     create input now db
     = (Ok (conv (new_row tbl (next_id (from tbl db)) now (values input))),
        inserted tbl (values input) now db)) ->
  creates_fresh_rows tbl conv key create ready.
Proof.
  intros Hkey Hready Hcreate input now1 now2 db Hin db1 db2.
  assert (ready input db1) as Hin1.
  { unfold db1, after. rewrite Hcreate by done. by apply Hready. }
  unfold db2, after. rewrite (Hcreate input now2 db1) by done.
  unfold db1, after. rewrite (Hcreate input now1 db) by done.
  cbn [fst snd]. eexists _, _.
  split_and!; [reflexivity | reflexivity | ..].
  - rewrite Hkey. apply id_of_new_row.
  - rewrite Hkey, (id_of_new_row (tbl:=tbl)). by apply next_id_inserted.
  - rewrite !Hkey, !(id_of_new_row (tbl:=tbl)), (next_id_inserted tbl). lia.
  - rewrite !(rows_inserted tbl), !fmap_app, <- app_assoc. done.
  - intros Hbelow.
    rewrite !Hkey, !(id_of_new_row (tbl:=tbl)), (next_id_inserted tbl).
    split; intros (r & Hr & Hid); apply Hbelow in Hr; lia.
Qed.

(** ** Writes and invariants *)

Ltac case_query :=
  match goal with
  | |- context [match take _ (stored ?tbl ?x ?db) with _ => _ end] =>
      destruct (stored tbl x db); simpl
  | |- context [match head (stored ?tbl ?x ?db) with _ => _ end] =>
      destruct (stored tbl x db); simpl
  | |- context [match _ <$> stored ?tbl ?x ?db with _ => _ end] =>
      destruct (stored tbl x db); simpl
  | |- context [match stored ?tbl ?x ?db with _ => _ end] =>
      destruct (stored tbl x db); simpl
  | |- context [match ?o with Some _ => _ | None => _ end] =>
      destruct o; simpl
  | |- context [if ?b then _ else _] => destruct b; simpl
  end.

Lemma exec_write (c : Call) (now : Date) (db : DB) :
  write now db (exec c now db).
Proof.
  destruct c; unfold exec, after;
    unfold createUser, getUsers, getUserById, updateUser, deleteUser,
      createCategory, getCategories, getCategoryById, updateCategory,
      deleteCategory, createProduct, getProducts, getProductById,
      updateProduct, deleteProduct, createOrder, getOrders, getOrderById,
      updateOrder, deleteOrder, createOrderItem, getOrderItems,
      getOrderItemById, getOrderItemsByOrderId, updateOrderItem,
      deleteOrderItem;
    unfold_handler; simpl; rewrite ?andb_false_r; simpl;
    repeat case_query;
    by constructor.
Qed.

Section table_invariant_lemmas.
Context {R V P : Type} (tbl : PgTable R V P) `{!LawfulTable tbl}.
Variables (created touched : R -> Date).
Implicit Types (T : Table R) (t now : Date).

Lemma table_ok_empty t : table_ok tbl created touched t empty_table.
Proof.
  split_and!; simpl.
  - intros r Hr. by apply not_elem_of_nil in Hr.
  - constructor.
  - intros r Hr. by apply not_elem_of_nil in Hr.
Qed.

Lemma table_ok_mono t t' T :
  t <= t' -> table_ok tbl created touched t T ->
  table_ok tbl created touched t' T.
Proof.
  intros Ht (Hbelow & Hunique & Hstamps). split_and!; [done..|].
  intros r Hr. destruct (Hstamps r Hr). lia.
Qed.

Lemma table_ok_insert t now v T :
  (forall x, created (new_row tbl x now v) = now) ->
  (forall x, touched (new_row tbl x now v) = now) ->
  t <= now -> table_ok tbl created touched t T ->
  table_ok tbl created touched now (table_insert tbl now v T).
Proof.
  intros Hcreated Htouched Ht (Hbelow & Hunique & Hstamps).
  unfold table_insert. split_and!; simpl.
  - intros r [Hr| ->%list_elem_of_singleton]%elem_of_app.
    + apply Hbelow in Hr. lia.
    + rewrite id_of_new_row. lia.
  - rewrite fmap_app. apply NoDup_app. split_and!; [done| |].
    + intros k Hk [->|[]%not_elem_of_nil]%elem_of_cons.
      rewrite id_of_new_row in Hk.
      apply list_elem_of_fmap in Hk as (r & Hkey & Hr).
      apply Hbelow in Hr. lia.
    + apply NoDup_singleton.
  - intros r [Hr| ->%list_elem_of_singleton]%elem_of_app.
    + destruct (Hstamps r Hr). lia.
    + rewrite Hcreated, Htouched. lia.
Qed.

Lemma table_ok_update t now p x T :
  (forall r, created (set_values tbl p r) = created r) ->
  (forall r, touched (set_values tbl p r) = now \/
             touched (set_values tbl p r) = touched r) ->
  t <= now -> table_ok tbl created touched t T ->
  table_ok tbl created touched now (table_update tbl p x T).
Proof.
  intros Hcreated Htouched Ht (Hbelow & Hunique & Hstamps).
  unfold table_update. split_and!; simpl.
  - intros r' (r & -> & Hr)%list_elem_of_fmap.
    apply Hbelow in Hr. case_decide; by rewrite ?id_of_set_values.
  - rewrite <- list_fmap_compose.
    erewrite list_fmap_ext; [exact Hunique|].
    intros i r _. simpl. case_decide; by rewrite ?id_of_set_values.
  - intros r' (r & -> & Hr)%list_elem_of_fmap.
    destruct (Hstamps r Hr). case_decide; [|lia].
    rewrite Hcreated. destruct (Htouched r) as [-> | ->]; lia.
Qed.

Lemma table_ok_delete t now x T :
  t <= now -> table_ok tbl created touched t T ->
  table_ok tbl created touched now (table_delete tbl x T).
Proof.
  intros Ht (Hbelow & Hunique & Hstamps).
  unfold table_delete. split_and!; simpl.
  - intros r [_ Hr]%list_elem_of_filter. by apply Hbelow.
  - eapply sublist_NoDup; [exact Hunique|].
    apply fmap_sublist, sublist_filter.
  - intros r [_ Hr]%list_elem_of_filter. destruct (Hstamps r Hr). lia.
Qed.

(** *** Keys and creation times across a write *)

Lemma keys_kept_same now T : keys_kept tbl created now T T.
Proof. intros r Hr. left. by exists r. Qed.

Lemma keys_kept_insert now v T :
  (forall x, created (new_row tbl x now v) = now) ->
  keys_kept tbl created now T (table_insert tbl now v T).
Proof.
  intros Hcreated r' [Hr| ->%list_elem_of_singleton]%elem_of_app.
  - left. by exists r'.
  - right. by rewrite id_of_new_row, Hcreated.
Qed.

Lemma keys_kept_update now p x T :
  (forall r, created (set_values tbl p r) = created r) ->
  keys_kept tbl created now T (table_update tbl p x T).
Proof.
  intros Hcreated r' (r & -> & Hr)%list_elem_of_fmap.
  left. exists r. case_decide; by rewrite ?id_of_set_values, ?Hcreated.
Qed.

Lemma keys_kept_delete now x T :
  keys_kept tbl created now T (table_delete tbl x T).
Proof. intros r' [_ Hr]%list_elem_of_filter. left. by exists r'. Qed.

End table_invariant_lemmas.

Lemma store_ok_empty t : store_ok t empty_db.
Proof. split_and!; apply table_ok_empty. Qed.

Lemma store_ok_write t now db db' :
  store_ok t db -> t <= now -> write now db db' -> store_ok now db'.
Proof.
  intros (Hu & Hc & Hp & Ho & Hi) Hle Hw.
  destruct Hw; unfold inserted, updated, removed; simpl; split_and!;
    first
      [ by eapply table_ok_mono; [exact Hle|]
      | by apply (table_ok_insert _ _ _ t); try apply _
      | by apply (table_ok_delete _ _ _ t); try apply _
      | apply (table_ok_update _ _ _ t); try apply _; try done;
        intros r; simpl;
        match goal with
        | H : _ = Some now |- _ => rewrite H; by left
        | _ => by right
        end ].
Qed.

Lemma store_keys_kept_write now db db' :
  write now db db' -> store_keys_kept now db db'.
Proof.
  intros Hw.
  destruct Hw; unfold inserted, updated, removed; simpl; split_and!;
    first
      [ by apply keys_kept_same
      | by apply keys_kept_insert; try apply _
      | by apply keys_kept_update; try apply _
      | by apply keys_kept_delete ].
Qed.

Lemma sequences_advance_write now db db' :
  write now db db' -> sequences_advance db db'.
Proof.
  intros Hw.
  destruct Hw; unfold inserted, updated, removed; simpl; split_and!; simpl; lia.
Qed.

Lemma reachable_store_ok t db : reachable t db -> store_ok t db.
Proof.
  induction 1 as [t|t now db c _ IH Ht].
  - apply store_ok_empty.
  - eapply store_ok_write; [exact IH|exact Ht|apply exec_write].
Qed.

Lemma store_ok_timestamps_ordered t db : store_ok t db -> timestamps_ordered db.
Proof.
  intros (Hu & Hc & Hp & Ho & _).
  split_and!; intros r Hr;
    [ destruct Hu as (_ & _ & Hs) | destruct Hc as (_ & _ & Hs)
    | destruct Hp as (_ & _ & Hs) | destruct Ho as (_ & _ & Hs) ];
    by destruct (Hs r Hr).
Qed.

Lemma shop_reachable : reachable 50 shop.
Proof.
  apply (reachable_call 40 50 _ (orderItems_create two_novels)); [|lia].
  apply (reachable_call 30 40 _ (orders_create first_order)); [|lia].
  apply (reachable_call 20 30 _ (products_create novel)); [|lia].
  apply (reachable_call 10 20 _ (categories_create books)); [|lia].
  apply (reachable_call 0 10 _ (users_create alice)); [|lia].
  apply reachable_init.
Defined.

(** ** Outcomes of the handlers *)

Ltac unfold_handlers :=
  unfold createUser, getUsers, getUserById, updateUser, deleteUser,
    createCategory, getCategories, getCategoryById, updateCategory,
    deleteCategory, createProduct, getProducts, getProductById,
    updateProduct, deleteProduct, createOrder, getOrders, getOrderById,
    updateOrder, deleteOrder, createOrderItem, getOrderItems,
    getOrderItemById, getOrderItemsByOrderId, updateOrderItem,
    deleteOrderItem.

(** Case analysis on the rows a query finds, keeping what is known of
    them: with no row, an update or a delete changes nothing. *)
Ltac case_stored :=
  match goal with
  | H : ~ exists_row ?tbl ?x ?db |- context [updated ?tbl ?p ?x ?db] =>
      rewrite (updated_absent tbl p x db H)
  | H : ~ exists_row ?tbl ?x ?db |- context [removed ?tbl ?x ?db] =>
      rewrite (removed_absent tbl x db H)
  | H : stored ?tbl ?x ?db = _ |- context [stored ?tbl ?x ?db] =>
      rewrite H; simpl
  | |- context [stored ?tbl ?x ?db] =>
      let Hst := fresh "Hst" in
      destruct (stored tbl x db) eqn:Hst; simpl;
      [ pose proof (proj1 (stored_nil_iff tbl x db) Hst) | ]
  | |- context [match ?o with Some _ => _ | None => _ end] =>
      destruct o; simpl
  | |- context [if ?b then _ else _] =>
      lazymatch type of b with bool => destruct b eqn:?; simpl end
  end.

(** ** Rows of a table across the writes *)

Section listing_lemmas.
Context {R V P : Type} (tbl : PgTable R V P) `{!LawfulTable tbl}.
Implicit Types (x y : Z) (db : DB).

Lemma rows_removed x db :
  rows (from tbl (removed tbl x db))
  = filter (fun r => id_of tbl r <> x) (rows (from tbl db)).
Proof. unfold removed. by rewrite from_into. Qed.

Lemma keys_updated p x db :
  id_of tbl <$> rows (from tbl (updated tbl p x db))
  = id_of tbl <$> rows (from tbl db).
Proof.
  unfold updated. rewrite from_into. simpl.
  rewrite <- list_fmap_compose. apply list_fmap_ext.
  intros i r _. simpl. case_decide; by rewrite ?id_of_set_values.
Qed.

Lemma lookup_removed_ne x y db :
  y <> x -> lookup_id tbl y (removed tbl x db) = lookup_id tbl y db.
Proof. intros Hne. unfold lookup_id. by rewrite stored_removed_ne. Qed.

Lemma lookup_updated_ne p x y db :
  y <> x -> lookup_id tbl y (updated tbl p x db) = lookup_id tbl y db.
Proof. intros Hne. unfold lookup_id. by rewrite stored_updated_ne. Qed.

Lemma filter_converted {E} (conv : R -> E) (key : E -> Z) x (l : list R) :
  (forall r, key (conv r) = id_of tbl r) ->
  filter (fun e => key e <> x) (conv <$> l)
  = conv <$> filter (fun r => id_of tbl r <> x) l.
Proof.
  intros Hkey. induction l as [|r l IH]; [done|].
  rewrite fmap_cons.
  destruct (decide (id_of tbl r <> x)) as [Hne|Heq].
  - rewrite !filter_cons_True by (by rewrite ?Hkey).
    by rewrite fmap_cons, IH.
  - rewrite !filter_cons_False by (by rewrite ?Hkey).
    done.
Qed.

End listing_lemmas.

(** ** What the read handlers return *)

Lemma getUserById_lookup x now db :
  getUserById (GetByIdInput.mk x) now db = (Ok (lookup_id usersTable x db), db).
Proof. reflexivity. Qed.

Lemma getCategoryById_lookup x now db :
  getCategoryById (GetByIdInput.mk x) now db
  = (Ok (lookup_id categoriesTable x db), db).
Proof. reflexivity. Qed.

Lemma getProductById_lookup x now db :
  getProductById (GetByIdInput.mk x) now db
  = (Ok (product_of_row <$> lookup_id productsTable x db), db).
Proof.
  unfold getProductById, lookup_id. unfold_handler. simpl.
  by destruct (stored productsTable x db).
Qed.

Lemma getOrderById_lookup x now db :
  getOrderById (GetByIdInput.mk x) now db
  = (Ok (order_of_row <$> lookup_id ordersTable x db), db).
Proof.
  unfold getOrderById, lookup_id. unfold_handler. simpl.
  by destruct (stored ordersTable x db).
Qed.

Lemma getOrderItemById_lookup x now db :
  getOrderItemById (GetByIdInput.mk x) now db
  = (Ok (order_item_of_row <$> lookup_id orderItemsTable x db), db).
Proof.
  unfold getOrderItemById, lookup_id. unfold_handler. simpl.
  by destruct (stored orderItemsTable x db).
Qed.

(** ** The store a write handler leaves behind *)

Lemma deleteUser_after input now db :
  after (deleteUser input) now db
  = removed usersTable (DeleteInput.id input) db.
Proof.
  unfold after, deleteUser, getUserById. unfold_handler. simpl.
  by repeat case_stored.
Qed.

Lemma deleteCategory_after input now db :
  after (deleteCategory input) now db
  = removed categoriesTable (DeleteInput.id input) db.
Proof. reflexivity. Qed.

Lemma deleteProduct_after input now db :
  after (deleteProduct input) now db
  = removed productsTable (DeleteInput.id input) db.
Proof. reflexivity. Qed.

Lemma deleteOrder_after input now db :
  after (deleteOrder input) now db
  = removed ordersTable (DeleteInput.id input) db.
Proof. reflexivity. Qed.

Lemma deleteOrderItem_after input now db :
  after (deleteOrderItem input) now db
  = removed orderItemsTable (DeleteInput.id input) db.
Proof. reflexivity. Qed.

Lemma updateUser_after input now db :
  after (updateUser input) now db = db \/
  after (updateUser input) now db
  = updated usersTable (updateUser_values input now)
      (UpdateUserInput.id input) db.
Proof.
  unfold after, updateUser, getUserById. run.
  repeat case_stored; auto.
Qed.

Lemma updateCategory_after input now db :
  after (updateCategory input) now db = db \/
  after (updateCategory input) now db
  = updated categoriesTable (updateCategory_values input now)
      (UpdateCategoryInput.id input) db.
Proof. unfold after, updateCategory. run. repeat case_stored; auto. Qed.

Lemma updateProduct_after input now db :
  after (updateProduct input) now db = db \/
  after (updateProduct input) now db
  = updated productsTable (updateProduct_values input now)
      (UpdateProductInput.id input) db.
Proof. unfold after, updateProduct. run. repeat case_stored; auto. Qed.

Lemma updateOrder_after input now db :
  after (updateOrder input) now db = db \/
  after (updateOrder input) now db
  = updated ordersTable (updateOrder_values input now)
      (UpdateOrderInput.id input) db.
Proof. unfold after, updateOrder. run. repeat case_stored; auto. Qed.

Lemma updateOrderItem_after input now db :
  after (updateOrderItem input) now db = db \/
  after (updateOrderItem input) now db
  = updated orderItemsTable (updateOrderItem_values input)
      (UpdateOrderItemInput.id input) db.
Proof. unfold after, updateOrderItem. run. repeat case_stored; auto. Qed.

(** A create either inserts the row made of its values and resolves
    with it, or rejects and leaves the store. *)

Lemma createOrder_cases input now db :
  createOrder input now db
  = (Ok (order_of_row
           (new_row ordersTable (next_id (orders db)) now
              (createOrder_values input))),
     inserted ordersTable (createOrder_values input) now db) \/
  exists message, createOrder input now db = (Throw message, db).
Proof. unfold createOrder. run. repeat case_stored; eauto. Qed.

Lemma createOrderItem_cases input now db :
  createOrderItem input now db
  = (Ok (order_item_of_row
           (new_row orderItemsTable (next_id (order_items db)) now
              (createOrderItem_values input))),
     inserted orderItemsTable (createOrderItem_values input) now db) \/
  exists message, createOrderItem input now db = (Throw message, db).
Proof. unfold createOrderItem. run. repeat case_stored; eauto. Qed.

(** ** Tactics for the frames *)

Ltac frame_delete Hafter :=
  intros x now later db; eexists _, _;
  split_and!; [reflexivity | reflexivity |];
  rewrite Hafter; unfold_handlers; unfold_handler; cbn [fst DeleteInput.id].

Ltac frame_update Hafter :=
  intros input y now later db Hne;
  destruct (Hafter input now db) as [-> | ->]; [done|].

Ltac listing_update Hafter :=
  intros input now later db; eexists _, _;
  split_and!; [reflexivity | reflexivity |];
  destruct (Hafter input now db) as [-> | ->]; [done|];
  unfold_handlers; unfold_handler; cbn [fst].

(** ** Validated inputs and stored records *)

Lemma min_1_nonempty s : min_1 s = true <-> s <> "".
Proof. destruct s; simpl; split; done. Qed.

Section rows_lemmas.
Context {R V P : Type} (tbl : PgTable R V P) `{!LawfulTable tbl}.
Variable Q : R -> Prop.

Lemma all_inserted v now T :
  (forall r, r ∈ rows T -> Q r) ->
  Q (new_row tbl (next_id T) now v) ->
  forall r, r ∈ rows (table_insert tbl now v T) -> Q r.
Proof.
  intros Hall Hnew r [Hr| ->%list_elem_of_singleton]%elem_of_app; auto.
Qed.

Lemma all_updated p x T :
  (forall r, r ∈ rows T -> Q r) ->
  (forall r, Q r -> Q (set_values tbl p r)) ->
  forall r, r ∈ rows (table_update tbl p x T) -> Q r.
Proof.
  intros Hall Hset r' (r & -> & Hr)%list_elem_of_fmap.
  case_decide; auto.
Qed.

Lemma all_removed x T :
  (forall r, r ∈ rows T -> Q r) ->
  forall r, r ∈ rows (table_delete tbl x T) -> Q r.
Proof. intros Hall r [_ Hr]%list_elem_of_filter. auto. Qed.

End rows_lemmas.

Lemma positive_parse_default text x :
  is_positive (parseFloat text) = true -> optional is_positive x = true ->
  is_positive (parseFloat (default text (toString <$> x))) = true.
Proof. rewrite parse_default_text. by destruct x. Qed.

Lemma nonnegative_parse_default text x :
  is_nonnegative (parseFloat text) = true -> optional is_nonnegative x = true ->
  is_nonnegative (parseFloat (default text (toString <$> x))) = true.
Proof. rewrite parse_default_text. by destruct x. Qed.

Lemma listings_valid_empty is_email : listings_valid is_email empty_db.
Proof. split_and!; intros r Hr; by apply not_elem_of_nil in Hr. Qed.

Lemma after_procedure {I A} (schema : I -> bool) (handler : I -> Handler A)
    input now db :
  after (procedure schema handler input) now db
  = if schema input then after (handler input) now db else db.
Proof. unfold after, procedure. by destruct (schema input). Qed.

Lemma createOrder_after input now db :
  after (createOrder input) now db = db \/
  after (createOrder input) now db
  = inserted ordersTable (createOrder_values input) now db.
Proof.
  unfold after.
  destruct (createOrder_cases input now db) as [-> | [m ->]]; auto.
Qed.

Lemma createOrderItem_after input now db :
  after (createOrderItem input) now db = db \/
  after (createOrderItem input) now db
  = inserted orderItemsTable (createOrderItem_values input) now db.
Proof.
  unfold after.
  destruct (createOrderItem_cases input now db) as [-> | [m ->]]; auto.
Qed.

(** One table changes and the other four are as they were. *)
Ltac one_table :=
  unfold inserted, updated, removed; simpl; split_and!; try done.

Lemma serve_listings_valid is_email c now db :
  listings_valid is_email db -> listings_valid is_email (serve is_email c now db).
Proof.
  intros Hvalid. pose proof Hvalid as (Hu & Hc & Hp & Ho & Hi).
  destruct c; unfold serve;
    unfold appRouter.users.create, appRouter.users.getAll,
      appRouter.users.getById, appRouter.users.update, appRouter.users.delete,
      appRouter.categories.create, appRouter.categories.getAll,
      appRouter.categories.getById, appRouter.categories.update,
      appRouter.categories.delete,
      appRouter.products.create, appRouter.products.getAll,
      appRouter.products.getById, appRouter.products.update,
      appRouter.products.delete,
      appRouter.orders.create, appRouter.orders.getAll,
      appRouter.orders.getById, appRouter.orders.update,
      appRouter.orders.delete,
      appRouter.orderItems.create, appRouter.orderItems.getAll,
      appRouter.orderItems.getById, appRouter.orderItems.getByOrderId,
      appRouter.orderItems.update, appRouter.orderItems.delete;
    rewrite ?after_procedure;
    try match goal with
        | |- context [if ?b then _ else _] =>
            let Hs := fresh "Hs" in destruct b eqn:Hs; [|done]
        end;
    try done;
    try (by destruct input; unfold after;
         rewrite ?getProductById_lookup, ?getOrderById_lookup,
           ?getOrderItemById_lookup).
  - (* users.create *)
    apply andb_prop in Hs as [Hname Hemail]. one_table.
    apply all_inserted; [done|]. split; [by apply min_1_nonempty|done].
  - (* users.update *)
    apply andb_prop in Hs as [Hname Hemail].
    destruct (updateUser_after input now db) as [-> | ->]; [done|]. one_table.
    apply all_updated; [done|]. intros r [Hn He]. simpl.
    destruct input as [? [n|] [e|] ? ?]; simpl in *; split; simpl;
      first [done | by apply min_1_nonempty].
  - (* users.delete *)
    rewrite deleteUser_after. one_table. by apply all_removed.
  - (* categories.create *)
    one_table. apply all_inserted; [done|]. by apply min_1_nonempty.
  - (* categories.update *)
    destruct (updateCategory_after input now db) as [-> | ->]; [done|].
    one_table. apply all_updated; [done|]. intros r Hn.
    unfold valid_category. simpl.
    destruct input as [? [n|] ? ?]; simpl in *;
      first [done | by apply min_1_nonempty].
  - (* categories.delete *)
    rewrite deleteCategory_after. one_table. by apply all_removed.
  - (* products.create *)
    apply andb_prop in Hs as [[Hname Hprice]%andb_prop Hstock]. one_table.
    apply (all_inserted productsTable (fun r => valid_product (product_of_row r)));
      [done|].
    split_and!; simpl.
    + by apply min_1_nonempty.
    + by rewrite JsNumberFacts.parseFloat_toString.
    + destruct (CreateProductInput.stock_quantity input); simpl in *; lia.
  - (* products.update *)
    apply andb_prop in Hs as [[Hname Hprice]%andb_prop Hstock].
    destruct (updateProduct_after input now db) as [-> | ->]; [done|].
    one_table.
    apply (all_updated productsTable (fun r => valid_product (product_of_row r)));
      [done|].
    intros r (Hn & Hpr & Hst). split_and!; simpl.
    + destruct (UpdateProductInput.name input); simpl in *;
        first [done | by apply min_1_nonempty].
    + by apply positive_parse_default.
    + destruct (UpdateProductInput.stock_quantity input); simpl in *; lia.
  - (* products.delete *)
    rewrite deleteProduct_after. one_table.
    by apply (all_removed productsTable
                (fun r => valid_product (product_of_row r))).
  - (* orders.create *)
    destruct (createOrder_after input now db) as [-> | ->]; [done|].
    one_table.
    apply (all_inserted ordersTable (fun r => valid_order (order_of_row r)));
      [done|].
    unfold valid_order. simpl. by rewrite JsNumberFacts.parseFloat_toString.
  - (* orders.update *)
    destruct (updateOrder_after input now db) as [-> | ->]; [done|].
    one_table.
    apply (all_updated ordersTable (fun r => valid_order (order_of_row r)));
      [done|].
    intros r Ht. unfold valid_order. simpl. by apply nonnegative_parse_default.
  - (* orders.delete *)
    rewrite deleteOrder_after. one_table.
    by apply (all_removed ordersTable (fun r => valid_order (order_of_row r))).
  - (* orderItems.create *)
    apply andb_prop in Hs as [[Hq Hprice]%andb_prop Hsub].
    destruct (createOrderItem_after input now db) as [-> | ->]; [done|].
    one_table.
    apply (all_inserted orderItemsTable
             (fun r => valid_order_item (order_item_of_row r))); [done|].
    split_and!; simpl; rewrite ?JsNumberFacts.parseFloat_toString;
      [lia|done..].
  - (* orderItems.update *)
    apply andb_prop in Hs as [[Hq Hprice]%andb_prop Hsub].
    destruct (updateOrderItem_after input now db) as [-> | ->]; [done|].
    one_table.
    apply (all_updated orderItemsTable
             (fun r => valid_order_item (order_item_of_row r))); [done|].
    intros r (Hqu & Hpr & Hsu). split_and!; simpl.
    + destruct (UpdateOrderItemInput.quantity input); simpl in *; lia.
    + by apply positive_parse_default.
    + by apply nonnegative_parse_default.
  - (* orderItems.delete *)
    rewrite deleteOrderItem_after. one_table.
    by apply (all_removed orderItemsTable
                (fun r => valid_order_item (order_item_of_row r))).
Qed.

Lemma serve_exec is_email c now db :
  serve is_email c now db = db \/ serve is_email c now db = exec c now db.
Proof.
  destruct c; unfold serve, exec;
    unfold appRouter.users.create, appRouter.users.getAll,
      appRouter.users.getById, appRouter.users.update, appRouter.users.delete,
      appRouter.categories.create, appRouter.categories.getAll,
      appRouter.categories.getById, appRouter.categories.update,
      appRouter.categories.delete,
      appRouter.products.create, appRouter.products.getAll,
      appRouter.products.getById, appRouter.products.update,
      appRouter.products.delete,
      appRouter.orders.create, appRouter.orders.getAll,
      appRouter.orders.getById, appRouter.orders.update,
      appRouter.orders.delete,
      appRouter.orderItems.create, appRouter.orderItems.getAll,
      appRouter.orderItems.getById, appRouter.orderItems.getByOrderId,
      appRouter.orderItems.update, appRouter.orderItems.delete;
    rewrite ?after_procedure;
    try match goal with
        | |- context [if ?b then _ else _] => destruct b
        end;
    auto.
Qed.

Lemma served_reachable is_email t db : served is_email t db -> reachable t db.
Proof.
  induction 1 as [t|t now db c _ IH Ht]; [apply reachable_init|].
  destruct (serve_exec is_email c now db) as [-> | ->].
  - by apply (reachable_call t now db users_getAll).
  - by apply reachable_call with t.
Qed.

Lemma shop_served : served has_at_sign 50 shop.
Proof.
  assert (shop
          = serve has_at_sign (orderItems_create two_novels) 50
              (serve has_at_sign (orders_create first_order) 40
                 (serve has_at_sign (products_create novel) 30
                    (serve has_at_sign (categories_create books) 20
                       (serve has_at_sign (users_create alice) 10
                          empty_db))))) as ->
    by (vm_compute; reflexivity).
  apply (served_call has_at_sign 40 50); [|lia].
  apply (served_call has_at_sign 30 40); [|lia].
  apply (served_call has_at_sign 20 30); [|lia].
  apply (served_call has_at_sign 10 20); [|lia].
  apply (served_call has_at_sign 0 10); [|lia].
  apply served_init.
Defined.

Lemma served_records_valid is_email t db :
  served is_email t db -> listings_valid is_email db.
Proof.
  induction 1 as [t|t now db c _ IH Ht].
  - apply listings_valid_empty.
  - by apply serve_listings_valid.
Qed.

(** ** Lists of records across the writes *)

Section sync_lemmas.
Context {R V P E : Type} (tbl : PgTable R V P) `{!LawfulTable tbl}.
Variables (conv : R -> E) (key : E -> Z).
Hypothesis key_conv : forall r, key (conv r) = id_of tbl r.
Implicit Types (x : Z) (db : DB).

Lemma listed_inserted v now db :
  conv <$> rows (from tbl (inserted tbl v now db))
  = (conv <$> rows (from tbl db))
    ++ [conv (new_row tbl (next_id (from tbl db)) now v)].
Proof. by rewrite (rows_inserted tbl), fmap_app. Qed.

Lemma listed_removed x db :
  conv <$> rows (from tbl (removed tbl x db))
  = remove_by_id key x (conv <$> rows (from tbl db)).
Proof.
  rewrite (rows_removed tbl). symmetry. by apply (filter_converted tbl).
Qed.

Lemma unique_row (l : list R) r r' :
  NoDup (id_of tbl <$> l) -> r ∈ l -> r' ∈ l -> id_of tbl r = id_of tbl r' ->
  r = r'.
Proof.
  induction l as [|a l IH]; intros Hnd Hr Hr' Hid.
  - by apply not_elem_of_nil in Hr.
  - rewrite fmap_cons in Hnd. apply NoDup_cons in Hnd as [Hnotin Hnd].
    apply elem_of_cons in Hr as [->|Hr]; apply elem_of_cons in Hr' as [->|Hr'].
    + done.
    + exfalso. apply Hnotin. rewrite Hid. by apply list_elem_of_fmap_2.
    + exfalso. apply Hnotin. rewrite <- Hid. by apply list_elem_of_fmap_2.
    + by apply IH.
Qed.

Lemma listed_updated p x db r l :
  ids_unique tbl db -> stored tbl x db = r :: l ->
  conv <$> rows (from tbl (updated tbl p x db))
  = replace_by_id key (conv (set_values tbl p r)) (conv <$> rows (from tbl db)).
Proof.
  intros Hunique Hst.
  assert (r ∈ stored tbl x db) as [Hid Hin]%elem_of_stored
    by (rewrite Hst; apply elem_of_cons; auto).
  unfold updated, replace_by_id. rewrite from_into. simpl.
  rewrite <- !list_fmap_compose.
  apply list_fmap_ext. intros i r' Hr'%list_elem_of_lookup_2. simpl.
  rewrite !key_conv, id_of_set_values. unfold eq_id.
  destruct (decide (id_of tbl r' = x)) as [Hx|Hx].
  - rewrite decide_True by congruence.
    do 2 f_equal. apply (unique_row (rows (from tbl db))); [done..|congruence].
  - rewrite decide_False by congruence. done.
Qed.

End sync_lemmas.

Lemma rows_updated_unique {R V P} (tbl : PgTable R V P) `{!LawfulTable tbl}
    p x db r l :
  ids_unique tbl db -> stored tbl x db = r :: l ->
  rows (from tbl (updated tbl p x db))
  = replace_by_id (id_of tbl) (set_values tbl p r) (rows (from tbl db)).
Proof.
  intros Hunique Hst.
  pose proof (listed_updated tbl (fun r => r) (id_of tbl) (fun _ => eq_refl)
                p x db r l Hunique Hst) as Hrows.
  by rewrite !list_fmap_id in Hrows.
Qed.

(** ** The write handlers, case by case *)

Lemma updateUser_cases input now db :
  (exists r l,
     stored usersTable (UpdateUserInput.id input) db = r :: l /\
     updateUser input now db
     = (Ok (set_values usersTable (updateUser_values input now) r),
        updated usersTable (updateUser_values input now)
          (UpdateUserInput.id input) db)) \/
  exists message, updateUser input now db = (Throw message, db).
Proof.
  unfold updateUser, getUserById. run. repeat case_stored; eauto.
Qed.

Lemma updateCategory_cases input now db :
  (exists r l,
     stored categoriesTable (UpdateCategoryInput.id input) db = r :: l /\
     updateCategory input now db
     = (Ok (set_values categoriesTable (updateCategory_values input now) r),
        updated categoriesTable (updateCategory_values input now)
          (UpdateCategoryInput.id input) db)) \/
  exists message, updateCategory input now db = (Throw message, db).
Proof. unfold updateCategory. run. repeat case_stored; eauto. Qed.

Lemma updateProduct_cases input now db :
  (exists r l,
     stored productsTable (UpdateProductInput.id input) db = r :: l /\
     updateProduct input now db
     = (Ok (product_of_row
              (set_values productsTable (updateProduct_values input now) r)),
        updated productsTable (updateProduct_values input now)
          (UpdateProductInput.id input) db)) \/
  exists message, updateProduct input now db = (Throw message, db).
Proof. unfold updateProduct. run. repeat case_stored; eauto. Qed.

Lemma updateOrder_cases input now db :
  (exists r l,
     stored ordersTable (UpdateOrderInput.id input) db = r :: l /\
     updateOrder input now db
     = (Ok (order_of_row
              (set_values ordersTable (updateOrder_values input now) r)),
        updated ordersTable (updateOrder_values input now)
          (UpdateOrderInput.id input) db)) \/
  exists message, updateOrder input now db = (Throw message, db).
Proof. unfold updateOrder. run. repeat case_stored; eauto. Qed.

Lemma updateOrderItem_cases input now db :
  (exists r l,
     stored orderItemsTable (UpdateOrderItemInput.id input) db = r :: l /\
     updateOrderItem input now db
     = (Ok (order_item_of_row
              (set_values orderItemsTable (updateOrderItem_values input) r)),
        updated orderItemsTable (updateOrderItem_values input)
          (UpdateOrderItemInput.id input) db)) \/
  exists message, updateOrderItem input now db = (Throw message, db).
Proof. unfold updateOrderItem. run. repeat case_stored; eauto. Qed.

Lemma deleteUser_cases input now db :
  deleteUser input now db
  = (Ok (DeleteResult.mk true), removed usersTable (DeleteInput.id input) db) \/
  exists message, deleteUser input now db = (Throw message, db).
Proof. unfold deleteUser, getUserById. run. repeat case_stored; eauto. Qed.

Lemma getUsers_rows now db : getUsers now db = (Ok (rows (users db)), db).
Proof. reflexivity. Qed.

Lemma getCategories_rows now db :
  getCategories now db = (Ok (rows (categories db)), db).
Proof. reflexivity. Qed.

Lemma getProducts_rows now db :
  getProducts now db = (Ok (product_of_row <$> rows (products db)), db).
Proof. reflexivity. Qed.

Lemma getOrders_rows now db :
  getOrders now db = (Ok (order_of_row <$> rows (orders db)), db).
Proof. reflexivity. Qed.

Lemma getOrderItems_rows now db :
  getOrderItems now db
  = (Ok (order_item_of_row <$> rows (order_items db)), db).
Proof. reflexivity. Qed.

Lemma createOrder_outcome input now db :
  createOrder input now db
  = (Ok (order_of_row
           (new_row ordersTable (next_id (from ordersTable db)) now
              (createOrder_values input))),
     inserted ordersTable (createOrder_values input) now db) \/
  exists message, createOrder input now db = (Throw message, db).
Proof. apply createOrder_cases. Qed.

Lemma createOrderItem_outcome input now db :
  createOrderItem input now db
  = (Ok (order_item_of_row
           (new_row orderItemsTable (next_id (from orderItemsTable db)) now
              (createOrderItem_values input))),
     inserted orderItemsTable (createOrderItem_values input) now db) \/
  exists message, createOrderItem input now db = (Throw message, db).
Proof. apply createOrderItem_cases. Qed.

(** ** Event handlers and the listing *)

Ltac unfold_router :=
  unfold appRouter.users.create, appRouter.users.getAll,
    appRouter.users.getById, appRouter.users.update, appRouter.users.delete,
    appRouter.categories.create, appRouter.categories.getAll,
    appRouter.categories.getById, appRouter.categories.update,
    appRouter.categories.delete,
    appRouter.products.create, appRouter.products.getAll,
    appRouter.products.getById, appRouter.products.update,
    appRouter.products.delete,
    appRouter.orders.create, appRouter.orders.getAll,
    appRouter.orders.getById, appRouter.orders.update,
    appRouter.orders.delete,
    appRouter.orderItems.create, appRouter.orderItems.getAll,
    appRouter.orderItems.getById, appRouter.orderItems.getByOrderId,
    appRouter.orderItems.update, appRouter.orderItems.delete.

Ltac unfold_component :=
  unfold UserManagement.loadUsers, UserManagement.handleSubmit,
    UserManagement.handleDelete,
    CategoryManagement.loadCategories, CategoryManagement.handleSubmit,
    CategoryManagement.handleDelete,
    ProductManagement.loadProducts, ProductManagement.loadCategories,
    ProductManagement.handleSubmit, ProductManagement.handleDelete,
    OrderManagement.loadOrders, OrderManagement.loadUsers,
    OrderManagement.handleSubmit, OrderManagement.handleDelete,
    OrderItemManagement.loadOrderItems, OrderItemManagement.loadOrders,
    OrderItemManagement.loadProducts, OrderItemManagement.handleSubmit,
    OrderItemManagement.handleDelete;
  unfold after, catch_log; unfold_router;
  unfold procedure, deleteInputSchema, getByIdInputSchema;
  unfold mbind, Handler_bind, mret, Handler_ret, throw.

Ltac read_state :=
  cbn [fst snd
       UserManagement.users UserManagement.isLoading
       UserManagement.editingUser UserManagement.formData
       CategoryManagement.categories CategoryManagement.isLoading
       CategoryManagement.editingCategory CategoryManagement.formData
       ProductManagement.products ProductManagement.categories
       ProductManagement.isLoading ProductManagement.editingProduct
       ProductManagement.formData
       OrderManagement.orders OrderManagement.users OrderManagement.isLoading
       OrderManagement.editingOrder OrderManagement.formData
       OrderItemManagement.orderItems OrderItemManagement.orders
       OrderItemManagement.products OrderItemManagement.isLoading
       OrderItemManagement.editingOrderItem OrderItemManagement.formData].

(** The listing of the store, in the hypothesis that the component
    shows it. *)
Ltac sync_begin listing :=
  unfold stays_in_sync; unfold_router;
  intros t now db st all Hreach Hall Hsync;
  pose proof (reachable_store_ok _ _ Hreach) as (Hu & Hc & Hp & Ho & Hi);
  rewrite listing in Hall; cbn [fst] in Hall; injection Hall as <-;
  unfold_component; read_state.

Ltac sync_end listing Hsync :=
  eexists _, _; split_and!; [reflexivity | rewrite listing; reflexivity |];
  read_state; try done;
  unfold replace_by_id, remove_by_id; rewrite ?Hsync;
  match goal with
  | |- ?shown ≡ₚ ?stored => cut (stored = shown); [by intros ->|]
  end; try done.

Ltac case_schema :=
  match goal with
  | |- context [if ?b then _ else _] =>
      lazymatch type of b with bool => destruct b eqn:? end
  end.

Ltac unique_ids :=
  match goal with
  | H : table_ok ?tbl _ _ _ _ |- ids_unique ?tbl _ =>
      let Hnd := fresh in destruct H as (_ & Hnd & _); exact Hnd
  end.

Ltac case_update update cases :=
  match goal with
  | |- context [update ?i ?now ?db] =>
      destruct (cases i now db) as [(r & l & Hst & ->)|[m ->]]
  end.

Ltac case_create create cases :=
  match goal with
  | |- context [create ?i ?now ?db] =>
      destruct (cases i now db) as [-> | [m ->]]
  end.

(** ** Looking a key up in the active records *)

Section find_lemmas.
Context {R V P E : Type} (tbl : PgTable R V P) `{!LawfulTable tbl}.
Variables (conv : R -> E) (key : E -> Z) (active : E -> bool).
Hypothesis key_conv : forall r, key (conv r) = id_of tbl r.

Lemma find_by_id_absent x (l : list R) :
  x ∉ id_of tbl <$> l ->
  find_by_id key x (filter (fun e => active e = true) (conv <$> l)) = None.
Proof.
  induction l as [|r l IH]; intros Hnotin; [done|].
  rewrite fmap_cons in Hnotin. apply not_elem_of_cons in Hnotin as [Hne Hnotin].
  rewrite fmap_cons, filter_cons.
  case_decide; [|by apply IH].
  unfold find_by_id in *. simpl. rewrite key_conv.
  destruct (Z.eqb_spec (id_of tbl r) x); [congruence|by apply IH].
Qed.

Lemma find_by_id_first x (l : list R) :
  find_by_id key x (conv <$> l)
  = conv <$> head (filter (eq_id tbl x) l).
Proof.
  induction l as [|r l IH]; [done|].
  rewrite fmap_cons, filter_cons. unfold find_by_id in *. simpl.
  rewrite key_conv. unfold eq_id at 1.
  destruct (Z.eqb_spec (id_of tbl r) x).
  - by rewrite decide_True.
  - by rewrite decide_False.
Qed.

Lemma find_by_id_active x db :
  ids_unique tbl db ->
  find_by_id key x
    (filter (fun e => active e = true) (conv <$> rows (from tbl db)))
  = match conv <$> lookup_id tbl x db with
    | Some e => if active e then Some e else None
    | None => None
    end.
Proof.
  unfold ids_unique, lookup_id, stored.
  induction (rows (from tbl db)) as [|r l IH]; intros Hnd; [done|].
  rewrite fmap_cons in Hnd. apply NoDup_cons in Hnd as [Hnotin Hnd].
  rewrite fmap_cons, (filter_cons (eq_id tbl x)). unfold eq_id at 1.
  destruct (decide (id_of tbl r = x)) as [Hx|Hx].
  - simpl. rewrite filter_cons. destruct (active (conv r)) eqn:Hact.
    + rewrite decide_True by done. unfold find_by_id. simpl.
      rewrite key_conv. by destruct (Z.eqb_spec (id_of tbl r) x).
    + rewrite decide_False by done.
      apply find_by_id_absent. by rewrite <- Hx.
  - rewrite <- IH by done. rewrite filter_cons.
    case_decide; [|done].
    unfold find_by_id. simpl. rewrite key_conv.
    by destruct (Z.eqb_spec (id_of tbl r) x).
Qed.

End find_lemmas.

(** * Properties *)

(** ** Deletes *)

(** C1, as the handlers have it.  Deleting a category, a product or an
    order removes the row and reports whether one was removed, without
    throwing.  Deleting a user removes an existing row and resolves with
    success, but throws "User with ID n not found" when there is none.
    Deleting an order item resolves with [success: true] whether or not
    a row was removed. *)
Theorem delete_policies :
  delete_contract categoriesTable deleteCategory /\
  delete_contract productsTable deleteProduct /\
  delete_contract ordersTable deleteOrder /\
  (forall (x : Z) (now : Date) (db : DB),
     (exists_row usersTable x db ->
        deleteUser (DeleteInput.mk x) now db
        = (Ok (DeleteResult.mk true), removed usersTable x db) /\
        lookup_id usersTable x (removed usersTable x db) = None) /\
     (~ exists_row usersTable x db ->
        deleteUser (DeleteInput.mk x) now db
        = (Throw ("User with ID " +:+ pretty x +:+ " not found"), db))) /\
  (forall (x : Z) (now : Date) (db : DB),
     deleteOrderItem (DeleteInput.mk x) now db
     = (Ok (DeleteResult.mk true), removed orderItemsTable x db) /\
     lookup_id orderItemsTable x (removed orderItemsTable x db) = None).
Proof.
  split_and!.
  - by apply delete_contract_intro; [apply _|].
  - by apply delete_contract_intro; [apply _|].
  - by apply delete_contract_intro; [apply _|].
  - intros x now db. split.
    + intros Hex. split; [|by apply lookup_removed; apply _].
      present Hex. unfold deleteUser, getUserById. unfold_handler. simpl.
      by rewrite Hex.
    + intros Hno. absent Hno.
      unfold deleteUser, getUserById. unfold_handler. simpl.
      by rewrite Hno.
  - intros x now db. split; [done|]. apply lookup_removed; apply _.
Qed.

(** C1, as stated, fails for two of the five entities: on an empty
    store, deleting user 999 throws, and deleting order item 999
    resolves with [success: true], where the claim has both resolve with
    [success: false]. *)
Lemma delete_absent_counterexample :
  deleteUser (DeleteInput.mk 999) 0 empty_db
    = (Throw "User with ID 999 not found", empty_db) /\
  deleteOrderItem (DeleteInput.mk 999) 0 empty_db
    = (Ok (DeleteResult.mk true), empty_db) /\
  (deleteUser (DeleteInput.mk 999) 0 empty_db).1
    <> Ok (DeleteResult.mk false) /\
  (deleteOrderItem (DeleteInput.mk 999) 0 empty_db).1
    <> Ok (DeleteResult.mk false).
Proof.
  split_and!; [reflexivity | reflexivity | discriminate | discriminate].
Qed.

Lemma delete_policies_witness :
  deleteCategory (DeleteInput.mk 1) 60 shop
    = (Ok (DeleteResult.mk true), removed categoriesTable 1 shop) /\
  deleteCategory (DeleteInput.mk 7) 60 shop
    = (Ok (DeleteResult.mk false), shop).
Proof.
  destruct delete_policies as (Hcategories & _).
  destruct (Hcategories 1 60 shop) as [Hpresent _].
  destruct (Hcategories 7 60 shop) as [_ Habsent].
  split.
  - apply Hpresent.
    apply (stored_cons_exists categoriesTable 1 _
             (Category.mk 1 "Books" None true 20 20) []).
    reflexivity.
  - apply Habsent. apply stored_nil_iff. reflexivity.
Defined.

(** ** Referential checks *)

(** C2. A create whose foreign key matches no stored row throws, with a
    message that carries the missing id, and writes nothing: the store,
    and with it what getAll returns, is as before. *)
Theorem create_with_missing_reference_fails (now : Date) (db : DB) :
  (forall input : CreateOrderInput.t,
     ~ exists_row usersTable (CreateOrderInput.user_id input) db ->
     createOrder input now db
     = (Throw ("User with id " +:+ pretty (CreateOrderInput.user_id input)
               +:+ " not found"), db)) /\
  (forall input : CreateOrderItemInput.t,
     ~ exists_row ordersTable (CreateOrderItemInput.order_id input) db ->
     createOrderItem input now db
     = (Throw ("Order with ID " +:+ pretty (CreateOrderItemInput.order_id input)
               +:+ " does not exist"), db)) /\
  (forall input : CreateOrderItemInput.t,
     exists_row ordersTable (CreateOrderItemInput.order_id input) db ->
     ~ exists_row productsTable (CreateOrderItemInput.product_id input) db ->
     createOrderItem input now db
     = (Throw ("Product with ID "
               +:+ pretty (CreateOrderItemInput.product_id input)
               +:+ " does not exist"), db)).
Proof.
  split_and!.
  - intros input Hu. absent Hu. unfold createOrder. unfold_handler.
    by rewrite Hu.
  - intros input Ho. absent Ho. unfold createOrderItem. unfold_handler.
    by rewrite Ho.
  - intros input Ho Hp. present Ho. absent Hp.
    unfold createOrderItem. unfold_handler.
    rewrite Ho. simpl. by rewrite Hp.
Qed.

Lemma create_with_missing_reference_fails_witness :
  createOrder order_for_nobody 5 empty_db
    = (Throw "User with id 999 not found", empty_db) /\
  createOrderItem item_of_no_order 5 empty_db
    = (Throw "Order with ID 99999 does not exist", empty_db).
Proof.
  destruct (create_with_missing_reference_fails 5 empty_db) as (Hu & Ho & _).
  split.
  - apply (Hu order_for_nobody). apply stored_nil_iff. reflexivity.
  - apply (Ho item_of_no_order). apply stored_nil_iff. reflexivity.
Defined.




(** ** Partial updates *)

(** C4, at an input where it fails.  [updateCategory] called at the
    clock reading at which the row was last written (within the same
    millisecond) resolves with the merged record and stores it, but
    [updated_at] is that reading again: it has not advanced, where
    the repository's tests expect a greater value after every update.
    The other update handlers set [updated_at] the same way. *)
Theorem update_at_the_reading_of_the_last_write :
  reachable 20 books_only /\
  lookup_id categoriesTable 1 books_only
  = Some (Category.mk 1 "Books" None true 20 20) /\
  (updateCategory rename_books 20 books_only).1
  = Ok (Category.mk 1 "Updated Electronics" None true 20 20) /\
  lookup_id categoriesTable 1 (after (updateCategory rename_books) 20 books_only)
  = Some (Category.mk 1 "Updated Electronics" None true 20 20).
Proof.
  split_and!; try reflexivity.
  apply (reachable_call 0 20 _ (categories_create books)); [|lia].
  apply reachable_init.
Qed.

(** ** Currency through text *)

(** C5. The price of a created product comes back as the number that
    was put in: in the record [createProduct] returns, in what
    [getProductById] returns for its key, and in the last record of
    what [getProducts] returns.  The records carry a [number], not the
    stored text: both read paths convert every row with
    [product_of_row], which applies [parseFloat] to the text column,
    and [parseFloat] gives back the double whose text [toString]
    printed.  A price the schema lets through is not [NaN], so being
    the same double is being numerically equal. *)
Theorem product_price_round_trip
    (input : CreateProductInput.t) (now : Date) (db : DB) :
  ids_below productsTable db ->
  exists product : Product.t,
    (createProduct input now db).1 = Ok product /\
    Product.price product = CreateProductInput.price input /\
    forall later : Date,
      let db' := after (createProduct input) now db in
      getProductById (GetByIdInput.mk (Product.id product)) later db'
        = (Ok (Some product), db') /\
      getProducts later db'
        = (Ok ((product_of_row <$> rows (products db)) ++ [product]), db') /\
      getProducts later db = (Ok (product_of_row <$> rows (products db)), db).
Proof.
  intros Hbelow. eexists. unfold after.
  rewrite createProduct_inserts. cbn [fst snd].
  split_and!; [reflexivity | apply JsNumberFacts.parseFloat_toString |].
  intros later. split_and!.
  - unfold getProductById. unfold_handler. simpl.
    pose proof (lookup_inserted productsTable (createProduct_values input)
                  now db Hbelow) as Hrow.
    apply lookup_id_Some in Hrow as [l Hst].
    simpl in Hst. by rewrite Hst.
  - unfold getProducts. unfold_handler.
    by rewrite rows_inserted, fmap_app by apply _.
  - reflexivity.
Qed.

Lemma product_price_round_trip_witness :
  exists product : Product.t,
    (createProduct novel 100 empty_db).1 = Ok product /\
    Product.price product = parseFloat "19.99" /\
    getProductById (GetByIdInput.mk (Product.id product)) 200
      one_product_store
    = (Ok (Some product), one_product_store).
Proof.
  destruct (product_price_round_trip novel 100 empty_db)
    as (product & Hcreated & Hprice & Hread).
  - intros r Hin. simpl in Hin. by apply not_elem_of_nil in Hin.
  - exists product. destruct (Hread 200) as (Hget & _). done.
Defined.

(** ** Creates *)

(** C6. A create returns the full record: the supplied fields, the next
    key of the table's sequence, the insertion time in [created_at] and
    in [updated_at] (so [created_at <= updated_at]), and the entity's
    default in every optional field the input omits: role [user] and
    [is_active] true for a user, [is_active] true for a category, stock
    0 and [is_active] true for a product, status [pending] for an
    order.  The record is appended to its table.  ([default d x] is [x]'s
    value when the input has one and [d] when it omits the field;
    [js_or x None] is the input's text or id, or null.) *)
Theorem create_returns_record_with_defaults (now : Date) (db : DB) :
  (forall input : CreateUserInput.t,
     let user := {|
       User.id := next_id (users db);
       User.name := CreateUserInput.name input;
       User.email := CreateUserInput.email input;
       User.role := default role_user (CreateUserInput.role input);
       User.is_active := default true (CreateUserInput.is_active input);
       User.created_at := now;
       User.updated_at := now |} in
     (createUser input now db).1 = Ok user /\
     rows (users (after (createUser input) now db))
       = rows (users db) ++ [user] /\
     User.created_at user <= User.updated_at user) /\
  (forall input : CreateCategoryInput.t,
     let category := {|
       Category.id := next_id (categories db);
       Category.name := CreateCategoryInput.name input;
       Category.description :=
         js_or (CreateCategoryInput.description input) None;
       Category.is_active :=
         default true (CreateCategoryInput.is_active input);
       Category.created_at := now;
       Category.updated_at := now |} in
     (createCategory input now db).1 = Ok category /\
     rows (categories (after (createCategory input) now db))
       = rows (categories db) ++ [category] /\
     Category.created_at category <= Category.updated_at category) /\
  (forall input : CreateProductInput.t,
     let product := {|
       Product.id := next_id (products db);
       Product.name := CreateProductInput.name input;
       Product.description :=
         js_or (CreateProductInput.description input) None;
       Product.price := CreateProductInput.price input;
       Product.stock_quantity :=
         default 0 (CreateProductInput.stock_quantity input);
       Product.category_id :=
         js_or (CreateProductInput.category_id input) None;
       Product.is_active := default true (CreateProductInput.is_active input);
       Product.created_at := now;
       Product.updated_at := now |} in
     (createProduct input now db).1 = Ok product /\
     product_of_row <$> rows (products (after (createProduct input) now db))
       = (product_of_row <$> rows (products db)) ++ [product] /\
     Product.created_at product <= Product.updated_at product) /\
  (forall input : CreateOrderInput.t,
     exists_row usersTable (CreateOrderInput.user_id input) db ->
     let order := {|
       Order.id := next_id (orders db);
       Order.user_id := CreateOrderInput.user_id input;
       Order.status := default status_pending (CreateOrderInput.status input);
       Order.total_amount := CreateOrderInput.total_amount input;
       Order.notes := js_or (CreateOrderInput.notes input) None;
       Order.created_at := now;
       Order.updated_at := now |} in
     (createOrder input now db).1 = Ok order /\
     order_of_row <$> rows (orders (after (createOrder input) now db))
       = (order_of_row <$> rows (orders db)) ++ [order] /\
     Order.created_at order <= Order.updated_at order) /\
  (forall input : CreateOrderItemInput.t,
     exists_row ordersTable (CreateOrderItemInput.order_id input) db ->
     exists_row productsTable (CreateOrderItemInput.product_id input) db ->
     let item := {|
       OrderItem.id := next_id (order_items db);
       OrderItem.order_id := CreateOrderItemInput.order_id input;
       OrderItem.product_id := CreateOrderItemInput.product_id input;
       OrderItem.quantity := CreateOrderItemInput.quantity input;
       OrderItem.unit_price := CreateOrderItemInput.unit_price input;
       OrderItem.subtotal := CreateOrderItemInput.subtotal input;
       OrderItem.created_at := now |} in
     (createOrderItem input now db).1 = Ok item /\
     order_item_of_row <$>
       rows (order_items (after (createOrderItem input) now db))
       = (order_item_of_row <$> rows (order_items db)) ++ [item]).
Proof.
  split_and!.
  - intros input user. unfold after. rewrite createUser_inserts.
    split_and!; [reflexivity | reflexivity | simpl; lia].
  - intros input category. unfold after. rewrite createCategory_inserts.
    split_and!; [reflexivity | reflexivity | simpl; lia].
  - intros input product.
    assert (product_of_row
              (new_row productsTable (next_id (products db)) now
                 (createProduct_values input)) = product) as Hrow.
    { unfold product_of_row, product. simpl.
      by rewrite JsNumberFacts.parseFloat_toString. }
    unfold after. rewrite createProduct_inserts, Hrow. cbn [fst snd].
    split_and!; [reflexivity | | simpl; lia].
    change (products
              (inserted productsTable (createProduct_values input) now db))
      with (from productsTable
              (inserted productsTable (createProduct_values input) now db)).
    by rewrite rows_inserted, fmap_app, <- Hrow by apply _.
  - intros input Huser order.
    assert (order_of_row
              (new_row ordersTable (next_id (orders db)) now
                 (createOrder_values input)) = order) as Hrow.
    { unfold order_of_row, order. simpl.
      by rewrite JsNumberFacts.parseFloat_toString. }
    unfold after. rewrite createOrder_inserts, Hrow by done. cbn [fst snd].
    split_and!; [reflexivity | | simpl; lia].
    change (orders (inserted ordersTable (createOrder_values input) now db))
      with (from ordersTable
              (inserted ordersTable (createOrder_values input) now db)).
    by rewrite rows_inserted, fmap_app, <- Hrow by apply _.
  - intros input Horder Hproduct item.
    assert (order_item_of_row
              (new_row orderItemsTable (next_id (order_items db)) now
                 (createOrderItem_values input)) = item) as Hrow.
    { unfold order_item_of_row, item. simpl.
      by rewrite !JsNumberFacts.parseFloat_toString. }
    unfold after. rewrite createOrderItem_inserts, Hrow by done. cbn [fst snd].
    split_and!; [reflexivity | ].
    change (order_items
              (inserted orderItemsTable (createOrderItem_values input) now db))
      with (from orderItemsTable
              (inserted orderItemsTable (createOrderItem_values input) now db)).
    by rewrite rows_inserted, fmap_app, <- Hrow by apply _.
Qed.

Lemma create_returns_record_with_defaults_witness :
  (createOrder first_order 40 shop_without_order).1
  = Ok (Order.mk 1 1 status_pending (parseFloat "39.98") None 40 40).
Proof.
  destruct (create_returns_record_with_defaults 40 shop_without_order)
    as (_ & _ & _ & Horder & _).
  destruct (Horder first_order) as (Hreturned & _).
  - apply (stored_cons_exists usersTable 1 _
             (User.mk 1 "Alice" "alice@example.com" role_user true 10 10) []).
    reflexivity.
  - exact Hreturned.
Defined.

(** ** Timestamps and keys along a run *)

(** C7, at an input where it fails.  A second [updateUser] at the
    clock reading of the first (within the same millisecond) is a
    successful update that does not advance [updated_at]: the stored
    value is that reading already.  The key and [created_at] are kept,
    as they are by every update. *)
Theorem second_update_at_one_reading :
  reachable 30 (after (updateUser rename_alice) 30 alice_only) /\
  (updateUser rename_alice 30 alice_only).1
  = Ok (User.mk 1 "Alicia" "alice@example.com" role_user true 10 30) /\
  (updateUser rename_alice 30 (after (updateUser rename_alice) 30 alice_only)).1
  = Ok (User.mk 1 "Alicia" "alice@example.com" role_user true 10 30).
Proof.
  split_and!; try reflexivity.
  apply (reachable_call 10 30 _ (users_update rename_alice)); [|lia].
  apply (reachable_call 0 10 _ (users_create alice)); [|lia].
  apply reachable_init.
Qed.

(** ** Repeated creates *)

(** C9. Create is not idempotent: two calls with the same input insert
    two rows whose keys are the next two values of the table's
    sequence, so they differ and no row of the table had them.  No call
    rewinds a sequence, and in every reachable store every key is below
    its table's sequence and unique in its table, so a key handed out
    once is never handed out again, also after its row is deleted. *)
Theorem create_twice_inserts_two_rows :
  creates_fresh_rows usersTable (fun row => row) User.id createUser
    (fun _ _ => True) /\
  creates_fresh_rows categoriesTable (fun row => row) Category.id
    createCategory (fun _ _ => True) /\
  creates_fresh_rows productsTable product_of_row Product.id createProduct
    (fun _ _ => True) /\
  creates_fresh_rows ordersTable order_of_row Order.id createOrder
    (fun input db =>
       exists_row usersTable (CreateOrderInput.user_id input) db) /\
  creates_fresh_rows orderItemsTable order_item_of_row OrderItem.id
    createOrderItem
    (fun input db =>
       exists_row ordersTable (CreateOrderItemInput.order_id input) db /\
       exists_row productsTable (CreateOrderItemInput.product_id input) db) /\
  (forall (c : Call) (now : Date) (db : DB),
     sequences_advance db (exec c now db)) /\
  (forall (t : Date) (db : DB),
     reachable t db ->
     (ids_below usersTable db /\ ids_unique usersTable db) /\
     (ids_below categoriesTable db /\ ids_unique categoriesTable db) /\
     (ids_below productsTable db /\ ids_unique productsTable db) /\
     (ids_below ordersTable db /\ ids_unique ordersTable db) /\
     (ids_below orderItemsTable db /\ ids_unique orderItemsTable db)).
Proof.
  split_and!.
  - by apply (creates_fresh_rows_intro _ _ _ _ _ createUser_values).
  - by apply (creates_fresh_rows_intro _ _ _ _ _ createCategory_values).
  - by apply (creates_fresh_rows_intro _ _ _ _ _ createProduct_values).
  - apply (creates_fresh_rows_intro _ _ _ _ _ createOrder_values);
      [done|done|].
    intros input now db Huser. by apply createOrder_inserts.
  - apply (creates_fresh_rows_intro _ _ _ _ _ createOrderItem_values);
      [done|done|].
    intros input now db [Horder Hproduct]. by apply createOrderItem_inserts.
  - intros c now db. eapply sequences_advance_write, exec_write.
  - intros t db Hreach. apply reachable_store_ok in Hreach.
    destruct Hreach as (Hu & Hc & Hp & Ho & Hi).
    split_and!;
      first [ by destruct Hu as (? & ? & _) | by destruct Hc as (? & ? & _)
            | by destruct Hp as (? & ? & _) | by destruct Ho as (? & ? & _)
            | by destruct Hi as (? & ? & _) ].
Qed.

Lemma create_twice_inserts_two_rows_witness :
  exists a b : User.t,
    (createUser alice 10 empty_db).1 = Ok a /\
    (createUser alice 20 (after (createUser alice) 10 empty_db)).1 = Ok b /\
    User.id a = 1 /\ User.id b = 2.
Proof.
  destruct create_twice_inserts_two_rows as (Husers & _).
  destruct (Husers alice 10 20 empty_db I)
    as (a & b & Ha & Hb & Hida & Hidb & _).
  exists a, b. split_and!; [exact Ha | exact Hb | exact Hida | exact Hidb].
Defined.

(** ** Optional text *)

(** C10. An empty string in an optional text field ([description] of a
    category or a product, [notes] of an order) is stored and returned
    as null by create, and stored and returned as the empty string by
    update. *)
Theorem empty_text_is_null_on_create_and_kept_on_update
    (now : Date) (db : DB) :
  (forall input : CreateCategoryInput.t,
     CreateCategoryInput.description input = Some (Some "") ->
     exists category,
       (createCategory input now db).1 = Ok category /\
       Category.description category = None /\
       rows (categories (after (createCategory input) now db))
         = rows (categories db) ++ [category]) /\
  (forall input : CreateProductInput.t,
     CreateProductInput.description input = Some (Some "") ->
     exists product row,
       (createProduct input now db).1 = Ok product /\
       Product.description product = None /\
       rows (products (after (createProduct input) now db))
         = rows (products db) ++ [row] /\
       ProductRow.description row = None) /\
  (forall input : CreateOrderInput.t,
     exists_row usersTable (CreateOrderInput.user_id input) db ->
     CreateOrderInput.notes input = Some (Some "") ->
     exists order row,
       (createOrder input now db).1 = Ok order /\
       Order.notes order = None /\
       rows (orders (after (createOrder input) now db))
         = rows (orders db) ++ [row] /\
       OrderRow.notes row = None) /\
  (forall (input : UpdateCategoryInput.t) (prior : Category.t),
     lookup_id categoriesTable (UpdateCategoryInput.id input) db = Some prior ->
     UpdateCategoryInput.description input = Some (Some "") ->
     exists category,
       (updateCategory input now db).1 = Ok category /\
       Category.description category = Some "" /\
       lookup_id categoriesTable (UpdateCategoryInput.id input)
         (after (updateCategory input) now db) = Some category) /\
  (forall (input : UpdateProductInput.t) (prior : ProductRow.t),
     lookup_id productsTable (UpdateProductInput.id input) db = Some prior ->
     UpdateProductInput.description input = Some (Some "") ->
     exists product row,
       (updateProduct input now db).1 = Ok product /\
       Product.description product = Some "" /\
       lookup_id productsTable (UpdateProductInput.id input)
         (after (updateProduct input) now db) = Some row /\
       ProductRow.description row = Some "") /\
  (forall (input : UpdateOrderInput.t) (prior : OrderRow.t),
     lookup_id ordersTable (UpdateOrderInput.id input) db = Some prior ->
     reference_ok usersTable (UpdateOrderInput.user_id input) db ->
     UpdateOrderInput.notes input = Some (Some "") ->
     exists order row,
       (updateOrder input now db).1 = Ok order /\
       Order.notes order = Some "" /\
       lookup_id ordersTable (UpdateOrderInput.id input)
         (after (updateOrder input) now db) = Some row /\
       OrderRow.notes row = Some "").
Proof.
  split_and!.
  - intros input Hempty. eexists. unfold after.
    rewrite createCategory_inserts. cbn [fst snd].
    split_and!; [reflexivity | simpl; by rewrite Hempty | reflexivity].
  - intros input Hempty. eexists _, _. unfold after.
    rewrite createProduct_inserts. cbn [fst snd].
    split_and!; [reflexivity | simpl; by rewrite Hempty | reflexivity
                | simpl; by rewrite Hempty].
  - intros input Huser Hempty. eexists _, _. unfold after.
    rewrite createOrder_inserts by done. cbn [fst snd].
    split_and!; [reflexivity | simpl; by rewrite Hempty | reflexivity
                | simpl; by rewrite Hempty].
  - intros input prior Hrow Hempty. eexists. unfold after.
    rewrite (updateCategory_found _ _ _ _ Hrow). cbn [fst snd].
    rewrite lookup_updated, Hrow by apply _.
    split_and!; [reflexivity | simpl; by rewrite Hempty | reflexivity].
  - intros input prior Hrow Hempty. eexists _, _. unfold after.
    rewrite (updateProduct_found _ _ _ _ Hrow). cbn [fst snd].
    rewrite lookup_updated, Hrow by apply _.
    split_and!; [reflexivity | simpl; by rewrite Hempty | reflexivity
                | simpl; by rewrite Hempty].
  - intros input prior Hrow Href Hempty. eexists _, _. unfold after.
    rewrite (updateOrder_found _ _ _ _ Hrow Href). cbn [fst snd].
    rewrite lookup_updated, Hrow by apply _.
    split_and!; [reflexivity | simpl; by rewrite Hempty | reflexivity
                | simpl; by rewrite Hempty].
Qed.

Lemma empty_text_is_null_on_create_and_kept_on_update_witness :
  (exists category,
     (createCategory books 20 (after (createUser alice) 10 empty_db)).1
       = Ok category /\
     Category.description category = None) /\
  (exists category,
     (updateCategory blank_description 60 shop).1 = Ok category /\
     Category.description category = Some "").
Proof.
  split.
  - destruct (empty_text_is_null_on_create_and_kept_on_update 20
                (after (createUser alice) 10 empty_db)) as (Hcreate & _).
    destruct (Hcreate books) as (category & Hreturned & Hnull & _);
      [reflexivity|].
    by exists category.
  - destruct (empty_text_is_null_on_create_and_kept_on_update 60 shop)
      as (_ & _ & _ & Hupdate & _).
    destruct (Hupdate blank_description (Category.mk 1 "Books" None true 20 20))
      as (category & Hreturned & Hkept & _); [reflexivity | reflexivity |].
    by exists category.
Defined.

(** * Further properties *)

(** ** Failed calls *)

(** X1. A call that rejects leaves the store exactly as it was, whichever
    of the twenty-six procedures it is: a missing target, a missing
    referenced row or an empty [.set] object is found out before a row is
    written, and an update that reaches the store without a matching row
    changes no row. *)
Theorem rejected_call_leaves_store (c : Call) (now : Date) (db : DB) :
  fails c now db = true -> exec c now db = db.
Proof.
  destruct c; unfold fails, rejects, exec, after; unfold_handlers;
    unfold_handler; simpl; rewrite ?andb_false_r; simpl;
    repeat case_stored; done.
Qed.

Lemma rejected_call_leaves_store_witness :
  fails (orders_update order_to_user_999) 60 shop = true /\
  exec (orders_update order_to_user_999) 60 shop = shop.
Proof.
  split; [reflexivity|].
  apply (rejected_call_leaves_store (orders_update order_to_user_999) 60 shop).
  reflexivity.
Defined.

(** ** The items of an order *)

(** X2. What [getOrderItemsByOrderId] returns for an order id is what
    [getOrderItems] returns, cut down to the records whose [order_id]
    is that id, in the same order; an order without items, or an id no
    order has, gives the empty list.  Ids are integer keys here, and
    the store answers every query. *)
Theorem order_items_by_order_id_filters_all
    (input : GetByIdInput.t) (now : Date) (db : DB) :
  exists all : list OrderItem.t,
    getOrderItems now db = (Ok all, db) /\
    getOrderItemsByOrderId input now db
    = (Ok (filter
             (fun item => OrderItem.order_id item = GetByIdInput.id input)
             all), db).
Proof.
  eexists. split; [reflexivity|].
  unfold getOrderItemsByOrderId. unfold_handler. do 2 f_equal.
  induction (rows (from orderItemsTable db)) as [|r l IH]; [done|].
  rewrite fmap_cons, !filter_cons. simpl.
  case_decide; by rewrite ?fmap_cons, IH.
Qed.

(** X3. An order item that [createOrderItem] resolves with is, from then
    on, the last record [getOrderItemsByOrderId] returns for its order;
    the lists of the other orders are as before. *)
Theorem created_item_is_listed_under_its_order
    (input : CreateOrderItemInput.t) (item : OrderItem.t)
    (now later : Date) (db : DB) :
  (createOrderItem input now db).1 = Ok item ->
  let db' := after (createOrderItem input) now db in
  forall q : GetByIdInput.t,
    exists before : list OrderItem.t,
      getOrderItemsByOrderId q later db = (Ok before, db) /\
      getOrderItemsByOrderId q later db'
      = (Ok (if decide (GetByIdInput.id q = CreateOrderItemInput.order_id input)
             then before ++ [item] else before), db').
Proof.
  intros Hitem db' q. subst db'. unfold after.
  destruct (createOrderItem_cases input now db) as [Hc|[m Hc]];
    rewrite Hc in Hitem |- *; [|done].
  injection Hitem as <-. cbn [snd].
  eexists. split; [reflexivity|].
  unfold getOrderItemsByOrderId. unfold_handler. f_equal.
  rewrite (rows_inserted orderItemsTable), filter_app, fmap_app.
  rewrite filter_cons, filter_nil. simpl.
  destruct (decide (CreateOrderItemInput.order_id input = GetByIdInput.id q))
    as [E|E].
  - by rewrite decide_True.
  - rewrite decide_False by done. by rewrite app_nil_r.
Qed.

Lemma created_item_is_listed_under_its_order_witness :
  (getOrderItemsByOrderId (GetByIdInput.mk 1) 70
     (after (createOrderItem two_novels) 60 shop)).1
  = Ok [OrderItem.mk 1 1 1 2 (parseFloat "19.99") (parseFloat "39.98") 50;
        OrderItem.mk 2 1 1 2 (parseFloat "19.99") (parseFloat "39.98") 60].
Proof.
  destruct (created_item_is_listed_under_its_order two_novels
              (OrderItem.mk 2 1 1 2 (parseFloat "19.99") (parseFloat "39.98") 60)
              60 70 shop eq_refl (GetByIdInput.mk 1))
    as (before & Hbefore & Hafter).
  vm_compute in Hbefore. injection Hbefore as <-. rewrite Hafter.
  vm_compute. reflexivity.
Defined.

(** ** Frames of the writes *)

(** X4. A delete drops the records with its key from the listing and
    nothing else: what [getAll] returns afterwards are the records it
    returned before without those with the key.  This holds for all
    five entities, whether or not a row had the key, and also when
    [deleteUser] rejects. *)
Theorem delete_drops_its_records_from_the_listing :
  delete_drops_key User.id getUsers deleteUser /\
  delete_drops_key Category.id getCategories deleteCategory /\
  delete_drops_key Product.id getProducts deleteProduct /\
  delete_drops_key Order.id getOrders deleteOrder /\
  delete_drops_key OrderItem.id getOrderItems deleteOrderItem.
Proof.
  split_and!.
  - by frame_delete deleteUser_after.
  - by frame_delete deleteCategory_after.
  - frame_delete deleteProduct_after.
    by rewrite (rows_removed productsTable), (filter_converted productsTable).
  - frame_delete deleteOrder_after.
    by rewrite (rows_removed ordersTable), (filter_converted ordersTable).
  - frame_delete deleteOrderItem_after.
    by rewrite (rows_removed orderItemsTable),
         (filter_converted orderItemsTable).
Qed.

(** X5. A delete leaves every other key alone: [getById] of a key other
    than the deleted one returns afterwards what it returned before,
    for all five entities. *)
Theorem delete_keeps_the_other_records :
  keeps_other_keys DeleteInput.id deleteUser getUserById /\
  keeps_other_keys DeleteInput.id deleteCategory getCategoryById /\
  keeps_other_keys DeleteInput.id deleteProduct getProductById /\
  keeps_other_keys DeleteInput.id deleteOrder getOrderById /\
  keeps_other_keys DeleteInput.id deleteOrderItem getOrderItemById.
Proof.
  split_and!.
  - intros input y now later db Hne.
    rewrite deleteUser_after, !getUserById_lookup. cbn [fst].
    by rewrite lookup_removed_ne by (done || apply _).
  - intros input y now later db Hne.
    rewrite deleteCategory_after, !getCategoryById_lookup. cbn [fst].
    by rewrite lookup_removed_ne by (done || apply _).
  - intros input y now later db Hne.
    rewrite deleteProduct_after, !getProductById_lookup. cbn [fst].
    by rewrite lookup_removed_ne by (done || apply _).
  - intros input y now later db Hne.
    rewrite deleteOrder_after, !getOrderById_lookup. cbn [fst].
    by rewrite lookup_removed_ne by (done || apply _).
  - intros input y now later db Hne.
    rewrite deleteOrderItem_after, !getOrderItemById_lookup. cbn [fst].
    by rewrite lookup_removed_ne by (done || apply _).
Qed.

Lemma delete_keeps_the_other_records_witness :
  (getCategoryById (GetByIdInput.mk 1) 70
     (after (deleteCategory (DeleteInput.mk 2)) 60 shop)).1
  = Ok (Some (Category.mk 1 "Books" None true 20 20)).
Proof.
  destruct delete_keeps_the_other_records as (_ & Hcategory & _).
  rewrite (Hcategory (DeleteInput.mk 2) 1 60 70 shop); [reflexivity|].
  simpl. lia.
Defined.

(** X6. An update leaves every other key alone, whether it resolves or
    rejects: [getById] of a key other than the updated one returns
    afterwards what it returned before, for all five entities. *)
Theorem update_keeps_the_other_records :
  keeps_other_keys UpdateUserInput.id updateUser getUserById /\
  keeps_other_keys UpdateCategoryInput.id updateCategory getCategoryById /\
  keeps_other_keys UpdateProductInput.id updateProduct getProductById /\
  keeps_other_keys UpdateOrderInput.id updateOrder getOrderById /\
  keeps_other_keys UpdateOrderItemInput.id updateOrderItem getOrderItemById.
Proof.
  split_and!.
  - frame_update updateUser_after. rewrite !getUserById_lookup. cbn [fst].
    by rewrite lookup_updated_ne by (done || apply _).
  - frame_update updateCategory_after.
    rewrite !getCategoryById_lookup. cbn [fst].
    by rewrite lookup_updated_ne by (done || apply _).
  - frame_update updateProduct_after.
    rewrite !getProductById_lookup. cbn [fst].
    by rewrite lookup_updated_ne by (done || apply _).
  - frame_update updateOrder_after. rewrite !getOrderById_lookup. cbn [fst].
    by rewrite lookup_updated_ne by (done || apply _).
  - frame_update updateOrderItem_after.
    rewrite !getOrderItemById_lookup. cbn [fst].
    by rewrite lookup_updated_ne by (done || apply _).
Qed.

Lemma update_keeps_the_other_records_witness :
  (getProductById (GetByIdInput.mk 1) 80
     (after (updateProduct
               (UpdateProductInput.mk 2 (Some "Atlas") None None None None None))
        70 (after (createProduct novel) 60 shop))).1
  = (getProductById (GetByIdInput.mk 1) 80
       (after (createProduct novel) 60 shop)).1.
Proof.
  destruct update_keeps_the_other_records as (_ & _ & Hproduct & _).
  apply (Hproduct
           (UpdateProductInput.mk 2 (Some "Atlas") None None None None None)
           1 70 80 (after (createProduct novel) 60 shop)).
  simpl. lia.
Defined.

(** X7. An update neither adds a record to the listing nor drops one,
    whether it resolves or rejects: what [getAll] returns afterwards has
    the keys it had before, for all five entities. *)
Theorem update_keeps_the_listed_keys :
  keeps_listed_keys User.id getUsers updateUser /\
  keeps_listed_keys Category.id getCategories updateCategory /\
  keeps_listed_keys Product.id getProducts updateProduct /\
  keeps_listed_keys Order.id getOrders updateOrder /\
  keeps_listed_keys OrderItem.id getOrderItems updateOrderItem.
Proof.
  split_and!.
  - listing_update updateUser_after. by rewrite (keys_updated usersTable).
  - listing_update updateCategory_after.
    by rewrite (keys_updated categoriesTable).
  - listing_update updateProduct_after.
    rewrite <- !list_fmap_compose. by rewrite (keys_updated productsTable).
  - listing_update updateOrder_after.
    rewrite <- !list_fmap_compose. by rewrite (keys_updated ordersTable).
  - listing_update updateOrderItem_after.
    rewrite <- !list_fmap_compose. by rewrite (keys_updated orderItemsTable).
Qed.

(** ** Reading back what was created *)

(** X8. On every store the server can reach, the user or category a
    create resolves with is what [getById] of its key resolves with
    afterwards, field for field. *)
Theorem created_users_and_categories_read_back :
  reads_back User.id createUser getUserById /\
  reads_back Category.id createCategory getCategoryById.
Proof.
  split_and!; intros t now later db input e Hreach%reachable_store_ok He;
    destruct Hreach as (Hu & Hc & _).
  - unfold after. rewrite createUser_inserts in He |- *.
    injection He as <-. cbn [snd User.id usersTable new_row].
    rewrite getUserById_lookup. cbn [fst].
    rewrite (lookup_inserted usersTable); [done|]. by destruct Hu.
  - unfold after. rewrite createCategory_inserts in He |- *.
    injection He as <-. cbn [snd Category.id categoriesTable new_row].
    rewrite getCategoryById_lookup. cbn [fst].
    rewrite (lookup_inserted categoriesTable); [done|]. by destruct Hc.
Qed.

Lemma created_users_and_categories_read_back_witness :
  (getUserById (GetByIdInput.mk 2) 70 (after (createUser alice) 60 shop)).1
  = Ok (Some (User.mk 2 "Alice" "alice@example.com" role_user true 60 60)).
Proof.
  destruct created_users_and_categories_read_back as (Huser & _).
  apply (Huser 50 60 70 shop alice
           (User.mk 2 "Alice" "alice@example.com" role_user true 60 60)
           shop_reachable).
  reflexivity.
Defined.

(** X9. On every store the server can reach, the order or order item a
    create resolves with is what [getById] of its key resolves with
    afterwards, field for field.  [total_amount], [unit_price] and
    [subtotal] are stored as the text [toString] prints and come back
    through [parseFloat] as the numbers that were put in. *)
Theorem created_orders_and_items_read_back :
  reads_back Order.id createOrder getOrderById /\
  reads_back OrderItem.id createOrderItem getOrderItemById /\
  (forall (input : CreateOrderInput.t) (now : Date) (db : DB) (order : Order.t),
     (createOrder input now db).1 = Ok order ->
     Order.total_amount order = CreateOrderInput.total_amount input) /\
  (forall (input : CreateOrderItemInput.t) (now : Date) (db : DB)
          (item : OrderItem.t),
     (createOrderItem input now db).1 = Ok item ->
     OrderItem.unit_price item = CreateOrderItemInput.unit_price input /\
     OrderItem.subtotal item = CreateOrderItemInput.subtotal input).
Proof.
  split_and!.
  - intros t now later db input e Hreach%reachable_store_ok He.
    destruct Hreach as (_ & _ & _ & Ho & Hi).
    unfold after.
    destruct (createOrder_cases input now db) as [Hcase|[m Hcase]];
      rewrite Hcase in He |- *; [|done].
    injection He as <-. cbn [snd].
    rewrite getOrderById_lookup. cbn [fst].
    change (Order.id (order_of_row ?r)) with (OrderRow.id r).
    cbn [OrderRow.id ordersTable new_row].
    rewrite (lookup_inserted ordersTable); [done|]. by destruct Ho.
  - intros t now later db input e Hreach%reachable_store_ok He.
    destruct Hreach as (_ & _ & _ & Ho & Hi).
    unfold after.
    destruct (createOrderItem_cases input now db) as [Hcase|[m Hcase]];
      rewrite Hcase in He |- *; [|done].
    injection He as <-. cbn [snd].
    rewrite getOrderItemById_lookup. cbn [fst].
    change (OrderItem.id (order_item_of_row ?r)) with (OrderItemRow.id r).
    cbn [OrderItemRow.id orderItemsTable new_row].
    rewrite (lookup_inserted orderItemsTable); [done|]. by destruct Hi.
  - intros input now db order He.
    destruct (createOrder_cases input now db) as [Hcase|[m Hcase]];
      rewrite Hcase in He; [|done].
    injection He as <-. simpl. apply JsNumberFacts.parseFloat_toString.
  - intros input now db item He.
    destruct (createOrderItem_cases input now db) as [Hcase|[m Hcase]];
      rewrite Hcase in He; [|done].
    injection He as <-. simpl.
    by rewrite !JsNumberFacts.parseFloat_toString.
Qed.

Lemma created_orders_and_items_read_back_witness :
  (getOrderItemById (GetByIdInput.mk 2) 70
     (after (createOrderItem two_novels) 60 shop)).1
  = Ok (Some (OrderItem.mk 2 1 1 2 (parseFloat "19.99") (parseFloat "39.98")
                60)) /\
  OrderItem.subtotal
    (OrderItem.mk 2 1 1 2 (parseFloat "19.99") (parseFloat "39.98") 60)
  = CreateOrderItemInput.subtotal two_novels.
Proof.
  destruct created_orders_and_items_read_back as (_ & Hitem & _ & Hamounts).
  split.
  - apply (Hitem 50 60 70 shop two_novels
             (OrderItem.mk 2 1 1 2 (parseFloat "19.99") (parseFloat "39.98")
                60) shop_reachable).
    reflexivity.
  - apply (Hamounts two_novels 60 shop). reflexivity.
Defined.

(** ** Deleting twice *)

(** X10. Deleting the same key a second time finds nothing and changes
    nothing: for a category, a product and an order the second call
    resolves with [success: false], for a user it rejects with "User
    with ID n not found", and for an order item it resolves with
    [success: true] again.  This holds whatever the first call found. *)
Theorem second_delete_finds_nothing (x : Z) (now later : Date) (db : DB) :
  (let db' := after (deleteCategory (DeleteInput.mk x)) now db in
   deleteCategory (DeleteInput.mk x) later db'
   = (Ok (DeleteResult.mk false), db')) /\
  (let db' := after (deleteProduct (DeleteInput.mk x)) now db in
   deleteProduct (DeleteInput.mk x) later db'
   = (Ok (DeleteResult.mk false), db')) /\
  (let db' := after (deleteOrder (DeleteInput.mk x)) now db in
   deleteOrder (DeleteInput.mk x) later db'
   = (Ok (DeleteResult.mk false), db')) /\
  (let db' := after (deleteUser (DeleteInput.mk x)) now db in
   deleteUser (DeleteInput.mk x) later db'
   = (Throw ("User with ID " +:+ pretty x +:+ " not found"), db')) /\
  (let db' := after (deleteOrderItem (DeleteInput.mk x)) now db in
   deleteOrderItem (DeleteInput.mk x) later db'
   = (Ok (DeleteResult.mk true), db')).
Proof.
  assert (Hgone : forall {R V P} (tbl : PgTable R V P) `{!LawfulTable tbl},
            removed tbl x (removed tbl x db) = removed tbl x db).
  { intros R V P tbl Hlaw. apply (removed_absent tbl).
    apply (proj1 (stored_nil_iff tbl x _)). apply (stored_removed tbl). }
  split_and!; intros db'; subst db'.
  - rewrite deleteCategory_after. unfold deleteCategory. unfold_handler.
    cbn [DeleteInput.id].
    by rewrite (stored_removed categoriesTable), Hgone by apply _.
  - rewrite deleteProduct_after. unfold deleteProduct. unfold_handler.
    cbn [DeleteInput.id].
    by rewrite (stored_removed productsTable), Hgone by apply _.
  - rewrite deleteOrder_after. unfold deleteOrder. unfold_handler.
    cbn [DeleteInput.id].
    by rewrite (stored_removed ordersTable), Hgone by apply _.
  - rewrite deleteUser_after. unfold deleteUser, getUserById. unfold_handler.
    cbn [DeleteInput.id GetByIdInput.id].
    by rewrite (stored_removed usersTable).
  - rewrite deleteOrderItem_after. unfold deleteOrderItem. unfold_handler.
    cbn [DeleteInput.id].
    by rewrite Hgone by apply _.
Qed.

(** ** Validated stores *)

(** When every call comes in through the router, every stored record
    meets the refinements that the create schema of its entity puts on
    the fields, whatever sequence of creates, updates and deletes led to
    the store: a create stores the validated fields, an update only
    overwrites a field with a validated value, and a refused input
    never reaches a handler. *)

(** X11. Users: every record [users.getAll] returns has a name that is
    not empty and an email address that passes the address check. *)
Theorem served_users_meet_the_schema
    (is_email : string -> bool) (t now : Date) (db : DB)
    (all : list User.t) (user : User.t) :
  served is_email t db ->
  (appRouter.users.getAll now db).1 = Ok all ->
  user ∈ all ->
  User.name user <> "" /\ is_email (User.email user) = true.
Proof.
  intros (Hu & _)%served_records_valid Hall Hin.
  injection Hall as <-. by apply Hu.
Qed.

Lemma served_users_meet_the_schema_witness :
  User.name (User.mk 1 "Alice" "alice@example.com" role_user true 10 10) <> "" /\
  has_at_sign
    (User.email (User.mk 1 "Alice" "alice@example.com" role_user true 10 10))
  = true.
Proof.
  apply (served_users_meet_the_schema has_at_sign 50 60 shop
           [User.mk 1 "Alice" "alice@example.com" role_user true 10 10]).
  - exact shop_served.
  - reflexivity.
  - apply elem_of_cons. by left.
Defined.

(** X12. Categories: every record [categories.getAll] returns has a name
    that is not empty. *)
Theorem served_categories_meet_the_schema
    (is_email : string -> bool) (t now : Date) (db : DB)
    (all : list Category.t) (category : Category.t) :
  served is_email t db ->
  (appRouter.categories.getAll now db).1 = Ok all ->
  category ∈ all ->
  Category.name category <> "".
Proof.
  intros (_ & Hc & _)%served_records_valid Hall Hin.
  injection Hall as <-. by apply Hc.
Qed.

Lemma served_categories_meet_the_schema_witness :
  Category.name (Category.mk 1 "Books" None true 20 20) <> "".
Proof.
  apply (served_categories_meet_the_schema has_at_sign 50 60 shop
           [Category.mk 1 "Books" None true 20 20]).
  - exact shop_served.
  - reflexivity.
  - apply elem_of_cons. by left.
Defined.

(** X13. Products: every record [products.getAll] returns has a name
    that is not empty, a positive price (as a number, after the stored
    text has been parsed) and a stock that is not negative. *)
Theorem served_products_meet_the_schema
    (is_email : string -> bool) (t now : Date) (db : DB)
    (all : list Product.t) (product : Product.t) :
  served is_email t db ->
  (appRouter.products.getAll now db).1 = Ok all ->
  product ∈ all ->
  Product.name product <> "" /\
  is_positive (Product.price product) = true /\
  0 <= Product.stock_quantity product.
Proof.
  intros (_ & _ & Hp & _)%served_records_valid Hall Hin.
  injection Hall as <-.
  apply list_elem_of_fmap in Hin as (r & -> & Hr). by apply Hp.
Qed.

Lemma served_products_meet_the_schema_witness :
  is_positive
    (Product.price
       (Product.mk 1 "Novel" None (parseFloat "19.99") 0 None true 30 30))
  = true.
Proof.
  apply (served_products_meet_the_schema has_at_sign 50 60 shop
           [Product.mk 1 "Novel" None (parseFloat "19.99") 0 None true 30 30]).
  - exact shop_served.
  - reflexivity.
  - apply elem_of_cons. by left.
Defined.

(** X14. Orders: every record [orders.getAll] returns has a total that
    is not negative. *)
Theorem served_orders_meet_the_schema
    (is_email : string -> bool) (t now : Date) (db : DB)
    (all : list Order.t) (order : Order.t) :
  served is_email t db ->
  (appRouter.orders.getAll now db).1 = Ok all ->
  order ∈ all ->
  is_nonnegative (Order.total_amount order) = true.
Proof.
  intros (_ & _ & _ & Ho & _)%served_records_valid Hall Hin.
  injection Hall as <-.
  apply list_elem_of_fmap in Hin as (r & -> & Hr). by apply Ho.
Qed.

Lemma served_orders_meet_the_schema_witness :
  is_nonnegative
    (Order.total_amount
       (Order.mk 1 1 status_pending (parseFloat "39.98") None 40 40))
  = true.
Proof.
  apply (served_orders_meet_the_schema has_at_sign 50 60 shop
           [Order.mk 1 1 status_pending (parseFloat "39.98") None 40 40]).
  - exact shop_served.
  - reflexivity.
  - apply elem_of_cons. by left.
Defined.

(** X15. Order items: every record [orderItems.getAll] returns has a
    positive quantity, a positive unit price and a subtotal that is not
    negative. *)
Theorem served_order_items_meet_the_schema
    (is_email : string -> bool) (t now : Date) (db : DB)
    (all : list OrderItem.t) (item : OrderItem.t) :
  served is_email t db ->
  (appRouter.orderItems.getAll now db).1 = Ok all ->
  item ∈ all ->
  0 < OrderItem.quantity item /\
  is_positive (OrderItem.unit_price item) = true /\
  is_nonnegative (OrderItem.subtotal item) = true.
Proof.
  intros (_ & _ & _ & _ & Hi)%served_records_valid Hall Hin.
  injection Hall as <-.
  apply list_elem_of_fmap in Hin as (r & -> & Hr). by apply Hi.
Qed.

Lemma served_order_items_meet_the_schema_witness :
  0 < OrderItem.quantity
        (OrderItem.mk 1 1 1 2 (parseFloat "19.99") (parseFloat "39.98") 50).
Proof.
  apply (served_order_items_meet_the_schema has_at_sign 50 60 shop
           [OrderItem.mk 1 1 1 2 (parseFloat "19.99") (parseFloat "39.98") 50]).
  - exact shop_served.
  - reflexivity.
  - apply elem_of_cons. by left.
Defined.

(** ** The lists the components show *)

(** The list a management component shows keeps the records the
    server's [getAll] returns, through every event handler of the
    component that talks to the server: loading, submitting the form
    (as a create or as an update of the record being edited, whether
    the router refuses the form, the handler rejects it, or the call
    goes through) and deleting.  A submitted update replaces the one
    record with the returned key, a create adds the returned record and
    a delete drops the records with the key, which is what the store
    did.  This holds on every store the server can reach, where keys
    are unique, for whatever the form holds. *)

(** X16. The user list of [UserManagement] keeps the records
    [users.getAll] returns across [loadUsers], [handleSubmit] and
    [handleDelete]; a delete of a user that is not there is rejected by
    the server and leaves the list as it was. *)
Theorem user_list_stays_in_sync (is_email : string -> bool) :
  stays_in_sync UserManagement.users appRouter.users.getAll
    UserManagement.loadUsers /\
  stays_in_sync UserManagement.users appRouter.users.getAll
    (UserManagement.handleSubmit is_email) /\
  forall userId,
    stays_in_sync UserManagement.users appRouter.users.getAll
      (UserManagement.handleDelete userId).
Proof.
  split_and!; [| |intros userId]; sync_begin getUsers_rows.
  - sync_end getUsers_rows Hsync.
  - destruct (UserManagement.editingUser st) as [editing|]; read_state;
      case_schema; try sync_end getUsers_rows Hsync.
    case_update updateUser updateUser_cases;
      sync_end getUsers_rows Hsync.
    eapply (rows_updated_unique usersTable); [unique_ids|exact Hst].
  - case_create deleteUser deleteUser_cases;
      sync_end getUsers_rows Hsync.
Qed.

Lemma user_list_stays_in_sync_witness :
  exists (st' : UserManagement.State) (all' : list User.t),
    (UserManagement.handleSubmit has_at_sign user_list_of_shop 60 shop).1
    = Ok st' /\
    (appRouter.users.getAll 60
       (after (UserManagement.handleSubmit has_at_sign user_list_of_shop)
          60 shop)).1
    = Ok all' /\
    UserManagement.users st' ≡ₚ all'.
Proof.
  destruct (user_list_stays_in_sync has_at_sign) as (_ & Hsubmit & _).
  apply (Hsubmit 50 60 shop user_list_of_shop
           [User.mk 1 "Alice" "alice@example.com" role_user true 10 10]
           shop_reachable eq_refl).
  reflexivity.
Defined.

(** X17. The category list of [CategoryManagement] keeps the records
    [categories.getAll] returns across [loadCategories], [handleSubmit]
    and [handleDelete]. *)
Theorem category_list_stays_in_sync :
  stays_in_sync CategoryManagement.categories appRouter.categories.getAll
    CategoryManagement.loadCategories /\
  stays_in_sync CategoryManagement.categories appRouter.categories.getAll
    CategoryManagement.handleSubmit /\
  forall categoryId,
    stays_in_sync CategoryManagement.categories appRouter.categories.getAll
      (CategoryManagement.handleDelete categoryId).
Proof.
  split_and!; [| |intros categoryId]; sync_begin getCategories_rows.
  - sync_end getCategories_rows Hsync.
  - destruct (CategoryManagement.editingCategory st) as [editing|]; read_state;
      case_schema; try sync_end getCategories_rows Hsync.
    case_update updateCategory updateCategory_cases;
      sync_end getCategories_rows Hsync.
    eapply (rows_updated_unique categoriesTable); [unique_ids|exact Hst].
  - sync_end getCategories_rows Hsync.
Qed.

Lemma category_list_stays_in_sync_witness :
  exists (st' : CategoryManagement.State) (all' : list Category.t),
    (CategoryManagement.handleDelete 1 category_list_of_shop 60 shop).1
    = Ok st' /\
    (appRouter.categories.getAll 60
       (after (CategoryManagement.handleDelete 1 category_list_of_shop)
          60 shop)).1
    = Ok all' /\
    CategoryManagement.categories st' ≡ₚ all'.
Proof.
  destruct category_list_stays_in_sync as (_ & _ & Hdelete).
  apply (Hdelete 1 50 60 shop category_list_of_shop
           [Category.mk 1 "Books" None true 20 20] shop_reachable eq_refl).
  reflexivity.
Defined.

(** X18. The product list of [ProductManagement] keeps the records
    [products.getAll] returns across [loadProducts], [loadCategories],
    [handleSubmit] and [handleDelete]; the prices in the list are the
    numbers the server parsed from the stored text. *)
Theorem product_list_stays_in_sync :
  stays_in_sync ProductManagement.products appRouter.products.getAll
    ProductManagement.loadProducts /\
  stays_in_sync ProductManagement.products appRouter.products.getAll
    ProductManagement.loadCategories /\
  stays_in_sync ProductManagement.products appRouter.products.getAll
    ProductManagement.handleSubmit /\
  forall productId,
    stays_in_sync ProductManagement.products appRouter.products.getAll
      (ProductManagement.handleDelete productId).
Proof.
  split_and!; [| | |intros productId]; sync_begin getProducts_rows.
  - sync_end getProducts_rows Hsync.
  - sync_end getProducts_rows Hsync.
  - destruct (ProductManagement.editingProduct st) as [editing|]; read_state;
      case_schema; try sync_end getProducts_rows Hsync.
    + case_update updateProduct updateProduct_cases;
      sync_end getProducts_rows Hsync.
      eapply (listed_updated productsTable); [done|unique_ids|exact Hst].
    + apply (listed_inserted productsTable).
  - sync_end getProducts_rows Hsync.
    by apply (listed_removed productsTable).
Qed.

Lemma product_list_stays_in_sync_witness :
  exists (st' : ProductManagement.State) (all' : list Product.t),
    (ProductManagement.handleSubmit
       (ProductManagement.handleEdit
          (Product.mk 1 "Novel" None (parseFloat "19.99") 0 None true 30 30)
          product_list_of_shop) 60 shop).1
    = Ok st' /\
    (appRouter.products.getAll 60
       (after (ProductManagement.handleSubmit
                 (ProductManagement.handleEdit
                    (Product.mk 1 "Novel" None (parseFloat "19.99") 0 None
                       true 30 30)
                    product_list_of_shop)) 60 shop)).1
    = Ok all' /\
    ProductManagement.products st' ≡ₚ all'.
Proof.
  destruct product_list_stays_in_sync as (_ & _ & Hsubmit & _).
  apply (Hsubmit 50 60 shop
           (ProductManagement.handleEdit
              (Product.mk 1 "Novel" None (parseFloat "19.99") 0 None true 30 30)
              product_list_of_shop)
           [Product.mk 1 "Novel" None (parseFloat "19.99") 0 None true 30 30]
           shop_reachable eq_refl).
  reflexivity.
Defined.

(** X19. The order list of [OrderManagement] keeps the records
    [orders.getAll] returns across [loadOrders], [loadUsers],
    [handleSubmit] and [handleDelete].  When the form names a user that
    does not exist, [handleSubmit] does not change the store and leaves
    the list, the edit and the form as they were: the server refuses
    the order (the router the form, or the handler the user), and the
    component only logs the error. *)
Theorem order_list_stays_in_sync :
  stays_in_sync OrderManagement.orders appRouter.orders.getAll
    OrderManagement.loadOrders /\
  stays_in_sync OrderManagement.orders appRouter.orders.getAll
    OrderManagement.loadUsers /\
  stays_in_sync OrderManagement.orders appRouter.orders.getAll
    OrderManagement.handleSubmit /\
  (forall orderId,
     stays_in_sync OrderManagement.orders appRouter.orders.getAll
       (OrderManagement.handleDelete orderId)) /\
  (forall (st : OrderManagement.State) (now : Date) (db : DB),
     ~ exists_row usersTable
         (CreateOrderInput.user_id (OrderManagement.formData st)) db ->
     OrderManagement.handleSubmit st now db
     = (Ok (OrderManagement.mk (OrderManagement.orders st)
              (OrderManagement.users st) false
              (OrderManagement.editingOrder st)
              (OrderManagement.formData st)), db)).
Proof.
  split_and!; [| | |intros orderId|]; try sync_begin getOrders_rows.
  - sync_end getOrders_rows Hsync.
  - sync_end getOrders_rows Hsync.
  - destruct (OrderManagement.editingOrder st) as [editing|]; read_state;
      case_schema; try sync_end getOrders_rows Hsync.
    + case_update updateOrder updateOrder_cases;
      sync_end getOrders_rows Hsync.
      eapply (listed_updated ordersTable); [done|unique_ids|exact Hst].
    + case_create createOrder createOrder_outcome;
        sync_end getOrders_rows Hsync.
      apply (listed_inserted ordersTable).
  - sync_end getOrders_rows Hsync.
    by apply (listed_removed ordersTable).
  - intros st now db Hnobody. unfold_component. read_state.
    destruct (OrderManagement.editingOrder st) as [editing|]; read_state;
      case_schema; try done.
    + by rewrite (updateOrder_missing_user
                    (OrderManagement.updateData editing
                       (OrderManagement.formData st))
                    now db _ eq_refl Hnobody).
    + by rewrite (createOrder_missing_user _ now db Hnobody).
Qed.

Lemma order_list_stays_in_sync_witness :
  (exists (st' : OrderManagement.State) (all' : list Order.t),
     (OrderManagement.handleSubmit order_list_of_shop 60 shop).1 = Ok st' /\
     (appRouter.orders.getAll 60
        (after (OrderManagement.handleSubmit order_list_of_shop) 60 shop)).1
     = Ok all' /\
     OrderManagement.orders st' ≡ₚ all') /\
  OrderManagement.handleSubmit order_form_for_nobody 60 shop
  = (Ok order_form_for_nobody, shop).
Proof.
  destruct order_list_stays_in_sync as (_ & _ & Hsubmit & _ & Hnobody).
  split.
  - apply (Hsubmit 50 60 shop order_list_of_shop
             [Order.mk 1 1 status_pending (parseFloat "39.98") None 40 40]
             shop_reachable eq_refl).
    reflexivity.
  - apply (Hnobody order_form_for_nobody 60 shop).
    apply stored_nil_iff. reflexivity.
Defined.

(** X20. The order-item list of [OrderItemManagement] keeps the
    records [orderItems.getAll] returns across [loadOrderItems],
    [loadOrders], [loadProducts], [handleSubmit] and [handleDelete],
    whatever the form holds when it is submitted. *)
Theorem order_item_list_stays_in_sync :
  stays_in_sync OrderItemManagement.orderItems appRouter.orderItems.getAll
    OrderItemManagement.loadOrderItems /\
  stays_in_sync OrderItemManagement.orderItems appRouter.orderItems.getAll
    OrderItemManagement.loadOrders /\
  stays_in_sync OrderItemManagement.orderItems appRouter.orderItems.getAll
    OrderItemManagement.loadProducts /\
  stays_in_sync OrderItemManagement.orderItems appRouter.orderItems.getAll
    OrderItemManagement.handleSubmit /\
  forall orderItemId,
    stays_in_sync OrderItemManagement.orderItems appRouter.orderItems.getAll
      (OrderItemManagement.handleDelete orderItemId).
Proof.
  split_and!; [| | | |intros orderItemId]; sync_begin getOrderItems_rows.
  - sync_end getOrderItems_rows Hsync.
  - sync_end getOrderItems_rows Hsync.
  - sync_end getOrderItems_rows Hsync.
  - destruct (OrderItemManagement.editingOrderItem st) as [editing|];
      read_state; case_schema; try sync_end getOrderItems_rows Hsync.
    + case_update updateOrderItem updateOrderItem_cases;
      sync_end getOrderItems_rows Hsync.
      eapply (listed_updated orderItemsTable); [done|unique_ids|exact Hst].
    + case_create createOrderItem createOrderItem_outcome;
        sync_end getOrderItems_rows Hsync.
      apply (listed_inserted orderItemsTable).
  - sync_end getOrderItems_rows Hsync.
    by apply (listed_removed orderItemsTable).
Qed.

Lemma order_item_list_stays_in_sync_witness :
  exists (st' : OrderItemManagement.State) (all' : list OrderItem.t),
    (OrderItemManagement.handleSubmit order_item_list_of_shop 60 shop).1
    = Ok st' /\
    (appRouter.orderItems.getAll 60
       (after (OrderItemManagement.handleSubmit order_item_list_of_shop)
          60 shop)).1
    = Ok all' /\
    OrderItemManagement.orderItems st' ≡ₚ all'.
Proof.
  destruct order_item_list_stays_in_sync as (_ & _ & _ & Hsubmit & _).
  apply (Hsubmit 50 60 shop order_item_list_of_shop
           [OrderItem.mk 1 1 1 2 (parseFloat "19.99") (parseFloat "39.98") 50]
           shop_reachable eq_refl).
  reflexivity.
Defined.

(** ** The names shown for references *)

(** X21. What the product, order and order-item lists show for a
    referenced record, once the component has loaded its lookup list
    from a store the server can reach.  A product without a category,
    or with category id 0, is "Uncategorized".  Otherwise the name of
    the referenced category, user or product is shown only when a row
    with the key exists and is active: a reference to a row that was
    deleted, or that was deactivated, shows as "Unknown Category",
    "Unknown User" or "Unknown Product".  The order of an order item is
    shown with its number and status whenever the order exists, and as
    "Unknown Order" otherwise. *)
Theorem names_shown_for_references (t now : Date) (db : DB) :
  reachable t db ->
  (forall (st0 st : ProductManagement.State) (categoryId : option Z),
     (ProductManagement.loadCategories st0 now db).1 = Ok st ->
     ProductManagement.getCategoryName st categoryId
     = match categoryId with
       | None => "Uncategorized"
       | Some x =>
           if decide (x = 0) then "Uncategorized"
           else match lookup_id categoriesTable x db with
                | Some category =>
                    if Category.is_active category then Category.name category
                    else "Unknown Category"
                | None => "Unknown Category"
                end
       end) /\
  (forall (st0 st : OrderManagement.State) (userId : Z),
     (OrderManagement.loadUsers st0 now db).1 = Ok st ->
     OrderManagement.getUserName st userId
     = match lookup_id usersTable userId db with
       | Some user =>
           if User.is_active user then User.name user else "Unknown User"
       | None => "Unknown User"
       end) /\
  (forall (st0 st : OrderItemManagement.State) (productId : Z),
     (OrderItemManagement.loadProducts st0 now db).1 = Ok st ->
     OrderItemManagement.getProductName st productId
     = match lookup_id productsTable productId db with
       | Some product =>
           if ProductRow.is_active product then ProductRow.name product
           else "Unknown Product"
       | None => "Unknown Product"
       end) /\
  (forall (st0 st : OrderItemManagement.State) (orderId : Z),
     (OrderItemManagement.loadOrders st0 now db).1 = Ok st ->
     OrderItemManagement.getOrderInfo st orderId
     = match lookup_id ordersTable orderId db with
       | Some order =>
           "Order #" +:+ pretty orderId +:+ " ("
           +:+ status_text (OrderRow.status order) +:+ ")"
       | None => "Unknown Order"
       end).
Proof.
  intros (Hu & Hc & Hp & _)%reachable_store_ok.
  split_and!.
  - intros st0 st categoryId Hload. injection Hload as <-.
    unfold ProductManagement.getCategoryName. read_state.
    destruct categoryId as [x|]; [|done].
    unfold truthy, nullable_truthy, truthy, Z_truthy.
    destruct (Z.eqb_spec x 0) as [->|Hx]; [done|].
    rewrite decide_False by done. cbn [negb].
    destruct Hc as (_ & Hunique & _).
    pose proof (find_by_id_active categoriesTable (fun r => r) Category.id
                  Category.is_active (fun _ => eq_refl) x db Hunique) as Hfind.
    rewrite list_fmap_id, option_fmap_id in Hfind.
    cbn [from categoriesTable] in Hfind. rewrite Hfind.
    destruct (lookup_id categoriesTable x db) as [c|]; [|done].
    by destruct (Category.is_active c).
  - intros st0 st userId Hload. injection Hload as <-.
    unfold OrderManagement.getUserName. read_state.
    destruct Hu as (_ & Hunique & _).
    pose proof (find_by_id_active usersTable (fun r => r) User.id
                  User.is_active (fun _ => eq_refl) userId db Hunique)
      as Hfind.
    rewrite list_fmap_id, option_fmap_id in Hfind.
    cbn [from usersTable] in Hfind. rewrite Hfind.
    destruct (lookup_id usersTable userId db) as [u|]; [|done].
    by destruct (User.is_active u).
  - intros st0 st productId Hload. injection Hload as <-.
    unfold OrderItemManagement.getProductName. read_state.
    destruct Hp as (_ & Hunique & _).
    pose proof (find_by_id_active productsTable product_of_row Product.id
                  Product.is_active (fun _ => eq_refl) productId db Hunique)
      as Hfind.
    cbn [from productsTable] in Hfind. rewrite Hfind.
    destruct (lookup_id productsTable productId db) as [p|]; [|done].
    simpl. by destruct (ProductRow.is_active p).
  - intros st0 st orderId Hload. injection Hload as <-.
    unfold OrderItemManagement.getOrderInfo. read_state.
    rewrite (find_by_id_first ordersTable order_of_row Order.id
               (fun _ => eq_refl)).
    destruct (lookup_id ordersTable orderId db) as [o|] eqn:Hrow;
      unfold lookup_id, stored in Hrow; cbn [from ordersTable] in Hrow;
      rewrite Hrow; [|done].
    simpl.
    assert (head (filter (eq_id ordersTable orderId) (rows (orders db)))
            = Some o) as Hhead by exact Hrow.
    apply head_Some in Hhead as [l Hl].
    assert (o ∈ filter (eq_id ordersTable orderId) (rows (orders db)))
      as [Hid _]%list_elem_of_filter by (rewrite Hl; apply elem_of_cons; auto).
    unfold eq_id in Hid. simpl in Hid. by rewrite Hid.
Qed.

Lemma names_shown_for_references_witness :
  ProductManagement.getCategoryName product_list_with_books_closed (Some 1)
  = "Unknown Category".
Proof.
  assert (reachable 60 shop_with_books_closed) as Hreach.
  { apply (reachable_call 50 60 shop (categories_update close_books));
      [exact shop_reachable|lia]. }
  destruct (names_shown_for_references 60 70 shop_with_books_closed Hreach)
    as (Hcategory & _).
  rewrite (Hcategory product_list_of_shop product_list_with_books_closed
             (Some 1) eq_refl).
  reflexivity.
Defined.

(** ** Edit and save *)

(** Opening a stored record in the form and submitting the form as it
    is changes nothing but [updated_at]: the router accepts the form,
    the update resolves, the list shows the record with [updated_at] set
    to the time of the call and every other field as before, the form
    is reset and the edit is closed, and a later [getById] returns that
    record.  This holds on every store that was filled through the
    router, whose records pass the update schema. *)

(** X22. A user opened with [handleEdit] of [UserManagement] and saved
    unchanged with [handleSubmit] keeps every field but [updated_at]. *)
Theorem saving_an_unchanged_user_only_touches
    (is_email : string -> bool) (t now : Date) (db : DB) :
  served is_email t db ->
  forall (st : UserManagement.State) (user : User.t),
    (appRouter.users.getById (GetByIdInput.mk (User.id user)) now db).1
      = Ok (Some user) ->
    exists db' : DB,
      UserManagement.handleSubmit is_email
        (UserManagement.handleEdit user st) now db
      = (Ok (UserManagement.mk
               (replace_by_id User.id (touched_user now user)
                  (UserManagement.users st))
               false None UserManagement.blank_form), db') /\
      (appRouter.users.getById (GetByIdInput.mk (User.id user)) now db').1
      = Ok (Some (touched_user now user)).
Proof.
  intros (Hu & _)%served_records_valid.
  unfold_router. unfold procedure, getByIdInputSchema.
  intros st user Hget. rewrite getUserById_lookup in Hget.
  injection Hget as Hrow.
  destruct (lookup_id_elem_of usersTable _ _ _ Hrow) as [Hin _].
  destruct (Hu user Hin) as [Hname Hemail].
  apply min_1_nonempty in Hname.
  unfold UserManagement.handleSubmit, UserManagement.handleEdit, catch_log.
  unfold_router. unfold procedure, updateUserInputSchema.
  unfold mbind, Handler_bind, mret, Handler_ret. read_state.
  cbn [UserManagement.updateData UpdateUserInput.name UpdateUserInput.email
       CreateUserInput.name CreateUserInput.email optional].
  rewrite Hname, Hemail. cbn [andb].
  rewrite (updateUser_found _ now db user) by exact Hrow.
  eexists. split; [reflexivity|].
  rewrite getUserById_lookup. cbn [fst].
  rewrite (lookup_updated usersTable).
  cbn [UpdateUserInput.id UserManagement.updateData].
  by rewrite Hrow.
Qed.

Lemma saving_an_unchanged_user_only_touches_witness :
  exists db' : DB,
    UserManagement.handleSubmit has_at_sign
      (UserManagement.handleEdit
         (User.mk 1 "Alice" "alice@example.com" role_user true 10 10)
         user_list_of_shop) 60 shop
    = (Ok (UserManagement.mk
             [User.mk 1 "Alice" "alice@example.com" role_user true 10 60]
             false None UserManagement.blank_form), db').
Proof.
  destruct (saving_an_unchanged_user_only_touches has_at_sign 50 60 shop
              shop_served user_list_of_shop
              (User.mk 1 "Alice" "alice@example.com" role_user true 10 10)
              eq_refl) as (db' & Hsubmit & _).
  exists db'. exact Hsubmit.
Defined.

(** X23. A category opened with [handleEdit] of [CategoryManagement]
    and saved unchanged keeps every field but [updated_at], a null
    description included. *)
Theorem saving_an_unchanged_category_only_touches
    (is_email : string -> bool) (t now : Date) (db : DB) :
  served is_email t db ->
  forall (st : CategoryManagement.State) (category : Category.t),
    (appRouter.categories.getById
       (GetByIdInput.mk (Category.id category)) now db).1
      = Ok (Some category) ->
    exists db' : DB,
      CategoryManagement.handleSubmit
        (CategoryManagement.handleEdit category st) now db
      = (Ok (CategoryManagement.mk
               (replace_by_id Category.id (touched_category now category)
                  (CategoryManagement.categories st))
               false None CategoryManagement.blank_form), db') /\
      (appRouter.categories.getById
         (GetByIdInput.mk (Category.id category)) now db').1
      = Ok (Some (touched_category now category)).
Proof.
  intros (_ & Hc & _)%served_records_valid.
  unfold_router. unfold procedure, getByIdInputSchema.
  intros st category Hget. rewrite getCategoryById_lookup in Hget.
  injection Hget as Hrow.
  destruct (lookup_id_elem_of categoriesTable _ _ _ Hrow) as [Hin _].
  pose proof (Hc category Hin) as Hname.
  apply min_1_nonempty in Hname.
  unfold CategoryManagement.handleSubmit, CategoryManagement.handleEdit,
    catch_log.
  unfold_router. unfold procedure, updateCategoryInputSchema.
  unfold mbind, Handler_bind, mret, Handler_ret. read_state.
  cbn [CategoryManagement.updateData UpdateCategoryInput.name
       CreateCategoryInput.name optional].
  rewrite Hname.
  rewrite (updateCategory_found _ now db category) by exact Hrow.
  eexists. split; [reflexivity|].
  rewrite getCategoryById_lookup. cbn [fst].
  rewrite (lookup_updated categoriesTable).
  cbn [UpdateCategoryInput.id CategoryManagement.updateData].
  by rewrite Hrow.
Qed.

Lemma saving_an_unchanged_category_only_touches_witness :
  exists db' : DB,
    CategoryManagement.handleSubmit
      (CategoryManagement.handleEdit (Category.mk 1 "Books" None true 20 20)
         category_list_of_shop) 60 shop
    = (Ok (CategoryManagement.mk [Category.mk 1 "Books" None true 20 60]
             false None CategoryManagement.blank_form), db').
Proof.
  destruct (saving_an_unchanged_category_only_touches has_at_sign 50 60 shop
              shop_served category_list_of_shop
              (Category.mk 1 "Books" None true 20 20) eq_refl)
    as (db' & Hsubmit & _).
  exists db'. exact Hsubmit.
Defined.

(** X24. A product opened with [handleEdit] of [ProductManagement] and
    saved unchanged keeps every field but [updated_at]; its price goes
    to text and back and comes out as the same number. *)
Theorem saving_an_unchanged_product_only_touches
    (is_email : string -> bool) (t now : Date) (db : DB) :
  served is_email t db ->
  forall (st : ProductManagement.State) (product : Product.t),
    (appRouter.products.getById
       (GetByIdInput.mk (Product.id product)) now db).1
      = Ok (Some product) ->
    exists db' : DB,
      ProductManagement.handleSubmit
        (ProductManagement.handleEdit product st) now db
      = (Ok (ProductManagement.mk
               (replace_by_id Product.id (touched_product now product)
                  (ProductManagement.products st))
               (ProductManagement.categories st)
               false None ProductManagement.blank_form), db') /\
      (appRouter.products.getById
         (GetByIdInput.mk (Product.id product)) now db').1
      = Ok (Some (touched_product now product)).
Proof.
  intros (_ & _ & Hp & _)%served_records_valid.
  unfold_router. unfold procedure, getByIdInputSchema.
  intros st product Hget. rewrite getProductById_lookup in Hget.
  injection Hget as Hget.
  destruct (lookup_id productsTable (Product.id product) db) as [r|] eqn:Hrow;
    [|done].
  injection Hget as <-.
  destruct (lookup_id_elem_of productsTable _ _ _ Hrow) as [Hin _].
  destruct (Hp r Hin) as (Hname & Hprice & Hstock).
  apply min_1_nonempty in Hname. apply Z.leb_le in Hstock.
  unfold ProductManagement.handleSubmit, ProductManagement.handleEdit,
    catch_log.
  unfold_router. unfold procedure, updateProductInputSchema.
  unfold mbind, Handler_bind, mret, Handler_ret. read_state.
  cbn [ProductManagement.updateData UpdateProductInput.name
       UpdateProductInput.price UpdateProductInput.stock_quantity
       CreateProductInput.name CreateProductInput.price
       CreateProductInput.stock_quantity optional].
  rewrite Hname, Hprice, Hstock. cbn [andb].
  rewrite (updateProduct_found _ now db r) by exact Hrow.
  eexists. split; [reflexivity|].
  rewrite getProductById_lookup. cbn [fst].
  rewrite (lookup_updated productsTable).
  cbn [UpdateProductInput.id ProductManagement.updateData].
  rewrite Hrow. cbn [fmap option_fmap option_map]. do 2 f_equal.
  unfold product_of_row, touched_product. simpl.
  by rewrite JsNumberFacts.parseFloat_toString.
Qed.

Lemma saving_an_unchanged_product_only_touches_witness :
  exists db' : DB,
    ProductManagement.handleSubmit
      (ProductManagement.handleEdit
         (Product.mk 1 "Novel" None (parseFloat "19.99") 0 None true 30 30)
         product_list_of_shop) 60 shop
    = (Ok (ProductManagement.mk
             [Product.mk 1 "Novel" None (parseFloat "19.99") 0 None true 30 60]
             [Category.mk 1 "Books" None true 20 20]
             false None ProductManagement.blank_form), db').
Proof.
  destruct (saving_an_unchanged_product_only_touches has_at_sign 50 60 shop
              shop_served product_list_of_shop
              (Product.mk 1 "Novel" None (parseFloat "19.99") 0 None true 30 30)
              eq_refl) as (db' & Hsubmit & _).
  exists db'. exact Hsubmit.
Defined.

(** X25. An order opened with [handleEdit] of [OrderManagement] and
    saved unchanged keeps every field but [updated_at], provided its
    user still exists (the update checks the [user_id] the form sends
    back). *)
Theorem saving_an_unchanged_order_only_touches
    (is_email : string -> bool) (t now : Date) (db : DB) :
  served is_email t db ->
  forall (st : OrderManagement.State) (order : Order.t),
    (appRouter.orders.getById (GetByIdInput.mk (Order.id order)) now db).1
      = Ok (Some order) ->
    exists_row usersTable (Order.user_id order) db ->
    exists db' : DB,
      OrderManagement.handleSubmit
        (OrderManagement.handleEdit order st) now db
      = (Ok (OrderManagement.mk
               (replace_by_id Order.id (touched_order now order)
                  (OrderManagement.orders st))
               (OrderManagement.users st)
               false None OrderManagement.blank_form), db') /\
      (appRouter.orders.getById (GetByIdInput.mk (Order.id order)) now db').1
      = Ok (Some (touched_order now order)).
Proof.
  intros (_ & _ & _ & Ho & _)%served_records_valid.
  unfold_router. unfold procedure, getByIdInputSchema.
  intros st order Hget Huser. rewrite getOrderById_lookup in Hget.
  injection Hget as Hget.
  destruct (lookup_id ordersTable (Order.id order) db) as [r|] eqn:Hrow;
    [|done].
  injection Hget as <-.
  destruct (lookup_id_elem_of ordersTable _ _ _ Hrow) as [Hin _].
  pose proof (Ho r Hin) as Htotal. unfold valid_order in Htotal.
  unfold OrderManagement.handleSubmit, OrderManagement.handleEdit,
    catch_log.
  unfold_router. unfold procedure, updateOrderInputSchema.
  unfold mbind, Handler_bind, mret, Handler_ret. read_state.
  cbn [OrderManagement.updateData UpdateOrderInput.total_amount
       CreateOrderInput.total_amount optional].
  rewrite Htotal.
  rewrite (updateOrder_found _ now db r) by (exact Hrow || exact Huser).
  eexists. split; [reflexivity|].
  rewrite getOrderById_lookup. cbn [fst].
  rewrite (lookup_updated ordersTable).
  cbn [UpdateOrderInput.id OrderManagement.updateData].
  rewrite Hrow. cbn [fmap option_fmap option_map]. do 2 f_equal.
  unfold order_of_row, touched_order. simpl.
  by rewrite JsNumberFacts.parseFloat_toString.
Qed.

Lemma saving_an_unchanged_order_only_touches_witness :
  exists db' : DB,
    OrderManagement.handleSubmit
      (OrderManagement.handleEdit
         (Order.mk 1 1 status_pending (parseFloat "39.98") None 40 40)
         order_list_of_shop) 60 shop
    = (Ok (OrderManagement.mk
             [Order.mk 1 1 status_pending (parseFloat "39.98") None 40 60]
             [User.mk 1 "Alice" "alice@example.com" role_user true 10 10]
             false None OrderManagement.blank_form), db').
Proof.
  destruct (saving_an_unchanged_order_only_touches has_at_sign 50 60 shop
              shop_served order_list_of_shop
              (Order.mk 1 1 status_pending (parseFloat "39.98") None 40 40)
              eq_refl) as (db' & Hsubmit & _).
  - apply (stored_cons_exists usersTable 1 _
             (User.mk 1 "Alice" "alice@example.com" role_user true 10 10) []).
    reflexivity.
  - exists db'. exact Hsubmit.
Defined.

(** ** Updates along a run *)

(** X26. In every store the server can reach, an update of an existing
    row returns and stores the prior record with exactly the supplied
    fields replaced by the supplied values: the identity key,
    [created_at] and every field the input leaves out keep their prior
    value ([merged_user] and its siblings).  [updated_at] becomes the
    clock reading of the call.  With a clock that never goes back this
    is never earlier than the stored value, and it is later when the
    clock has advanced since the call before. *)
Theorem partial_update_merges_supplied_fields (t now : Date) (db : DB) :
  reachable t db -> t <= now ->
  (forall (input : UpdateUserInput.t) (prior : User.t),
     lookup_id usersTable (UpdateUserInput.id input) db = Some prior ->
     let new := merged_user input now prior in
     (updateUser input now db).1 = Ok new /\
     lookup_id usersTable (UpdateUserInput.id input)
       (after (updateUser input) now db) = Some new /\
     User.updated_at prior <= User.updated_at new /\
     (t < now -> User.updated_at prior < User.updated_at new)) /\
  (forall (input : UpdateCategoryInput.t) (prior : Category.t),
     lookup_id categoriesTable (UpdateCategoryInput.id input) db = Some prior ->
     let new := merged_category input now prior in
     (updateCategory input now db).1 = Ok new /\
     lookup_id categoriesTable (UpdateCategoryInput.id input)
       (after (updateCategory input) now db) = Some new /\
     Category.updated_at prior <= Category.updated_at new /\
     (t < now -> Category.updated_at prior < Category.updated_at new)) /\
  (forall (input : UpdateProductInput.t) (prior : ProductRow.t),
     lookup_id productsTable (UpdateProductInput.id input) db = Some prior ->
     let new := merged_product input now (product_of_row prior) in
     (updateProduct input now db).1 = Ok new /\
     product_of_row <$>
       lookup_id productsTable (UpdateProductInput.id input)
         (after (updateProduct input) now db) = Some new /\
     ProductRow.updated_at prior <= Product.updated_at new /\
     (t < now -> ProductRow.updated_at prior < Product.updated_at new)) /\
  (forall (input : UpdateOrderInput.t) (prior : OrderRow.t),
     lookup_id ordersTable (UpdateOrderInput.id input) db = Some prior ->
     reference_ok usersTable (UpdateOrderInput.user_id input) db ->
     let new := merged_order input now (order_of_row prior) in
     (updateOrder input now db).1 = Ok new /\
     order_of_row <$>
       lookup_id ordersTable (UpdateOrderInput.id input)
         (after (updateOrder input) now db) = Some new /\
     OrderRow.updated_at prior <= Order.updated_at new /\
     (t < now -> OrderRow.updated_at prior < Order.updated_at new)) /\
  (forall (input : UpdateOrderItemInput.t) (prior : OrderItemRow.t),
     lookup_id orderItemsTable (UpdateOrderItemInput.id input) db
       = Some prior ->
     reference_ok ordersTable (UpdateOrderItemInput.order_id input) db ->
     reference_ok productsTable (UpdateOrderItemInput.product_id input) db ->
     supplies_a_field input ->
     let new := merged_order_item input (order_item_of_row prior) in
     (updateOrderItem input now db).1 = Ok new /\
     order_item_of_row <$>
       lookup_id orderItemsTable (UpdateOrderItemInput.id input)
         (after (updateOrderItem input) now db) = Some new).
Proof.
  intros Hreach Ht. apply reachable_store_ok in Hreach.
  destruct Hreach as (Hu & Hc & Hp & Ho & _).
  split_and!.
  - intros input prior Hrow new. unfold after.
    rewrite (updateUser_found _ _ _ _ Hrow). simpl.
    rewrite lookup_updated, Hrow by apply _.
    apply lookup_id_elem_of in Hrow as [Hin _].
    destruct Hu as (_ & _ & Hs). destruct (Hs prior Hin).
    split_and!; [done..| |]; simpl; lia.
  - intros input prior Hrow new. unfold after.
    rewrite (updateCategory_found _ _ _ _ Hrow). simpl.
    rewrite lookup_updated, Hrow by apply _.
    apply lookup_id_elem_of in Hrow as [Hin _].
    destruct Hc as (_ & _ & Hs). destruct (Hs prior Hin).
    split_and!; [done..| |]; simpl; lia.
  - intros input prior Hrow new. unfold after.
    rewrite (updateProduct_found _ _ _ _ Hrow). simpl.
    rewrite lookup_updated, Hrow by apply _. simpl.
    apply lookup_id_elem_of in Hrow as [Hin _].
    destruct Hp as (_ & _ & Hs). destruct (Hs prior Hin).
    split_and!; [done| |simpl; lia..].
    f_equal. unfold product_of_row, new, merged_product. simpl.
    by rewrite parse_default_text.
  - intros input prior Hrow Href new. unfold after.
    rewrite (updateOrder_found _ _ _ _ Hrow Href). simpl.
    rewrite lookup_updated, Hrow by apply _. simpl.
    apply lookup_id_elem_of in Hrow as [Hin _].
    destruct Ho as (_ & _ & Hs). destruct (Hs prior Hin).
    split_and!; [done| |simpl; lia..].
    f_equal. unfold order_of_row, new, merged_order. simpl.
    by rewrite parse_default_text.
  - intros input prior Hrow Horder Hproduct Hfield new. unfold after.
    rewrite (updateOrderItem_found _ _ _ _ Hrow Horder Hproduct Hfield). simpl.
    rewrite lookup_updated, Hrow by apply _. simpl.
    split; [done|]. f_equal.
    unfold order_item_of_row, new, merged_order_item. simpl.
    by rewrite !parse_default_text.
Qed.

Lemma partial_update_merges_supplied_fields_witness :
  (updateProduct reprice_novel 60 shop).1
  = Ok (Product.mk 1 "Novel" None (parseFloat "39.99") 0 None true 30 60).
Proof.
  destruct (partial_update_merges_supplied_fields 50 60 shop shop_reachable)
    as (_ & _ & Hproduct & _); [lia|].
  destruct (Hproduct reprice_novel
              (ProductRow.mk 1 "Novel" None "19.99" 0 None true 30 30))
    as (Hreturned & _).
  - reflexivity.
  - exact Hreturned.
Defined.

(** X27. With a clock that never goes back, every row that has both
    timestamps has [updated_at >= created_at] in every store the server
    can reach, and keys are unique and below the table's sequence.
    Across every call, a stored row keeps its identity key and its
    [created_at]: each row after the call has the key and creation time
    of a row before it, or is the row the call inserted.  A successful
    update of a user, a category, a product or an order was an update
    of a stored row, and leaves the row under the same key with the
    same [created_at] and an [updated_at] that is never earlier than
    before, and later when the clock has advanced since the call
    before. *)
Theorem timestamps_and_keys_invariant :
  (forall (t : Date) (db : DB),
     reachable t db -> timestamps_ordered db /\ store_ok t db) /\
  (forall (now : Date) (db : DB) (c : Call),
     store_keys_kept now db (exec c now db)) /\
  (forall (t now : Date) (db : DB),
     reachable t db -> t <= now ->
     (forall input new,
        (updateUser input now db).1 = Ok new ->
        exists prior,
          lookup_id usersTable (UpdateUserInput.id input) db = Some prior /\
          lookup_id usersTable (UpdateUserInput.id input)
            (after (updateUser input) now db) = Some new /\
          User.id new = User.id prior /\
          User.created_at new = User.created_at prior /\
          User.updated_at prior <= User.updated_at new /\
          (t < now -> User.updated_at prior < User.updated_at new)) /\
     (forall input new,
        (updateCategory input now db).1 = Ok new ->
        exists prior,
          lookup_id categoriesTable (UpdateCategoryInput.id input) db
            = Some prior /\
          lookup_id categoriesTable (UpdateCategoryInput.id input)
            (after (updateCategory input) now db) = Some new /\
          Category.id new = Category.id prior /\
          Category.created_at new = Category.created_at prior /\
          Category.updated_at prior <= Category.updated_at new /\
          (t < now -> Category.updated_at prior < Category.updated_at new)) /\
     (forall input new,
        (updateProduct input now db).1 = Ok new ->
        exists prior,
          product_of_row <$>
            lookup_id productsTable (UpdateProductInput.id input) db
            = Some prior /\
          product_of_row <$>
            lookup_id productsTable (UpdateProductInput.id input)
              (after (updateProduct input) now db) = Some new /\
          Product.id new = Product.id prior /\
          Product.created_at new = Product.created_at prior /\
          Product.updated_at prior <= Product.updated_at new /\
          (t < now -> Product.updated_at prior < Product.updated_at new)) /\
     (forall input new,
        (updateOrder input now db).1 = Ok new ->
        exists prior,
          order_of_row <$>
            lookup_id ordersTable (UpdateOrderInput.id input) db
            = Some prior /\
          order_of_row <$>
            lookup_id ordersTable (UpdateOrderInput.id input)
              (after (updateOrder input) now db) = Some new /\
          Order.id new = Order.id prior /\
          Order.created_at new = Order.created_at prior /\
          Order.updated_at prior <= Order.updated_at new /\
          (t < now -> Order.updated_at prior < Order.updated_at new))).
Proof.
  split_and!.
  - intros t db Hreach. apply reachable_store_ok in Hreach.
    split; [by eapply store_ok_timestamps_ordered | done].
  - intros now db c. apply store_keys_kept_write, exec_write.
  - intros t now db Hreach Ht. apply reachable_store_ok in Hreach.
    destruct Hreach as (Hu & Hc & Hp & Ho & _). split_and!.
    + intros input new Hok.
      destruct (lookup_or_absent usersTable (UpdateUserInput.id input) db)
        as [[prior Hrow]|Hno];
        [|by rewrite updateUser_missing in Hok].
      unfold after. rewrite (updateUser_found _ _ _ _ Hrow) in Hok |- *.
      cbn [fst snd] in Hok |- *. injection Hok as <-.
      exists prior. rewrite lookup_updated, Hrow by apply _.
      apply lookup_id_elem_of in Hrow as [Hin _].
      destruct Hu as (_ & _ & Hs). destruct (Hs prior Hin).
      split_and!; try done; simpl in *; lia.
    + intros input new Hok.
      destruct (lookup_or_absent categoriesTable
                  (UpdateCategoryInput.id input) db)
        as [[prior Hrow]|Hno];
        [|by rewrite updateCategory_missing in Hok].
      unfold after. rewrite (updateCategory_found _ _ _ _ Hrow) in Hok |- *.
      cbn [fst snd] in Hok |- *. injection Hok as <-.
      exists prior. rewrite lookup_updated, Hrow by apply _.
      apply lookup_id_elem_of in Hrow as [Hin _].
      destruct Hc as (_ & _ & Hs). destruct (Hs prior Hin).
      split_and!; try done; simpl in *; lia.
    + intros input new Hok.
      destruct (lookup_or_absent productsTable
                  (UpdateProductInput.id input) db)
        as [[prior Hrow]|Hno];
        [|by rewrite updateProduct_missing in Hok].
      unfold after. rewrite (updateProduct_found _ _ _ _ Hrow) in Hok |- *.
      cbn [fst snd] in Hok |- *. injection Hok as <-.
      exists (product_of_row prior).
      rewrite lookup_updated, Hrow by apply _.
      apply lookup_id_elem_of in Hrow as [Hin _].
      destruct Hp as (_ & _ & Hs). destruct (Hs prior Hin).
      split_and!; try done; try (simpl in *; lia).
      simpl. f_equal. unfold product_of_row, merged_product. simpl.
      by rewrite parse_default_text.
    + intros input new Hok.
      destruct (reference_ok_or_missing usersTable
                  (UpdateOrderInput.user_id input) db)
        as [Href|(u & Hu' & Hno)];
        [|by rewrite (updateOrder_missing_user _ _ _ u) in Hok].
      destruct (lookup_or_absent ordersTable (UpdateOrderInput.id input) db)
        as [[prior Hrow]|Hno];
        [|by rewrite updateOrder_missing in Hok].
      unfold after. rewrite (updateOrder_found _ _ _ _ Hrow Href) in Hok |- *.
      cbn [fst snd] in Hok |- *. injection Hok as <-.
      exists (order_of_row prior).
      rewrite lookup_updated, Hrow by apply _.
      apply lookup_id_elem_of in Hrow as [Hin _].
      destruct Ho as (_ & _ & Hs). destruct (Hs prior Hin).
      split_and!; try done; try (simpl in *; lia).
      simpl. f_equal. unfold order_of_row, merged_order. simpl.
      by rewrite parse_default_text.
Qed.

Lemma timestamps_and_keys_invariant_witness :
  timestamps_ordered shop /\
  store_keys_kept 60 shop (exec (products_update reprice_novel) 60 shop) /\
  exists prior : Product.t,
    product_of_row <$> lookup_id productsTable 1 shop = Some prior /\
    Product.created_at prior = 30 /\
    Product.updated_at prior < 60.
Proof.
  destruct timestamps_and_keys_invariant as (Hordered & Hkept & Hupdate).
  split_and!.
  - exact (proj1 (Hordered 50 shop shop_reachable)).
  - apply (Hkept 60 shop (products_update reprice_novel)).
  - destruct (Hupdate 50 60 shop shop_reachable ltac:(lia))
      as (_ & _ & Hproduct & _).
    destruct (Hproduct reprice_novel
                (Product.mk 1 "Novel" None (parseFloat "39.99") 0 None true
                   30 60) eq_refl)
      as (prior & Hprior & _ & _ & Hcreated & _ & Hlater).
    exists prior. split_and!; [exact Hprior | by rewrite <- Hcreated |].
    apply Hlater. lia.
Defined.

(** ** Reads *)

(** X28. Each [getById] handler answers from the rows its query
    returns: with the stored row that has the key, converted, when the
    table has one, and with null when it has none; it writes nothing.
    This is the handler on an integer key the store answers for. *)
Theorem getById_returns_row_or_null :
  getById_contract usersTable (fun row => row) getUserById /\
  getById_contract categoriesTable (fun row => row) getCategoryById /\
  getById_contract productsTable product_of_row getProductById /\
  getById_contract ordersTable order_of_row getOrderById /\
  getById_contract orderItemsTable order_item_of_row getOrderItemById.
Proof.
  split_and!; apply getById_contract_intro; try apply _; intros x now db;
    unfold getUserById, getCategoryById, getProductById, getOrderById,
      getOrderItemById, lookup_id; unfold_handler; simpl.
  - by rewrite option_fmap_id.
  - by rewrite option_fmap_id.
  - by destruct (stored _ _ _).
  - by destruct (stored _ _ _).
  - by destruct (stored _ _ _).
Qed.

Lemma getById_returns_row_or_null_witness :
  getProductById (GetByIdInput.mk 7) 60 shop = (Ok None, shop) /\
  exists row,
    getProductById (GetByIdInput.mk 1) 60 shop
    = (Ok (Some (product_of_row row)), shop).
Proof.
  destruct getById_returns_row_or_null as (_ & _ & Hproducts & _).
  destruct (Hproducts 7 60 shop) as [_ Habsent].
  destruct (Hproducts 1 60 shop) as [Hpresent _].
  split.
  - apply Habsent. apply stored_nil_iff. reflexivity.
  - destruct Hpresent as (row & _ & _ & Hget).
    + apply (stored_cons_exists productsTable 1 _
               (ProductRow.mk 1 "Novel" None "19.99" 0 None true 30 30) []).
      reflexivity.
    + by exists row.
Defined.
